(** * SmartStudyPlannerPro: the task store and its derived views

    A shallow embedding of [utils/helpers.js], [utils/storage.js], the
    validation of [screens/AddTaskScreen.js] and the message ladder of
    [screens/ProgressScreen.js], followed by the properties the
    specification states about them.

    JavaScript numbers are IEEE 754 binary64 values; they are modelled by
    the Standard Library's [spec_float] at precision 53 and maximal
    exponent 1024, so [/], [*] and [Math.round] round exactly as the
    engine does. *)

From Stdlib Require Import ZArith List Bool Ascii String Lia Permutation Sorted.
From Stdlib Require Import Floats.SpecFloat Reals Psatz.
From stdpp Require Import base option gmap strings list fin_maps.

Local Open Scope string_scope.
Local Open Scope Z_scope.

(** ** JavaScript values *)

Module JS.

(** The number type: binary64. *)
Abbreviation number := spec_float.

Definition prec : Z := 53.
Definition emax : Z := 1024.

Abbreviation NaN := S754_nan.
Abbreviation Infinity := (S754_infinity false).

(** The Number nearest to an integer (exact below 2^53). *)
Definition of_Z (z : Z) : number := binary_normalize prec emax z 0 false.

Definition div (x y : number) : number := SFdiv prec emax x y.
Definition mul (x y : number) : number := SFmul prec emax x y.
Definition sub (x y : number) : number := SFsub prec emax x y.

(** Relational operators; every comparison with NaN is false. *)
Definition num_lt (x y : number) : bool := SFltb x y.
Definition num_le (x y : number) : bool := SFleb x y.
Definition num_gt (x y : number) : bool := SFltb y x.
Definition num_ge (x y : number) : bool := SFleb y x.
Definition num_eq (x y : number) : bool := SFeqb x y.

Definition is_nan (x : number) : bool :=
  match x with S754_nan => true | _ => false end.

Definition is_finite (x : number) : bool :=
  match x with S754_zero _ | S754_finite _ _ _ => true | _ => false end.

(** [ties_up s m e] is the integer nearest to [(-1)^s * m * 2^e], the
    larger one when two are equally near: floor (x + 1/2). *)
Definition ties_up (s : bool) (m : positive) (e : Z) : Z :=
  let z := if s then Z.neg m else Z.pos m in
  match e with
  | Z.neg p => (2 * z + 2 ^ Z.pos p) / (2 * 2 ^ Z.pos p)
  | _ => z * 2 ^ e
  end.

(** [Math.round]: NaN, the infinities and the zeros are returned as
    they are, and so is a value that is already integral; a negative
    value that rounds to zero gives -0. *)
Definition Math_round (x : number) : number :=
  match x with
  | S754_finite s m (Z.neg p) =>
      match ties_up s m (Z.neg p) with
      | Z0 => S754_zero s
      | k => of_Z k
      end
  | _ => x
  end.

(** The values a task field or a partial update holds. *)
Inductive value : Type :=
| VUndefined
| VNull
| VBool (b : bool)
| VNum (x : number)
| VStr (s : string).

(** ToBoolean. *)
Definition truthy (v : value) : bool :=
  match v with
  | VUndefined | VNull => false
  | VBool b => b
  | VNum (S754_zero _) | VNum S754_nan => false
  | VNum _ => true
  | VStr s => negb (String.eqb s "")
  end.

(** [===] *)
Definition strict_eq (v w : value) : bool :=
  match v, w with
  | VUndefined, VUndefined => true
  | VNull, VNull => true
  | VBool a, VBool b => Bool.eqb a b
  | VNum x, VNum y => num_eq x y
  | VStr s, VStr t => String.eqb s t
  | _, _ => false
  end.

(** An object is the finite map of its own enumerable properties. *)
Abbreviation object := (gmap string value).

(** [o.k]: a missing property reads as [undefined]. *)
Definition get (o : object) (k : string) : value := default VUndefined (o !! k).

(** [{...o, ...u}]: the properties of [u] win. *)
Definition spread (o u : object) : object := u ∪ o.

End JS.

Import JS.

Abbreviation Task := (gmap string value).

(** ** Completions: a value returned or an exception thrown *)

Inductive error : Type := TypeError | SyntaxError | StorageError.

Inductive completion (A : Type) : Type :=
| Normal (a : A)
| Throw (e : error).
Arguments Normal {A} a.
Arguments Throw {A} e.

#[global] Instance completion_ret : MRet completion := @Normal.

#[global] Instance completion_bind : MBind completion :=
  fun A B k c =>
    match c with
    | Normal a => k a
    | Throw e => Throw e
    end.

(** ** Built-in string functions *)

(** *** [toLowerCase] *)

(** A string is held as its UTF-8 bytes.  Of the letters of the words
    compared below only the ASCII capitals lower-case to them, and the
    bytes of a longer UTF-8 sequence are never ASCII, so lower-casing the
    ASCII capitals decides those comparisons as the full Unicode mapping
    does. *)
Definition lower_ascii (c : ascii) : ascii :=
  let n := nat_of_ascii c in
  if andb (Nat.leb 65 n) (Nat.leb n 90) then ascii_of_nat (n + 32) else c.

Fixpoint toLowerCase (s : string) : string :=
  match s with
  | EmptyString => EmptyString
  | String c s' => String (lower_ascii c) (toLowerCase s')
  end.

(** *** [trim], [Number], [parseFloat] *)

Definition bytes (l : list nat) : string :=
  fold_right (fun n s => String (ascii_of_nat n) s) EmptyString l.

(** The white space and line terminator code points, in UTF-8: TAB, LF,
    VT, FF, CR, SP, U+00A0, U+1680, U+2000 to U+200A, U+2028, U+2029,
    U+202F, U+205F, U+3000, U+FEFF. *)
Definition StrWhiteSpaceChar : list string :=
  map bytes
    [ [9]; [10]; [11]; [12]; [13]; [32]; [194; 160]; [225; 154; 128];
      [226; 128; 128]; [226; 128; 129]; [226; 128; 130]; [226; 128; 131];
      [226; 128; 132]; [226; 128; 133]; [226; 128; 134]; [226; 128; 135];
      [226; 128; 136]; [226; 128; 137]; [226; 128; 138];
      [226; 128; 168]; [226; 128; 169]; [226; 128; 175]; [226; 129; 159];
      [227; 128; 128]; [239; 187; 191] ]%nat.

(** [strip_prefix p s] is what follows [p] in [s], when [s] starts with [p]. *)
Fixpoint strip_prefix (p s : string) : option string :=
  match p, s with
  | EmptyString, _ => Some s
  | String a p', String b s' => if Ascii.eqb a b then strip_prefix p' s' else None
  | String _ _, EmptyString => None
  end.

Fixpoint strip_any (ps : list string) (s : string) : option string :=
  match ps with
  | [] => None
  | p :: ps' =>
      match strip_prefix p s with
      | Some r => Some r
      | None => strip_any ps' s
      end
  end.

Fixpoint strip_all (fuel : nat) (ps : list string) (s : string) : string :=
  match fuel with
  | O => s
  | S fuel' =>
      match strip_any ps s with
      | Some r => strip_all fuel' ps r
      | None => s
      end
  end.

Fixpoint string_rev (s : string) : string :=
  match s with
  | EmptyString => EmptyString
  | String c s' => string_rev s' ++ String c EmptyString
  end.

Definition trimStart (s : string) : string :=
  strip_all (String.length s) StrWhiteSpaceChar s.

Definition trimEnd (s : string) : string :=
  string_rev (strip_all (String.length s) (map string_rev StrWhiteSpaceChar) (string_rev s)).

Definition trim (s : string) : string := trimEnd (trimStart s).

(** [!s]: the empty string is the one falsy string. *)
Definition is_empty (s : string) : bool := String.eqb s "".

Definition digit_of (base : Z) (c : ascii) : option Z :=
  let n := Z.of_nat (nat_of_ascii c) in
  let d := if (48 <=? n) && (n <=? 57) then n - 48
           else if (97 <=? n) && (n <=? 102) then n - 87
           else if (65 <=? n) && (n <=? 70) then n - 55
           else base in
  if d <? base then Some d else None.

(** The longest run of digits at the head of [s]: its value on top of
    [acc], its length on top of [count], and what follows it. *)
Fixpoint digits (base : Z) (s : string) (acc count : Z) : Z * Z * string :=
  match s with
  | EmptyString => (acc, count, s)
  | String c s' =>
      match digit_of base c with
      | Some d => digits base s' (base * acc + d) (count + 1)
      | None => (acc, count, s)
      end
  end.

(** The Number nearest to [(-1)^neg * m * 10^e]. *)
Definition decimal_to_number (neg : bool) (m e : Z) : number :=
  match m with
  | Z.pos p =>
      match e with
      | Z.neg k => div (S754_finite neg p 0) (S754_finite false (10 ^ k)%positive 0)
      | _ => binary_normalize prec emax ((if neg then - m else m) * 10 ^ e) 0 false
      end
  | _ => S754_zero neg
  end.

(** [ExponentPart], when one is complete at the head of [s]. *)
Definition exponent_part (s : string) : option (Z * string) :=
  match s with
  | String c r =>
      if Ascii.eqb c "e" || Ascii.eqb c "E" then
        let '(neg, r') :=
          match r with
          | String d r' =>
              if Ascii.eqb d "-" then (true, r')
              else if Ascii.eqb d "+" then (false, r')
              else (false, r)
          | EmptyString => (false, r)
          end in
        let '(v, n, rest) := digits 10 r' 0 0 in
        if n =? 0 then None else Some (if neg then - v else v, rest)
      else None
  | EmptyString => None
  end.

(** The longest prefix of [s] that is a [StrUnsignedDecimalLiteral]:
    its value and what follows it. *)
Definition unsigned_decimal (neg : bool) (s : string) : option (number * string) :=
  match strip_prefix "Infinity" s with
  | Some rest => Some (S754_infinity neg, rest)
  | None =>
      let '(ip, ic, r1) := digits 10 s 0 0 in
      let '(m, fc, r2) :=
        match r1 with
        | String c r =>
            if Ascii.eqb c "." then
              let '(m, fc, r') := digits 10 r ip 0 in
              if (ic =? 0) && (fc =? 0) then (ip, 0, r1) else (m, fc, r')
            else (ip, 0, r1)
        | EmptyString => (ip, 0, r1)
        end in
      if (ic =? 0) && (fc =? 0) then None
      else
        match exponent_part r2 with
        | Some (x, rest) => Some (decimal_to_number neg m (x - fc), rest)
        | None => Some (decimal_to_number neg m (- fc), r2)
        end
  end.

(** The longest prefix that is a [StrDecimalLiteral]. *)
Definition decimal_literal (s : string) : option (number * string) :=
  match s with
  | String c r =>
      if Ascii.eqb c "-" then unsigned_decimal true r
      else if Ascii.eqb c "+" then unsigned_decimal false r
      else unsigned_decimal false s
  | EmptyString => None
  end.

(** A [NonDecimalIntegerLiteral]: [0x], [0o] or [0b] and its digits. *)
Definition non_decimal_literal (s : string) : option (number * string) :=
  match s with
  | String z (String c r) =>
      let base :=
        if Ascii.eqb c "x" || Ascii.eqb c "X" then 16
        else if Ascii.eqb c "o" || Ascii.eqb c "O" then 8
        else if Ascii.eqb c "b" || Ascii.eqb c "B" then 2
        else 0 in
      if Ascii.eqb z "0" && (0 <? base) then
        let '(v, n, rest) := digits base r 0 0 in
        if n =? 0 then None else Some (of_Z v, rest)
      else None
  | _ => None
  end.

(** [Number(s)], the conversion [isNaN] applies to a string: white
    space alone is 0; otherwise the whole of [s] between leading and
    trailing white space has to be one numeric literal. *)
Definition Number (s : string) : number :=
  let t := trimStart s in
  if is_empty t then S754_zero false
  else
    let whole r v := if is_empty (trimStart (snd r)) then v else NaN in
    match non_decimal_literal t with
    | Some r => whole r (fst r)
    | None =>
        match decimal_literal t with
        | Some r => whole r (fst r)
        | None => NaN
        end
    end.

Definition isNaN (s : string) : bool := is_nan (Number s).

(** [parseFloat(s)]: the longest decimal literal after leading white
    space, whatever follows it. *)
Definition parseFloat (s : string) : number :=
  match decimal_literal (trimStart s) with
  | Some r => fst r
  | None => NaN
  end.

(** ** helpers.js *)

(** [tasks.filter(task => task.completed)] *)
Definition completed_of (tasks : list Task) : list Task :=
  List.filter (fun task => truthy (get task "completed")) tasks.

(** [calculateProgress]; [None] is a [tasks] argument that is [null] or
    [undefined]. *)
Definition calculateProgress (tasks : option (list Task)) : number :=
  match tasks with
  | None => of_Z 0
  | Some tasks =>
      if Nat.eqb (length tasks) 0 then of_Z 0
      else
        let completedTasks := length (completed_of tasks) in
        Math_round
          (mul (div (of_Z (Z.of_nat completedTasks)) (of_Z (Z.of_nat (length tasks))))
               (of_Z 100))
  end.

(** [getPriorityColor]: a [switch] on the lower-cased name, compared
    with [===]; anything else takes the [default] branch. *)
Definition getPriorityColor (priority : value) : completion string :=
  match priority with
  | VUndefined | VNull => Normal "#747D8C"
  | VStr s =>
      let name := toLowerCase s in
      Normal (if String.eqb name "high" then "#FF4757"
              else if String.eqb name "medium" then "#FFA502"
              else if String.eqb name "low" then "#2ED573"
              else "#747D8C")
  | VBool _ | VNum _ => Throw TypeError
  end.

(** *** [sortByPriority] *)

(** What reading a property of the object literal
    [{ 'high': 1, 'medium': 2, 'low': 3 }] gives: the number of an own
    property, a member inherited from [Object.prototype] (a function or
    an object), or [undefined]. *)
Inductive looked_up : Type :=
| Own (n : Z)
| Inherited
| Absent.

(** The members of [Object.prototype] whose names survive [toLowerCase]. *)
Definition Object_prototype_lowercase : list string :=
  [ "constructor"; "__proto__" ].

Definition priorityOrder (key : string) : looked_up :=
  if String.eqb key "high" then Own 1
  else if String.eqb key "medium" then Own 2
  else if String.eqb key "low" then Own 3
  else if existsb (String.eqb key) Object_prototype_lowercase then Inherited
  else Absent.

(** [p?.toLowerCase()] as a property key: [undefined] and [null] skip
    the call and give the key ["undefined"]; a string is lower-cased; no
    other value has a [toLowerCase] method, so the call throws. *)
Definition priority_key (p : value) : completion string :=
  match p with
  | VUndefined | VNull => Normal "undefined"
  | VStr s => Normal (toLowerCase s)
  | VBool _ | VNum _ => Throw TypeError
  end.

(** [priorityOrder[a.priority?.toLowerCase()] || 4]: the own numbers are
    truthy and so is an inherited member; [None] is that member. *)
Definition priority_of (a : Task) : completion (option Z) :=
  key ← priority_key (get a "priority");
  Normal match priorityOrder key with
         | Own n => Some n
         | Inherited => None
         | Absent => Some 4
         end.

(** The comparison function [(a, b) => priorityA - priorityB]; an
    operand that is not a number converts to NaN. *)
Definition by_priority (a b : Task) : completion number :=
  priorityA ← priority_of a;
  priorityB ← priority_of b;
  Normal match priorityA, priorityB with
         | Some x, Some y => sub (of_Z x) (of_Z y)
         | _, _ => NaN
         end.

Section ArraySort.
Context {A : Type}.
Variable comparefn : A -> A -> completion number.

(** [Array.prototype.sort] is a stable sort; it is modelled by
    insertion from the right.  [x] goes past [y] exactly when
    [comparefn(x, y) > 0]; a NaN result counts as 0.  With a comparison
    function that orders the elements consistently every stable sort
    returns this array; with one that does not, the engine is free in
    the order it returns and the model fixes this one. *)
Fixpoint sort_insert (x : A) (sorted : list A) : completion (list A) :=
  match sorted with
  | [] => Normal [x]
  | y :: rest =>
      v ← comparefn x y;
      if num_gt v (of_Z 0)
      then rest' ← sort_insert x rest; Normal (y :: rest')
      else Normal (x :: sorted)
  end.

Fixpoint Array_sort (items : list A) : completion (list A) :=
  match items with
  | [] => Normal []
  | x :: rest => sorted ← Array_sort rest; sort_insert x sorted
  end.
End ArraySort.

(** Arrays are objects with identity: the heap maps an address to the
    elements of the array that lives there. *)
Abbreviation heap := (gmap nat (list Task)).

Definition alloc (h : heap) (items : list Task) : nat * heap :=
  let l := fresh (dom h) in (l, <[l := items]> h).

(** [[...tasks].sort(...)]: the spread copies [tasks] into a new array,
    which [sort] then orders in place and returns.  When the comparison
    function throws, the copy is left as it was. *)
Definition sortByPriority (tasks : nat) (h : heap) : completion nat * heap :=
  match h !! tasks with
  | None => (Throw TypeError, h)
  | Some items =>
      let '(copy, h1) := alloc h items in
      match Array_sort by_priority items with
      | Normal sorted => (Normal copy, <[copy := sorted]> h1)
      | Throw e => (Throw e, h1)
      end
  end.

(** ** storage.js *)

(** *** JSON *)

(** The values of a JSON text.  A number token is held as the binary64
    value it denotes: [JSON.stringify] writes the shortest decimal that
    reads back as the same Number, and it never writes a negative zero,
    an infinity or NaN. *)
Inductive json : Type :=
| JNull
| JBool (b : bool)
| JZero
| JNumber (s : bool) (m : positive) (e : Z)
| JString (s : string).

(** What the storage key can hold: the text [JSON.stringify] gives for an
    array of task objects, or a string that is no JSON text at all.  The
    key is written by [saveTasks] alone, and always with such an array. *)
Inductive text : Type :=
| Corrupt
| Emitted (elements : list (gmap string json)).

(** A property whose value is [undefined] is left out; NaN and the
    infinities are written as [null]; both zeros are written as [0]. *)
Definition stringify_value (v : value) : option json :=
  match v with
  | VUndefined => None
  | VNull => Some JNull
  | VBool b => Some (JBool b)
  | VNum (S754_zero _) => Some JZero
  | VNum (S754_finite s m e) => Some (JNumber s m e)
  | VNum _ => Some JNull
  | VStr s => Some (JString s)
  end.

Definition parse_value (j : json) : value :=
  match j with
  | JNull => VNull
  | JBool b => VBool b
  | JZero => VNum (S754_zero false)
  | JNumber s m e => VNum (S754_finite s m e)
  | JString s => VStr s
  end.

Definition JSON_stringify (tasks : list Task) : text :=
  Emitted (map (omap stringify_value) tasks).

Definition JSON_parse (t : text) : completion (list Task) :=
  match t with
  | Corrupt => Throw SyntaxError
  | Emitted elements => Normal (map (fmap parse_value) elements)
  end.

(** *** AsyncStorage *)

(** The key-value store of the device.  A call is rejected when the
    store is unavailable for it; the three flags say for which calls
    that is the case at present. *)
Record AsyncStorage : Type := {
  items : gmap string text;
  getItem_fails : bool;
  setItem_fails : bool;
  removeItem_fails : bool
}.

(** An [async] function, run to completion against the store.  The
    [console.error] calls of the [catch] blocks only log and are left
    out. *)
Definition async (A : Type) : Type := AsyncStorage -> completion A * AsyncStorage.

#[global] Instance async_ret : MRet async := fun A a st => (Normal a, st).

#[global] Instance async_bind : MBind async :=
  fun A B k c st =>
    match c st with
    | (Normal a, st') => k a st'
    | (Throw e, st') => (Throw e, st')
    end.

(** [try { body } catch (error) { handler }] *)
Definition try_catch {A} (body : async A) (handler : error -> async A) : async A :=
  fun st =>
    match body st with
    | (Normal a, st') => (Normal a, st')
    | (Throw e, st') => handler e st'
    end.

Definition lift {A} (c : completion A) : async A := fun st => (c, st).

Definition AsyncStorage_getItem (key : string) : async (option text) :=
  fun st =>
    if getItem_fails st then (Throw StorageError, st)
    else (Normal (items st !! key), st).

Definition AsyncStorage_setItem (key : string) (v : text) : async unit :=
  fun st =>
    if setItem_fails st then (Throw StorageError, st)
    else (Normal tt,
          {| items := <[key := v]> (items st);
             getItem_fails := getItem_fails st;
             setItem_fails := setItem_fails st;
             removeItem_fails := removeItem_fails st |}).

Definition AsyncStorage_removeItem (key : string) : async unit :=
  fun st =>
    if removeItem_fails st then (Throw StorageError, st)
    else (Normal tt,
          {| items := delete key (items st);
             getItem_fails := getItem_fails st;
             setItem_fails := setItem_fails st;
             removeItem_fails := removeItem_fails st |}).

Definition TASKS_STORAGE_KEY : string := "@smart_study_planner_tasks".

Definition saveTasks (tasks : list Task) : async bool :=
  try_catch
    (let jsonValue := JSON_stringify tasks in
     _ ← AsyncStorage_setItem TASKS_STORAGE_KEY jsonValue;
     mret true)
    (fun _ => mret false).

Definition getTasks : async (list Task) :=
  try_catch
    (jsonValue ← AsyncStorage_getItem TASKS_STORAGE_KEY;
     match jsonValue with
     | Some t => lift (JSON_parse t)
     | None => mret []
     end)
    (fun _ => mret []).

Definition updateTask (taskId : value) (updates : object) : async bool :=
  try_catch
    (tasks ← getTasks;
     let updatedTasks :=
       map (fun task =>
              if strict_eq (get task "id") taskId then spread task updates else task)
           tasks in
     saveTasks updatedTasks)
    (fun _ => mret false).

Definition addTask (newTask : Task) : async bool :=
  try_catch
    (tasks ← getTasks;
     let updatedTasks := (tasks ++ [newTask])%list in
     saveTasks updatedTasks)
    (fun _ => mret false).

Definition deleteTask (taskId : value) : async bool :=
  try_catch
    (tasks ← getTasks;
     let filteredTasks :=
       List.filter (fun task => negb (strict_eq (get task "id") taskId)) tasks in
     saveTasks filteredTasks)
    (fun _ => mret false).

Definition clearAllTasks : async bool :=
  try_catch
    (_ ← AsyncStorage_removeItem TASKS_STORAGE_KEY;
     mret true)
    (fun _ => mret false).

(** ** AddTaskScreen.js: validation *)

(** *** Dates *)

(** A [Date] is its time value, in milliseconds since the epoch.  The
    local time zone is the platform's, and its offset from UTC changes
    when the clocks do: [LocalTZA c t true] is the offset, in
    milliseconds, in force at the time value [t], and
    [LocalTZA c t false] the offset to read the local time [t] with,
    which for a local time that a change of the clocks skips or
    repeats is the offset in force before the change. *)
Record clock : Type := { now : Z; LocalTZA : Z -> bool -> Z }.

Definition msPerDay : Z := 86400000.

(** LocalTime(t): the local time value. *)
Definition local_time (c : clock) (t : Z) : Z := t + LocalTZA c t true.

(** UTC(t): the time value of the local time [t]. *)
Definition UTC (c : clock) (t : Z) : Z := t - LocalTZA c t false.

(** Day(LocalTime(t)): the local calendar day a time value falls on. *)
Definition local_day (c : clock) (t : Z) : Z := local_time c t / msPerDay.

(** [d.setHours(0, 0, 0, 0)]: the date is set to
    UTC(MakeDate(Day(LocalTime(t)), 0)), the time value of the midnight
    of its local day. *)
Definition setHours_0 (c : clock) (t : Z) : Z := UTC c (local_day c t * msPerDay).

(** *** [validateForm] *)

Record form : Type := {
  subject : string;
  topic : string;
  studyTime : string;
  deadline : Z;
  priority : string
}.

(** The error object handed to [setErrors], and the boolean returned. *)
Definition validateForm (c : clock) (f : form) : gmap string string * bool :=
  let newErrors : gmap string string := ∅ in
  let newErrors :=
    if is_empty (trim (subject f))
    then <["subject" := "Subject name is required"]> newErrors
    else newErrors in
  let newErrors :=
    if is_empty (trim (topic f))
    then <["topic" := "Topic name is required"]> newErrors
    else newErrors in
  let newErrors :=
    if is_empty (trim (studyTime f))
    then <["studyTime" := "Study time is required"]> newErrors
    else if isNaN (studyTime f) || num_le (parseFloat (studyTime f)) (of_Z 0)
    then <["studyTime" := "Please enter a valid positive number"]> newErrors
    else newErrors in
  let today := setHours_0 c (now c) in
  let newErrors :=
    if deadline f <? today
    then <["deadline" := "Deadline must be today or a future date"]> newErrors
    else newErrors in
  (newErrors, Nat.eqb (size newErrors) 0).

(** The task object [handleSubmit] builds once the form has passed:
    [id] is what [generateId()] returned, [deadlineISO] and [createdAt]
    what [toISOString()] returned for the deadline and for the moment
    of submission. *)
Definition newTask (id deadlineISO createdAt : string) (f : form) : Task :=
  {[ "id" := VStr id;
     "subject" := VStr (trim (subject f));
     "topic" := VStr (trim (topic f));
     "studyTime" := VNum (parseFloat (studyTime f));
     "deadline" := VStr deadlineISO;
     "priority" := VStr (priority f);
     "completed" := VBool false;
     "createdAt" := VStr createdAt ]}.

(** ** ProgressScreen.js *)

(** The [emoji] strings are the characters the source file holds. *)
Record motivation : Type := { emoji : string; message : string }.

Definition getMotivationalMessage (progress : number) : motivation :=
  if num_eq progress (of_Z 100) then
    {| emoji := "ðŸ†"; message := "Perfect! You've completed all tasks!" |}
  else if num_ge progress (of_Z 75) then
    {| emoji := "ðŸ”¥"; message := "Almost there! Keep pushing!" |}
  else if num_ge progress (of_Z 50) then
    {| emoji := "ðŸ’ª"; message := "Great progress! Stay focused!" |}
  else if num_ge progress (of_Z 25) then
    {| emoji := "ðŸ“ˆ"; message := "Good start! Keep going!" |}
  else if num_gt progress (of_Z 0) then
    {| emoji := "ðŸš€"; message := "You've started! Let's build momentum!" |}
  else
    {| emoji := "ðŸ“‹"; message := "Add tasks to start tracking progress!" |}.

(** ** Definitions the statements use *)

(** *** Numbers *)

(** The real number a positive finite Number denotes. *)
Definition F2R (m : positive) (e : Z) : R := (IZR (Z.pos m) * powerRZ 2 e)%R.

(** The specification's formula [round(100 * completedCount /
    totalCount)], the quotient taken exactly and a half rounded upward
    as [Math.round] does. *)
Definition spec_progressPercent (completedCount totalCount : Z) : Z :=
  (2 * (100 * completedCount) + totalCount) / (2 * totalCount).

(** The same with a half rounded to the even neighbour. *)
Definition spec_progressPercent_even (completedCount totalCount : Z) : Z :=
  let q := (100 * completedCount) / totalCount in
  let r := (100 * completedCount) mod totalCount in
  match 2 * r ?= totalCount with
  | Lt => q
  | Gt => q + 1
  | Eq => if Z.even q then q else q + 1
  end.

Definition done_task : Task := {[ "completed" := VBool true ]}.
Definition open_task : Task := {[ "completed" := VBool false ]}.

(** [done] completed tasks followed by [open] pending ones. *)
Definition progress_sample (done open : nat) : list Task :=
  (repeat done_task done ++ repeat open_task open)%list.

(** *** Priorities *)

(** The rank the specification gives a task: High 1, Medium 2, Low 3,
    anything else 4, whatever the capitalisation. *)
Definition rank_of_name (name : string) : Z :=
  if String.eqb name "high" then 1
  else if String.eqb name "medium" then 2
  else if String.eqb name "low" then 3
  else 4.

Definition spec_rank (task : Task) : Z :=
  match get task "priority" with
  | VStr s => rank_of_name (toLowerCase s)
  | _ => 4
  end.

(** The priority is a string, or it is missing or [null]. *)
Definition priority_is_text (task : Task) : Prop :=
  match get task "priority" with
  | VUndefined | VNull | VStr _ => True
  | VBool _ | VNum _ => False
  end.

(** The lower-cased priority does not name a member the lookup table
    inherits from [Object.prototype]. *)
Definition own_or_absent (task : Task) : Prop :=
  match get task "priority" with
  | VStr s => existsb (String.eqb (toLowerCase s)) Object_prototype_lowercase = false
  | _ => True
  end.

(** Insertion from the right with a comparison that cannot throw. *)
Fixpoint insert {A} (goes_after : A -> A -> bool) (x : A) (sorted : list A) : list A :=
  match sorted with
  | [] => [x]
  | y :: rest =>
      if goes_after x y then y :: insert goes_after x rest else x :: sorted
  end.

Fixpoint isort {A} (goes_after : A -> A -> bool) (items : list A) : list A :=
  match items with
  | [] => []
  | x :: rest => insert goes_after x (isort goes_after rest)
  end.

(** The result of a completion, [d] when it threw. *)
Definition result_or {A} (d : A) (c : completion A) : A :=
  match c with
  | Normal a => a
  | Throw _ => d
  end.

Definition prioritised (id priority : string) : Task :=
  {[ "id" := VStr id; "priority" := VStr priority ]}.

(** *** The store *)

(** The values [JSON.stringify] writes in a way [JSON.parse] reads back
    unchanged: everything but [undefined], NaN, the infinities and -0. *)
Definition representable (v : value) : bool :=
  match v with
  | VUndefined => false
  | VNum (S754_zero s) => negb s
  | VNum (S754_finite _ _ _) => true
  | VNum _ => false
  | _ => true
  end.

Definition JSON_safe (task : Task) : Prop :=
  map_Forall (fun _ v => representable v = true) task.

#[global] Instance JSON_safe_dec (task : Task) : Decision (JSON_safe task).
Proof. unfold JSON_safe. apply _. Defined.

(** No flag of the store is raised for reading or writing. *)
Definition available (st : AsyncStorage) : Prop :=
  getItem_fails st = false /\ setItem_fails st = false.

(** The store after a write of [tasks] has gone through. *)
Definition written (tasks : list Task) (st : AsyncStorage) : AsyncStorage :=
  {| items := <[TASKS_STORAGE_KEY := JSON_stringify tasks]> (items st);
     getItem_fails := getItem_fails st;
     setItem_fails := setItem_fails st;
     removeItem_fails := removeItem_fails st |}.

Definition sample_task (id : string) (completed : bool) : Task :=
  {[ "id" := VStr id;
     "subject" := VStr "Math";
     "topic" := VStr "Algebra";
     "studyTime" := VNum (of_Z 2);
     "deadline" := VStr "2026-01-15T10:00:00.000Z";
     "priority" := VStr "High";
     "completed" := VBool completed;
     "createdAt" := VStr "2026-01-14T09:30:00.000Z" ]}.

Definition working : AsyncStorage :=
  {| items := ∅; getItem_fails := false; setItem_fails := false;
     removeItem_fails := false |}.

(** *** Messages *)

(** The six rungs of the message ladder. *)
Definition perfect : motivation :=
  {| emoji := "ðŸ†"; message := "Perfect! You've completed all tasks!" |}.
Definition almost_there : motivation :=
  {| emoji := "ðŸ”¥"; message := "Almost there! Keep pushing!" |}.
Definition great_progress : motivation :=
  {| emoji := "ðŸ’ª"; message := "Great progress! Stay focused!" |}.
Definition good_start : motivation :=
  {| emoji := "ðŸ“ˆ"; message := "Good start! Keep going!" |}.
Definition started : motivation :=
  {| emoji := "ðŸš€"; message := "You've started! Let's build momentum!" |}.
Definition nothing_yet : motivation :=
  {| emoji := "ðŸ“‹"; message := "Add tasks to start tracking progress!" |}.

(** The ladder over an integer percentage, as the specification words
    it: 100, at least 75, at least 50, at least 25, above 0, else. *)
Definition ladder (percent : Z) : motivation :=
  if percent =? 100 then perfect
  else if 75 <=? percent then almost_there
  else if 50 <=? percent then great_progress
  else if 25 <=? percent then good_start
  else if 0 <? percent then started
  else nothing_yet.

(** *** Validation *)

(** The error object [validateForm] builds, as a function of the five
    tests it makes. *)
Definition errors_of (b1 b2 b3 b4 b5 : bool) : gmap string string :=
  let newErrors : gmap string string := ∅ in
  let newErrors :=
    if b1 then <["subject" := "Subject name is required"]> newErrors else newErrors in
  let newErrors :=
    if b2 then <["topic" := "Topic name is required"]> newErrors else newErrors in
  let newErrors :=
    if b3 then <["studyTime" := "Study time is required"]> newErrors
    else if b4 then <["studyTime" := "Please enter a valid positive number"]> newErrors
    else newErrors in
  if b5 then <["deadline" := "Deadline must be today or a future date"]> newErrors
  else newErrors.

(** A form whose only doubtful field is the study time, and the clock
    it is validated against: one second into a day, UTC. *)
Definition form_with_studyTime (s : string) : form :=
  {| subject := "Math"; topic := "Algebra"; studyTime := s;
     deadline := 86400000 * 20000 + 5000; priority := "Medium" |}.

Definition at_day_20000 : clock :=
  {| now := 86400000 * 20000 + 1000; LocalTZA := fun _ _ => 0 |}.

(** The days of a zone begin at their midnights: the time value [UTC]
    gives for the midnight of a day is the first one whose local day
    is that day or a later one.  It is so where no change of the
    clocks sets them back across a midnight. *)
Definition day_begins_at_midnight (c : clock) : Prop :=
  forall day t, UTC c (day * msPerDay) <= t <-> day <= local_day c t.

(** New York around the end of daylight saving time in 2024: four
    hours behind UTC until 2024-11-03T06:00Z, five from then on.  That
    night the local hour from 01:00 to 02:00 comes twice, and is read
    with the offset before the change. *)
Definition new_york (t : Z) (isUTC : bool) : Z :=
  if isUTC
  then if t <? 86400000 * 20030 + 6 * 3600000 then -4 * 3600000 else -5 * 3600000
  else if t <? 86400000 * 20030 + 2 * 3600000 then -4 * 3600000 else -5 * 3600000.

(** Noon there on that 3 November, 17:00Z. *)
Definition new_york_noon : clock :=
  {| now := 86400000 * 20030 + 17 * 3600000; LocalTZA := new_york |}.

(** A form whose only doubtful field is the deadline. *)
Definition form_with_deadline (t : Z) : form :=
  {| subject := "Math"; topic := "Algebra"; studyTime := "2";
     deadline := t; priority := "Medium" |}.

(** [n] times the digit 9. *)
Fixpoint nines (n : nat) : string :=
  match n with
  | O => EmptyString
  | S n' => String "9" (nines n')
  end.

(** ** Further functions of the sources *)

(** *** helpers.js *)

Definition msPerHour : Z := 3600000.

(** [d.getHours()] *)
Definition getHours (c : clock) (t : Z) : Z := (local_time c t / msPerHour) mod 24.

Definition getGreeting (c : clock) : string :=
  let hour := getHours c (now c) in
  if hour <? 12 then "Good Morning"
  else if hour <? 17 then "Good Afternoon"
  else "Good Evening".

(** [getTodaysTasks]; [None] is a [tasks] argument that is [null] or
    [undefined].  [new Date(v)] is the platform's: [Date v] is the time
    value of the date it constructs from [v], [None] for an Invalid
    Date, whose [setHours] and [getTime] give NaN, equal to nothing. *)
Definition getTodaysTasks (Date : value -> option Z) (c : clock)
    (tasks : option (list Task)) : list Task :=
  match tasks with
  | None => []
  | Some tasks =>
      if Nat.eqb (length tasks) 0 then []
      else
        let today := setHours_0 c (now c) in
        List.filter
          (fun task =>
             match Date (get task "deadline") with
             | Some deadline => setHours_0 c deadline =? today
             | None => false
             end)
          tasks
  end.

(** *** [generateId] *)

(** The digit [Number.prototype.toString(36)] writes for [d]: 0 to 9,
    then a to z. *)
Definition digit36 (d : Z) : ascii :=
  ascii_of_N (Z.to_N (if d <? 10 then 48 + d else 87 + d)).

Fixpoint toString36_digits (fuel : nat) (n : Z) (acc : string) : string :=
  match fuel with
  | O => acc
  | S fuel' =>
      let acc := String (digit36 (n mod 36)) acc in
      if n <? 36 then acc else toString36_digits fuel' (n / 36) acc
  end.

(** [n.toString(36)] for an integer [n]. *)
Definition toString36 (n : Z) : string :=
  if n <? 0
  then String "-" (toString36_digits (S (Z.to_nat (Z.log2 (- n)))) (- n) "")
  else toString36_digits (S (Z.to_nat (Z.log2 n))) n "".

(** [s.substr(start)] *)
Fixpoint substr (start : nat) (s : string) : string :=
  match start, s with
  | S start', String _ rest => substr start' rest
  | _, _ => s
  end.

(** [generateId] at a moment when [Date.now()] is [now c] and
    [Math.random().toString(36)] gives [random36], a text of the form
    0.xxx, or 0 alone. *)
Definition generateId (c : clock) (random36 : string) : string :=
  toString36 (now c) ++ substr 2 random36.

(** *** [isValidEmail] *)

(** What a regular expression without the [u] flag steps over: a code
    unit.  Here a unit is a white-space character, which [\s] matches,
    or one byte of anything else: a character outside ASCII that is not
    white space is several bytes, and a class that excludes only white
    space and ASCII characters matches each of them, as it matches each
    code unit of that character. *)
Inductive code_unit : Type :=
| WhiteSpace
| Other (a : ascii).

Fixpoint code_units_from (fuel : nat) (s : string) : list code_unit :=
  match fuel with
  | O => []
  | S fuel' =>
      match strip_any StrWhiteSpaceChar s with
      | Some rest => WhiteSpace :: code_units_from fuel' rest
      | None =>
          match s with
          | EmptyString => []
          | String a rest => Other a :: code_units_from fuel' rest
          end
      end
  end.

Definition code_units (s : string) : list code_unit :=
  code_units_from (String.length s) s.

(** Regular expressions: a class of units, sequence, alternative and
    repetition. *)
Inductive regex : Type :=
| Nothing
| Empty
| Class (p : code_unit -> bool)
| Seq (r1 r2 : regex)
| Alt (r1 r2 : regex)
| Star (r : regex).

(** [r+] *)
Definition Plus (r : regex) : regex := Seq r (Star r).

Fixpoint nullable (r : regex) : bool :=
  match r with
  | Nothing => false
  | Empty => true
  | Class _ => false
  | Seq r1 r2 => nullable r1 && nullable r2
  | Alt r1 r2 => nullable r1 || nullable r2
  | Star _ => true
  end.

(** What is left of [r] to match once [u] has been read. *)
Fixpoint derivative (u : code_unit) (r : regex) : regex :=
  match r with
  | Nothing | Empty => Nothing
  | Class p => if p u then Empty else Nothing
  | Seq r1 r2 =>
      if nullable r1
      then Alt (Seq (derivative u r1) r2) (derivative u r2)
      else Seq (derivative u r1) r2
  | Alt r1 r2 => Alt (derivative u r1) (derivative u r2)
  | Star r1 => Seq (derivative u r1) (Star r1)
  end.

(** [/^r$/.test(s)] *)
Definition test (r : regex) (s : list code_unit) : bool :=
  nullable (fold_left (fun r u => derivative u r) s r).

(** [[^\s@]] *)
Definition not_space_at (u : code_unit) : bool :=
  match u with
  | WhiteSpace => false
  | Other a => negb (Ascii.eqb a "@")
  end.

Definition is_char (c : ascii) (u : code_unit) : bool :=
  match u with
  | WhiteSpace => false
  | Other a => Ascii.eqb a c
  end.

(** [/^[^\s@]+@[^\s@]+\.[^\s@]+$/] *)
Definition emailRegex : regex :=
  Seq (Plus (Class not_space_at))
    (Seq (Class (is_char "@"))
       (Seq (Plus (Class not_space_at))
          (Seq (Class (is_char "."))
             (Plus (Class not_space_at))))).

Definition isValidEmail (email : string) : bool := test emailRegex (code_units email).

(** The elements of the array [sortByPriority] returns for an array
    that holds [items]. *)
Definition sorted_by_priority (items : list Task) : completion (list Task) :=
  Array_sort by_priority items.

(** *** Addition *)

Definition add (x y : number) : number := SFadd prec emax x y.

(** *** ProgressBar.js *)

(** [Math.max] and [Math.min] of two Numbers: NaN when either is NaN,
    and +0 counts as larger than -0. *)
Definition Math_max (x y : number) : number :=
  if is_nan x || is_nan y then NaN
  else if num_lt x y then y
  else if num_lt y x then x
  else match x with S754_zero true => y | _ => x end.

Definition Math_min (x y : number) : number :=
  if is_nan x || is_nan y then NaN
  else if num_lt x y then x
  else if num_lt y x then y
  else match x with S754_zero false => y | _ => x end.

Module ProgressBar.

Definition validProgress (progress : number) : number :=
  Math_min (Math_max progress (of_Z 0)) (of_Z 100).

Definition getProgressColor (progress : number) : string :=
  let validProgress := validProgress progress in
  if num_ge validProgress (of_Z 75) then "#2ED573"
  else if num_ge validProgress (of_Z 50) then "#FFA502"
  else if num_ge validProgress (of_Z 25) then "#FECA57"
  else "#FF6B6B".

End ProgressBar.

(** *** AddTaskScreen.js: submission *)

(** [handleSubmit]: the error object [validateForm] set, and the title
    and message of the alert shown, if one was.  [id] is what
    [generateId()] returned, [deadlineISO] and [createdAt] what
    [toISOString()] returned. *)
Definition handleSubmit (c : clock) (f : form) (id deadlineISO createdAt : string)
  : async (gmap string string * option (string * string)) :=
  let (newErrors, valid) := validateForm c f in
  if negb valid then mret (newErrors, None)
  else
    try_catch
      (addTask (newTask id deadlineISO createdAt f) ≫= fun success : bool =>
       mret (newErrors,
             Some (if success
                   then ("Success! 🎉", "Your study task has been added successfully.")
                   else ("Error", "Failed to save task. Please try again."))))
      (fun _ => mret (newErrors, Some ("Error", "An unexpected error occurred."))).

(** *** LoginScreen.js *)

(** [s.length], the number of UTF-16 code units: a character of four
    bytes is two of them, any other character one. *)
Fixpoint String_length (s : string) : Z :=
  match s with
  | EmptyString => 0
  | String a rest =>
      let n := Z.of_nat (nat_of_ascii a) in
      (if n <? 128 then 1 else if n <? 192 then 0 else if n <? 240 then 1 else 2)
      + String_length rest
  end.

(** [validateInputs]: the texts handed to [setEmailError] and
    [setPasswordError], and the boolean returned. *)
Definition validateInputs (email password : string) : string * string * bool :=
  let isValid := true in
  let '(emailError, isValid) :=
    if is_empty (trim email) then ("Email is required", false)
    else if negb (isValidEmail email) then ("Please enter a valid email", false)
    else ("", isValid) in
  let '(passwordError, isValid) :=
    if is_empty (trim password) then ("Password is required", false)
    else if String_length password <? 6
    then ("Password must be at least 6 characters", false)
    else ("", isValid) in
  (emailError, passwordError, isValid).

(** *** TaskListScreen.js *)

Module TaskListScreen.

(** The state [tasks] after [loadTasks], given what it held: an
    exception on the way is caught and leaves it as it was. *)
Definition loadTasks (tasks : list Task) : async (list Task) :=
  try_catch
    (storedTasks ← getTasks;
     sortedTasks ← lift (sorted_by_priority storedTasks);
     mret sortedTasks)
    (fun _ => mret tasks).

(** The state [tasks] after [handleToggleComplete(taskId)]. *)
Definition handleToggleComplete (taskId : value) (tasks : list Task) : async (list Task) :=
  try_catch
    (match List.find (fun t => strict_eq (get t "id") taskId) tasks with
     | Some task =>
         updateTask taskId
           {[ "completed" := VBool (negb (truthy (get task "completed"))) ]}
         ≫= fun success : bool => if success then loadTasks tasks else mret tasks
     | None => mret tasks
     end)
    (fun _ => mret tasks).

Definition getFilteredTasks (filter : string) (tasks : list Task) : list Task :=
  if String.eqb filter "pending"
  then List.filter (fun t => negb (truthy (get t "completed"))) tasks
  else if String.eqb filter "completed"
  then List.filter (fun t => truthy (get t "completed")) tasks
  else tasks.

Definition pendingCount (tasks : list Task) : nat :=
  length (List.filter (fun t => negb (truthy (get t "completed"))) tasks).

Definition completedCount (tasks : list Task) : nat :=
  length (List.filter (fun t => truthy (get t "completed")) tasks).

End TaskListScreen.

(** *** HomeScreen.js *)

Module HomeScreen.

(** The state [(tasks, progress)] after [loadTasks]. *)
Definition loadTasks (state : list Task * number) : async (list Task * number) :=
  try_catch
    (storedTasks ← getTasks;
     mret (storedTasks, calculateProgress (Some storedTasks)))
    (fun _ => mret state).

Definition pendingTasks (tasks : list Task) : nat :=
  length (List.filter (fun t => negb (truthy (get t "completed"))) tasks).

Definition completedTasks (tasks : list Task) : nat :=
  length (List.filter (fun t => truthy (get t "completed")) tasks).

End HomeScreen.

(** *** ProgressScreen.js: the statistics *)

Module ProgressScreen.

(** The state [(tasks, progress)] after [loadData]. *)
Definition loadData (state : list Task * number) : async (list Task * number) :=
  try_catch
    (storedTasks ← getTasks;
     mret (storedTasks, calculateProgress (Some storedTasks)))
    (fun _ => mret state).

Definition totalTasks (tasks : list Task) : Z := Z.of_nat (length tasks).

Definition completedTasks (tasks : list Task) : Z :=
  Z.of_nat (length (List.filter (fun t => truthy (get t "completed")) tasks)).

Definition pendingTasks (tasks : list Task) : Z := totalTasks tasks - completedTasks tasks.

(** [sum + (t.studyTime || 0)] in the two reductions.  A sum is a
    Number until a study time that is a string other than the empty
    one is met: from there on [+] concatenates, and [None] stands for
    the string. *)
Definition plus_studyTime (sum : option number) (t : Task) : option number :=
  let studyTime := get t "studyTime" in
  let operand := if truthy studyTime then studyTime else VNum (of_Z 0) in
  match sum, operand with
  | Some x, VNum y => Some (add x y)
  | Some x, VBool b => Some (add x (of_Z (if b then 1 else 0)))
  | Some x, VNull => Some (add x (of_Z 0))
  | Some x, VUndefined => Some NaN
  | _, _ => None
  end.

Definition totalHours (tasks : list Task) : option number :=
  fold_left plus_studyTime tasks (Some (of_Z 0)).

Definition completedHours (tasks : list Task) : option number :=
  fold_left plus_studyTime
    (List.filter (fun t => truthy (get t "completed")) tasks) (Some (of_Z 0)).

(** [totalHours - completedHours], of two Numbers. *)
Definition remainingHours (tasks : list Task) : option number :=
  match totalHours tasks, completedHours tasks with
  | Some total, Some completed => Some (sub total completed)
  | _, _ => None
  end.

(** [totalHours > 0 ? Math.round((completedHours / totalHours) * 100) : 0],
    of two Numbers. *)
Definition hoursProgress (tasks : list Task) : option number :=
  match totalHours tasks, completedHours tasks with
  | Some total, Some completed =>
      Some (if num_gt total (of_Z 0)
            then Math_round (mul (div completed total) (of_Z 100))
            else of_Z 0)
  | _, _ => None
  end.

End ProgressScreen.

(** ** Further definitions the statements use *)

(** What a read of the store returns. *)
Definition stored (st : AsyncStorage) : list Task := result_or [] (fst (getTasks st)).

(** The store after a removal of the tasks' key has gone through. *)
Definition removed (st : AsyncStorage) : AsyncStorage :=
  {| items := delete TASKS_STORAGE_KEY (items st);
     getItem_fails := getItem_fails st;
     setItem_fails := setItem_fails st;
     removeItem_fails := removeItem_fails st |}.

(** What [JSON.parse] gives back of a task [JSON.stringify] has
    written. *)
Definition reread (task : Task) : Task := parse_value <$> omap stringify_value task.

(** The badge colour of a rank: red, orange, green, and gray for the
    rest. *)
Definition color_of_rank (rank : Z) : string :=
  if rank =? 1 then "#FF4757"
  else if rank =? 2 then "#FFA502"
  else if rank =? 3 then "#2ED573"
  else "#747D8C".

(** The bar colour that goes with a message of the ladder. *)
Definition color_of_message (m : motivation) : string :=
  if String.eqb (message m) (message perfect) then "#2ED573"
  else if String.eqb (message m) (message almost_there) then "#2ED573"
  else if String.eqb (message m) (message great_progress) then "#FFA502"
  else if String.eqb (message m) (message good_start) then "#FECA57"
  else "#FF6B6B".

(** What [handleToggleComplete] makes of a stored task: the flag
    [completed] set to [b] when the id is [taskId]. *)
Definition with_completed (taskId : value) (b : bool) (task : Task) : Task :=
  if strict_eq (get task "id") taskId then <["completed" := VBool b]> task else task.

(** The sequences of units a regular expression matches. *)
Inductive matches : regex -> list code_unit -> Prop :=
| matches_Empty : matches Empty []
| matches_Class p u : p u = true -> matches (Class p) [u]
| matches_Seq r1 r2 s1 s2 :
    matches r1 s1 -> matches r2 s2 -> matches (Seq r1 r2) (s1 ++ s2)%list
| matches_Alt_l r1 r2 s : matches r1 s -> matches (Alt r1 r2) s
| matches_Alt_r r1 r2 s : matches r2 s -> matches (Alt r1 r2) s
| matches_Star_nil r : matches (Star r) []
| matches_Star_cons r s1 s2 :
    matches r s1 -> matches (Star r) s2 -> matches (Star r) (s1 ++ s2)%list.

(** One part of an address: not empty, and free of white space and of
    the at sign. *)
Definition address_part (s : list code_unit) : Prop :=
  s <> [] /\ Forall (fun u => not_space_at u = true) s.

(** A text made of the given pieces, one after the other. *)
Inductive run (pieces : list string) : string -> Prop :=
| run_nil : run pieces ""
| run_cons p r : In p pieces -> run pieces r -> run pieces (p ++ r).

(** The study time of a task is the whole number [hours], or it is
    missing or [null] and [hours] is 0. *)
Definition studyTime_is (hours : Z) (task : Task) : Prop :=
  0 <= hours /\
  match get task "studyTime" with
  | VNum x => x = of_Z hours
  | VNull | VUndefined => hours = 0
  | _ => False
  end.

(** The hours of a list of tasks, added up. *)
Definition hours_of (hours : Task -> Z) (tasks : list Task) : Z :=
  fold_right (fun task total => hours task + total) 0 tasks.

Definition pending_of (tasks : list Task) : list Task :=
  List.filter (fun task => negb (truthy (get task "completed"))) tasks.

(** A task of [hours] hours of study. *)
Definition task_of_hours (hours : Z) (completed : bool) : Task :=
  {[ "studyTime" := VNum (of_Z hours); "completed" := VBool completed ]}.

(** Six deadlines around 3 November 2024 in New York, the day the
    clocks go back: 23:30 the evening before, then 00:30, 01:30 (the
    first time round), noon and 23:30 of that day, and 00:30 of the
    next.  [sample_Date] is what [new Date] makes of them. *)
Definition deadlines_around_the_long_day : list (string * Z) :=
  [ ("2024-11-03T03:30:00.000Z", 86400000 * 20030 + 3 * 3600000 + 1800000);
    ("2024-11-03T04:30:00.000Z", 86400000 * 20030 + 4 * 3600000 + 1800000);
    ("2024-11-03T05:30:00.000Z", 86400000 * 20030 + 5 * 3600000 + 1800000);
    ("2024-11-03T17:00:00.000Z", 86400000 * 20030 + 17 * 3600000);
    ("2024-11-04T04:30:00.000Z", 86400000 * 20031 + 4 * 3600000 + 1800000);
    ("2024-11-04T05:30:00.000Z", 86400000 * 20031 + 5 * 3600000 + 1800000) ].

Definition sample_Date (v : value) : option Z :=
  match v with
  | VStr s =>
      snd <$> List.find (fun entry => String.eqb (fst entry) s) deadlines_around_the_long_day
  | _ => None
  end.

Definition tasks_around_the_long_day : list Task :=
  map (fun entry => {[ "deadline" := VStr (fst entry) ]}) deadlines_around_the_long_day.


(** ** Binary64 arithmetic *)

Lemma digits2_size p : digits2_pos p = Pos.size p.
Proof. induction p; simpl; congruence. Qed.

Lemma digits2_bounds p :
  2 ^ (Z.pos (digits2_pos p) - 1) <= Z.pos p < 2 ^ Z.pos (digits2_pos p).
Proof.
  rewrite digits2_size.
  pose proof (Pos.size_gt p) as Hgt. pose proof (Pos.size_le p) as Hle.
  apply Pos2Z.pos_lt_pos in Hgt. apply Pos2Z.pos_le_pos in Hle.
  rewrite Pos2Z.inj_pow in Hgt, Hle. change (Z.pos p~0) with (2 * Z.pos p) in Hle.
  replace (Z.pos (Pos.size p)) with (Z.succ (Z.pos (Pos.size p) - 1)) in Hle at 1 by lia.
  rewrite Z.pow_succ_r in Hle by lia. lia.
Qed.

Lemma digits2_unique p d :
  2 ^ (d - 1) <= Z.pos p < 2 ^ d -> Z.pos (digits2_pos p) = d.
Proof.
  intros H. pose proof (digits2_bounds p) as Hp.
  assert (0 < d). { destruct (Z.le_gt_cases d 0) as [Hd|]; [|lia].
    assert (2 ^ d <= 2 ^ 0) by (destruct (Z.eq_dec d 0) as [->|]; [lia|]; rewrite Z.pow_neg_r by lia; simpl; lia). simpl in *. lia. }
  assert (Z.log2 (Z.pos p) = d - 1) by (apply Z.log2_unique; [lia|]; replace (Z.succ (d-1)) with d by lia; lia).
  assert (Z.log2 (Z.pos p) = Z.pos (digits2_pos p) - 1) by (apply Z.log2_unique; [lia|]; replace (Z.succ (Z.pos (digits2_pos p) - 1)) with (Z.pos (digits2_pos p)) by lia; lia).
  lia.
Qed.

Lemma shr_1_m mrs : 0 <= shr_m mrs -> shr_m (shr_1 mrs) = shr_m mrs / 2.
Proof.
  destruct mrs as [m r s]. simpl. intros Hm.
  destruct m as [|[p|p|]|p]; cbn [shr_m]; [reflexivity| | |reflexivity|lia].
  - apply Z.div_unique with (r := 1); lia.
  - apply Z.div_unique with (r := 0); lia.
Qed.

Lemma iter_shr_m n mrs :
  0 <= shr_m mrs -> shr_m (SpecFloat.iter_pos shr_1 n mrs) = shr_m mrs / 2 ^ Z.pos n.
Proof.
  revert mrs. induction n as [n IH|n IH|]; intros mrs Hm; simpl SpecFloat.iter_pos.
  - assert (0 <= shr_m (shr_1 mrs)) by (rewrite shr_1_m by done; apply Z.div_pos; lia).
    assert (0 <= shr_m (SpecFloat.iter_pos shr_1 n (shr_1 mrs))) by (rewrite IH by done; apply Z.div_pos; lia).
    rewrite !IH, shr_1_m by done.
    rewrite !Z.div_div by lia. f_equal.
    rewrite Pos2Z.inj_xI.
    replace (2 * Z.pos n + 1) with (1 + Z.pos n + Z.pos n) by lia.
    rewrite !Z.pow_add_r by lia. change (2 ^ 1) with 2. lia.
  - assert (0 <= shr_m (SpecFloat.iter_pos shr_1 n mrs)) by (rewrite IH by done; apply Z.div_pos; lia).
    rewrite !IH by done. rewrite Z.div_div by lia. f_equal.
    rewrite Pos2Z.inj_xO. rewrite <- Z.pow_add_r by lia. f_equal. lia.
  - rewrite shr_1_m by done. reflexivity.
Qed.

Lemma fexp_normal e : -1021 <= e -> fexp prec emax e = e - 53.
Proof. unfold fexp, emin, prec, emax. lia. Qed.

Lemma shr_record_of_loc_m m l : shr_m (shr_record_of_loc m l) = m.
Proof. by destruct l as [|[]]. Qed.

Lemma round_nearest_even_range m l :
  round_nearest_even m l = m \/ round_nearest_even m l = m + 1.
Proof. destruct l as [|[]]; simpl; auto. destruct (Z.even m); auto. Qed.

Lemma shr_fexp_normal (mx : positive) ex lx :
  53 <= Z.pos (digits2_pos mx) ->
  -1074 <= ex + Z.pos (digits2_pos mx) - 53 ->
  exists mrs,
    shr_fexp prec emax (Z.pos mx) ex lx = (mrs, ex + Z.pos (digits2_pos mx) - 53) /\
    shr_m mrs = Z.pos mx / 2 ^ (Z.pos (digits2_pos mx) - 53).
Proof.
  intros Hd He. unfold shr_fexp. cbn [Zdigits2].
  rewrite fexp_normal by lia.
  replace (Z.pos (digits2_pos mx) + ex - 53 - ex) with (Z.pos (digits2_pos mx) - 53) by lia.
  destruct (Z.pos (digits2_pos mx) - 53) as [|n|n] eqn:Hn; [| |lia].
  - eexists. split; [cbn [shr]; f_equal; lia|].
    rewrite shr_record_of_loc_m. by rewrite Z.div_1_r.
  - eexists. split; [cbn [shr]; f_equal; lia|].
    rewrite iter_shr_m; rewrite shr_record_of_loc_m; [done|lia].
Qed.

Lemma shifted_mantissa_range (mx : positive) :
  53 <= Z.pos (digits2_pos mx) ->
  2 ^ 52 <= Z.pos mx / 2 ^ (Z.pos (digits2_pos mx) - 53) < 2 ^ 53.
Proof.
  intros Hd. pose proof (digits2_bounds mx) as [Hlo Hhi].
  set (d := Z.pos (digits2_pos mx)) in *.
  assert (0 < 2 ^ (d - 53)) by (apply Z.pow_pos_nonneg; lia).
  split.
  - apply Z.div_le_lower_bound; [done|].
    rewrite <- Z.pow_add_r by lia. by replace (d - 53 + 52) with (d - 1) by lia.
  - apply Z.div_lt_upper_bound; [done|].
    rewrite <- Z.pow_add_r by lia. by replace (d - 53 + 53) with d by lia.
Qed.

(** Rounding a mantissa of at least 53 bits in the normal range: the
    result is the truncated mantissa or the one above it. *)
Lemma binary_round_aux_normal (mx : positive) ex lx :
  53 <= Z.pos (digits2_pos mx) ->
  -1074 <= ex + Z.pos (digits2_pos mx) - 53 < 971 ->
  exists m e,
    binary_round_aux prec emax false (Z.pos mx) ex lx = S754_finite false m e /\
    2 ^ 52 <= Z.pos m < 2 ^ 53 /\
    ((e = ex + Z.pos (digits2_pos mx) - 53 /\
      (Z.pos m = Z.pos mx / 2 ^ (Z.pos (digits2_pos mx) - 53) \/
       Z.pos m = Z.pos mx / 2 ^ (Z.pos (digits2_pos mx) - 53) + 1)) \/
     (e = ex + Z.pos (digits2_pos mx) - 53 + 1 /\
      Z.pos m = 2 ^ 52 /\
      Z.pos mx / 2 ^ (Z.pos (digits2_pos mx) - 53) + 1 = 2 ^ 53)).
Proof.
  intros Hd He.
  destruct (shr_fexp_normal mx ex lx Hd) as (mrs & Hshr & Hm); [lia|].
  pose proof (shifted_mantissa_range mx Hd) as Hrange.
  assert (forall e, e <= 971 -> (e <=? emax - prec) = true) as Hle
    by (intros; unfold emax, prec; lia).
  unfold binary_round_aux. rewrite Hshr.
  set (e1 := ex + Z.pos (digits2_pos mx) - 53) in *.
  set (m1 := Z.pos mx / 2 ^ (Z.pos (digits2_pos mx) - 53)) in *.
  rewrite Hm.
  destruct (round_nearest_even_range m1 (loc_of_shr_record mrs)) as [-> | ->].
  - destruct m1 as [|p1|p1] eqn:Hp1; [lia| |lia].
    assert (Z.pos (digits2_pos p1) = 53) as Hd1 by (apply digits2_unique; lia).
    unfold shr_fexp. cbn [Zdigits2]. rewrite Hd1, fexp_normal by lia.
    replace (53 + e1 - 53 - e1) with 0 by lia. cbn.
    rewrite Hle by lia.
    eexists _, _. split; [done|]. split; [lia|]. left. split; [done|]. by left.
  - destruct (Z.eq_dec (m1 + 1) (2 ^ 53)) as [Heq|Hne].
    + rewrite Heq. unfold shr_fexp.
      change (Zdigits2 (2 ^ 53)) with 54. rewrite fexp_normal by lia.
      replace (54 + e1 - 53 - e1) with 1 by lia. cbn.
      rewrite Hle by lia.
      eexists _, _. split; [done|]. split; [done|]. right. done.
    + destruct (m1 + 1) as [|p1|p1] eqn:Hp1; [lia| |lia].
      assert (Z.pos (digits2_pos p1) = 53) as Hd1 by (apply digits2_unique; lia).
      unfold shr_fexp. cbn [Zdigits2]. rewrite Hd1, fexp_normal by lia.
      replace (53 + e1 - 53 - e1) with 0 by lia. cbn.
      rewrite Hle by lia.
      eexists _, _. split; [done|]. split; [lia|]. left. split; [done|]. by right.
Qed.

(** A 53-bit mantissa in range is already rounded. *)
Lemma binary_round_aux_exact (s : bool) (m : positive) e :
  2 ^ 52 <= Z.pos m < 2 ^ 53 -> -1074 <= e <= 971 ->
  binary_round_aux prec emax s (Z.pos m) e loc_Exact = S754_finite s m e.
Proof.
  intros Hm He.
  assert (Z.pos (digits2_pos m) = 53) as Hd by (apply digits2_unique; lia).
  unfold binary_round_aux, shr_fexp. cbn [Zdigits2].
  rewrite Hd, fexp_normal by lia.
  replace (53 + e - 53 - e) with 0 by lia. cbn.
  rewrite Hd, fexp_normal by lia.
  replace (53 + e - 53 - e) with 0 by lia. cbn.
  replace (e <=? emax - prec) with true by (unfold emax, prec; lia). done.
Qed.

Lemma iter_xO_pow (p k : positive) :
  Z.pos (Pos.iter xO p k) = Z.pos p * 2 ^ Z.pos k.
Proof.
  induction k as [|k IH] using Pos.peano_ind.
  - simpl. lia.
  - rewrite Pos.iter_succ, Pos2Z.inj_xO, IH, Pos2Z.inj_succ, Z.pow_succ_r by lia. lia.
Qed.

(** An integer below 2^53 converts exactly. *)
Lemma of_Z_exact (p : positive) :
  Z.pos p < 2 ^ 53 ->
  exists m e,
    of_Z (Z.pos p) = S754_finite false m e /\
    of_Z (Z.neg p) = S754_finite true m e /\
    2 ^ 52 <= Z.pos m < 2 ^ 53 /\
    -52 <= e <= 0 /\
    Z.pos m = Z.pos p * 2 ^ (- e).
Proof.
  intros Hp. pose proof (digits2_bounds p) as [Hlo Hhi].
  assert (Z.pos (digits2_pos p) <= 53) as Hd.
  { destruct (Z.le_gt_cases (Z.pos (digits2_pos p)) 53) as [|Hgt]; [done|].
    assert (2 ^ 53 <= 2 ^ (Z.pos (digits2_pos p) - 1)) by (apply Z.pow_le_mono_r; lia). lia. }
  unfold of_Z, binary_normalize, binary_round.
  rewrite fexp_normal by lia. unfold shl_align.
  set (d := Z.pos (digits2_pos p)) in *.
  destruct (d + 0 - 53 - 0) as [|k|k] eqn:Hk; [| lia |].
  - assert (d = 53) as Hd53 by lia. rewrite Hd53 in *.
    rewrite !binary_round_aux_exact by lia.
    eexists _, _. split; [done|]. split; [done|]. split; [lia|]. split; [lia|]. simpl. lia.
  - assert (2 ^ 52 <= Z.pos (Pos.iter xO p k) < 2 ^ 53) as Hm.
    { rewrite iter_xO_pow. replace (Z.pos k) with (53 - d) by lia.
      assert (2 ^ 52 = 2 ^ (d - 1) * 2 ^ (53 - d)) as ->
        by (rewrite <- Z.pow_add_r by lia; f_equal; lia).
      assert (2 ^ 53 = 2 ^ d * 2 ^ (53 - d)) as ->
        by (rewrite <- Z.pow_add_r by lia; f_equal; lia).
      assert (0 < 2 ^ (53 - d)) by (apply Z.pow_pos_nonneg; lia). nia. }
    rewrite !binary_round_aux_exact by lia.
    eexists _, _. split; [done|]. split; [done|]. split; [done|]. split; [lia|].
    rewrite iter_xO_pow. do 2 f_equal. lia.
Qed.


Lemma powerRZ_2_pos e : (0 < powerRZ 2 e)%R.
Proof. apply powerRZ_lt. lra. Qed.

Lemma powerRZ_2_add a b : powerRZ 2 (a + b) = (powerRZ 2 a * powerRZ 2 b)%R.
Proof. apply powerRZ_add. lra. Qed.

Lemma IZR_pow2 k : 0 <= k -> IZR (2 ^ k) = powerRZ 2 k.
Proof.
  intros Hk. rewrite <- (Z2Nat.id k) by done.
  rewrite <- pow_powerRZ, <- Zpower_nat_Z. 
  induction (Z.to_nat k) as [|n IH]; [done|].
  rewrite Zpower_nat_succ_r, mult_IZR, IH. simpl. done.
Qed.

(** Rounding in the normal range moves a value by at most one unit in
    the last place, and that unit is at most 2^-52 of the value. *)
Lemma binary_round_aux_real (mx : positive) ex lx (x : R) :
  53 <= Z.pos (digits2_pos mx) ->
  -1074 <= ex + Z.pos (digits2_pos mx) - 53 < 971 ->
  (IZR (Z.pos mx) * powerRZ 2 ex <= x < (IZR (Z.pos mx) + 1) * powerRZ 2 ex)%R ->
  exists m e u,
    binary_round_aux prec emax false (Z.pos mx) ex lx = S754_finite false m e /\
    2 ^ 52 <= Z.pos m < 2 ^ 53 /\
    ex + Z.pos (digits2_pos mx) - 53 <= e <= ex + Z.pos (digits2_pos mx) - 52 /\
    (0 < u /\ - u <= F2R m e - x <= u /\ IZR (2 ^ 52) * u <= x)%R.
Proof.
  intros Hd He Hx.
  destruct (binary_round_aux_normal mx ex lx Hd He) as (m & e & Hr & Hm & Hcases).
  pose proof (shifted_mantissa_range mx Hd) as Hm1.
  set (n1 := Z.pos (digits2_pos mx) - 53) in *.
  set (m1 := Z.pos mx / 2 ^ n1) in *.
  replace (ex + Z.pos (digits2_pos mx) - 53) with (ex + n1) in Hcases by (unfold n1; lia).
  assert (0 < 2 ^ n1) as Hpow by (apply Z.pow_pos_nonneg; lia).
  assert (m1 * 2 ^ n1 <= Z.pos mx) as Hlo
    by (unfold m1; rewrite Z.mul_comm; apply Z.mul_div_le; lia).
  assert (Z.pos mx + 1 <= (m1 + 1) * 2 ^ n1) as Hhi.
  { pose proof (Z.mul_succ_div_gt (Z.pos mx) (2 ^ n1) Hpow). fold m1 in H. lia. }
  exists m, e, (powerRZ 2 (ex + n1)).
  split; [done|]. split; [done|].
  split; [unfold n1; destruct Hcases as [[-> _] | [-> _]]; lia|].
  pose proof (powerRZ_2_pos ex) as HU.
  assert (powerRZ 2 (ex + n1) = (IZR (2 ^ n1) * powerRZ 2 ex)%R) as Hu.
  { rewrite powerRZ_2_add, IZR_pow2 by lia. lra. }
  apply IZR_le in Hlo, Hhi. rewrite mult_IZR in Hlo. rewrite mult_IZR, !plus_IZR in Hhi.
  assert (0 < IZR (2 ^ n1))%R as HN by (apply IZR_lt; lia).
  set (N := IZR (2 ^ n1)) in *. set (U := powerRZ 2 ex) in *.
  set (M := IZR (Z.pos mx)) in *. set (M1 := IZR m1) in *.
  assert (M1 * (N * U) <= x)%R as Hx1.
  { apply Rle_trans with (M * U)%R; [|lra]. rewrite <- Rmult_assoc. apply Rmult_le_compat_r; lra. }
  assert (x < (M1 + 1) * (N * U))%R as Hx2.
  { apply Rlt_le_trans with ((M + 1) * U)%R; [lra|]. rewrite <- Rmult_assoc. apply Rmult_le_compat_r; lra. }
  assert (IZR (2 ^ 52) <= M1)%R as HM1 by (apply IZR_le; lia).
  assert (0 < N * U)%R as HNU by (apply Rmult_lt_0_compat; lra).
  rewrite Hu. split; [done|].
  assert (F2R m e = M1 * (N * U) \/ F2R m e = (M1 + 1) * (N * U))%R as HF.
  { unfold F2R. destruct Hcases as [[-> [Hm' | Hm']] | (-> & Hm' & Hm1')].
    - left. by rewrite Hm', Hu.
    - right. by rewrite Hm', plus_IZR, Hu.
    - right. rewrite Hm'.
      rewrite powerRZ_2_add, Hu.

      assert (M1 + 1 = IZR (2 ^ 53))%R as -> by (unfold M1; rewrite <- Hm1', plus_IZR; done).
      change (powerRZ 2 1) with (2 * 1)%R.
      change (2 ^ 53) with (2 ^ 52 * 2). rewrite mult_IZR. lra. }
  split.
  - destruct HF as [-> | ->]; lra.
  - apply Rle_trans with (M1 * (N * U))%R; [|done]. apply Rmult_le_compat_r; lra.
Qed.

Lemma powerRZ_2_sub a b : powerRZ 2 (a - b) = (powerRZ 2 a / powerRZ 2 b)%R.
Proof.
  pose proof (powerRZ_2_pos b).
  replace a with ((a - b) + b) at 2 by lia. rewrite powerRZ_2_add. field. lra.
Qed.

Lemma F2R_pos m e : (0 < F2R m e)%R.
Proof.
  unfold F2R. apply Rmult_lt_0_compat; [|apply powerRZ_2_pos]. apply IZR_lt. lia.
Qed.

(** Division of two normal numbers of moderate exponent. *)
Lemma div_real (ma mb : positive) ea eb :
  2 ^ 52 <= Z.pos ma < 2 ^ 53 -> 2 ^ 52 <= Z.pos mb < 2 ^ 53 ->
  -200 <= ea <= 200 -> -200 <= eb <= 200 ->
  exists m e u,
    div (S754_finite false ma ea) (S754_finite false mb eb) = S754_finite false m e /\
    2 ^ 52 <= Z.pos m < 2 ^ 53 /\
    ea - eb - 53 <= e <= ea - eb - 51 /\
    (0 < u /\ - u <= F2R m e - F2R ma ea / F2R mb eb <= u /\
     IZR (2 ^ 52) * u <= F2R ma ea / F2R mb eb)%R.
Proof.
  intros Hma Hmb Hea Heb.
  assert (Z.pos (digits2_pos ma) = 53) as Hda by (apply digits2_unique; lia).
  assert (Z.pos (digits2_pos mb) = 53) as Hdb by (apply digits2_unique; lia).
  unfold div, SFdiv, SFdiv_core_binary. cbn [xorb Zdigits2]. rewrite Hda, Hdb.
  rewrite fexp_normal by lia. rewrite Z.min_l by lia.
  replace (ea - eb - (53 + ea - (53 + eb) - 53)) with 53 by lia.
  cbv iota. rewrite Z.shiftl_mul_pow2 by lia.
  pose proof (Z_div_mod (Z.pos ma * 2 ^ 53) (Z.pos mb) eq_refl) as Hdm.
  destruct (Z.div_eucl (Z.pos ma * 2 ^ 53) (Z.pos mb)) as [q r]. destruct Hdm as [Hq Hr].
  assert (2 ^ 52 <= q < 2 ^ 54) as Hqr by nia.
  destruct q as [|q|q]; [lia| |lia].
  pose proof (digits2_bounds q) as Hdq.
  assert (53 <= Z.pos (digits2_pos q) <= 54) as Hdq'.
  { split.
    - destruct (Z.le_gt_cases 53 (Z.pos (digits2_pos q))) as [|Hlt]; [done|].
      assert (2 ^ Z.pos (digits2_pos q) <= 2 ^ 52) by (apply Z.pow_le_mono_r; lia). lia.
    - destruct (Z.le_gt_cases (Z.pos (digits2_pos q)) 54) as [|Hgt]; [done|].
      assert (2 ^ 54 <= 2 ^ (Z.pos (digits2_pos q) - 1)) by (apply Z.pow_le_mono_r; lia). lia. }
  set (ex := 53 + ea - (53 + eb) - 53).
  cut (IZR (Z.pos q) * powerRZ 2 ex <= F2R ma ea / F2R mb eb
       < (IZR (Z.pos q) + 1) * powerRZ 2 ex)%R.
  { intros Hx.
    destruct (binary_round_aux_real q ex (new_location (Z.pos mb) r) _
                ltac:(lia) ltac:(unfold ex; lia) Hx) as (m & e & u & ? & ? & ? & Hreal).
    exists m, e, u. split; [done|]. split; [done|]. split; [unfold ex in *; lia|done]. }
  pose proof (powerRZ_2_pos ea) as HPA. pose proof (powerRZ_2_pos eb) as HPB.
  assert (powerRZ 2 ex = powerRZ 2 ea / (powerRZ 2 eb * IZR (2 ^ 53)))%R as ->.
  { unfold ex. replace (53 + ea - (53 + eb) - 53) with (ea - (eb + 53)) by lia.
    rewrite powerRZ_2_sub, powerRZ_2_add, IZR_pow2 by lia. done. }
  unfold F2R.
  assert (IZR (Z.pos q) * IZR (Z.pos mb) <= IZR (Z.pos ma) * IZR (2 ^ 53))%R as H1
    by (rewrite <- !mult_IZR; apply IZR_le; lia).
  assert (IZR (Z.pos ma) * IZR (2 ^ 53) < (IZR (Z.pos q) + 1) * IZR (Z.pos mb))%R as H2
    by (rewrite <- plus_IZR, <- !mult_IZR; apply IZR_lt; lia).
  assert (0 < IZR (Z.pos mb))%R as HMb by (apply IZR_lt; lia).
  assert (0 < IZR (2 ^ 53))%R as H53 by (apply IZR_lt; lia).
  set (Q := IZR (Z.pos q)) in *. set (Ma := IZR (Z.pos ma)) in *.
  set (Mb := IZR (Z.pos mb)) in *. set (T := IZR (2 ^ 53)) in *.
  set (PA := powerRZ 2 ea) in *. set (PB := powerRZ 2 eb) in *.
  assert (0 < PA / (Mb * PB * T))%R as Hc.
  { apply Rdiv_lt_0_compat; [done|].
    apply Rmult_lt_0_compat; [apply Rmult_lt_0_compat|]; done. }
  replace (Q * (PA / (PB * T)))%R with ((Q * Mb) * (PA / (Mb * PB * T)))%R by (field; lra).
  replace ((Q + 1) * (PA / (PB * T)))%R with (((Q + 1) * Mb) * (PA / (Mb * PB * T)))%R
    by (field; lra).
  replace (Ma * PA / (Mb * PB))%R with ((Ma * T) * (PA / (Mb * PB * T)))%R by (field; lra).
  split; [apply Rmult_le_compat_r; lra | apply Rmult_lt_compat_r; lra].
Qed.

(** Multiplication of two normal numbers of moderate exponent. *)
Lemma mul_real (ma mb : positive) ea eb :
  2 ^ 52 <= Z.pos ma < 2 ^ 53 -> 2 ^ 52 <= Z.pos mb < 2 ^ 53 ->
  -200 <= ea <= 200 -> -200 <= eb <= 200 ->
  exists m e u,
    mul (S754_finite false ma ea) (S754_finite false mb eb) = S754_finite false m e /\
    2 ^ 52 <= Z.pos m < 2 ^ 53 /\
    ea + eb + 52 <= e <= ea + eb + 54 /\
    (0 < u /\ - u <= F2R m e - F2R ma ea * F2R mb eb <= u /\
     IZR (2 ^ 52) * u <= F2R ma ea * F2R mb eb)%R.
Proof.
  intros Hma Hmb Hea Heb.
  unfold mul, SFmul. cbn [xorb].
  pose proof (digits2_bounds (ma * mb)) as Hd.
  assert (2 ^ 104 <= Z.pos (ma * mb) < 2 ^ 106) as Hprod.
  { rewrite Pos2Z.inj_mul. change (2 ^ 104) with (2 ^ 52 * 2 ^ 52).
    change (2 ^ 106) with (2 ^ 53 * 2 ^ 53). nia. }
  assert (105 <= Z.pos (digits2_pos (ma * mb)) <= 106) as Hd'.
  { split.
    - destruct (Z.le_gt_cases 105 (Z.pos (digits2_pos (ma * mb)))) as [|Hlt]; [done|].
      assert (2 ^ Z.pos (digits2_pos (ma * mb)) <= 2 ^ 104) by (apply Z.pow_le_mono_r; lia). lia.
    - destruct (Z.le_gt_cases (Z.pos (digits2_pos (ma * mb))) 106) as [|Hgt]; [done|].
      assert (2 ^ 106 <= 2 ^ (Z.pos (digits2_pos (ma * mb)) - 1))
        by (apply Z.pow_le_mono_r; lia). lia. }
  cut (IZR (Z.pos (ma * mb)) * powerRZ 2 (ea + eb) <= F2R ma ea * F2R mb eb
       < (IZR (Z.pos (ma * mb)) + 1) * powerRZ 2 (ea + eb))%R.
  { intros Hx.
    destruct (binary_round_aux_real (ma * mb) (ea + eb) loc_Exact _
                ltac:(lia) ltac:(lia) Hx) as (m & e & u & ? & ? & ? & Hreal).
    exists m, e, u. split; [done|]. split; [done|]. split; [lia|done]. }
  unfold F2R. rewrite Pos2Z.inj_mul, mult_IZR, powerRZ_2_add.
  pose proof (powerRZ_2_pos ea). pose proof (powerRZ_2_pos eb).
  assert (0 < IZR (Z.pos ma))%R by (apply IZR_lt; lia).
  assert (0 < IZR (Z.pos mb))%R by (apply IZR_lt; lia).
  assert (0 < powerRZ 2 ea * powerRZ 2 eb)%R by (apply Rmult_lt_0_compat; done).
  split; [right; ring|].
  replace ((IZR (Z.pos ma) * IZR (Z.pos mb) + 1) * (powerRZ 2 ea * powerRZ 2 eb))%R
    with (IZR (Z.pos ma) * powerRZ 2 ea * (IZR (Z.pos mb) * powerRZ 2 eb)
          + powerRZ 2 ea * powerRZ 2 eb)%R by ring.
  lra.
Qed.


Lemma F2R_of_Z (p : positive) :
  Z.pos p < 2 ^ 53 ->
  exists m e,
    of_Z (Z.pos p) = S754_finite false m e /\
    2 ^ 52 <= Z.pos m < 2 ^ 53 /\ -52 <= e <= 0 /\
    F2R m e = IZR (Z.pos p).
Proof.
  intros Hp. destruct (of_Z_exact p Hp) as (m & e & Heq & _ & Hm & He & Hval).
  exists m, e. repeat split; try done; try lia.
  unfold F2R. rewrite Hval, mult_IZR, IZR_pow2 by lia.
  rewrite Rmult_assoc, <- powerRZ_2_add.
  replace (- e + e) with 0 by lia. simpl. ring.
Qed.

(** [Math.round] of a positive number below 2^52: the integer [k] with
    [k <= x + 1/2 < k + 1]. *)
Lemma Math_round_real (m : positive) e :
  2 ^ 52 <= Z.pos m -> (F2R m e < IZR (2 ^ 52))%R ->
  exists k,
    Math_round (S754_finite false m e) = of_Z k /\
    (IZR k <= F2R m e + / 2 < IZR k + 1)%R.
Proof.
  intros Hm Hlt.
  destruct e as [|e|e].
  - exfalso. unfold F2R in Hlt. simpl in Hlt.
    apply IZR_le in Hm. lra.
  - exfalso. unfold F2R in Hlt.
    assert (1 <= powerRZ 2 (Z.pos e))%R.
    { rewrite <- IZR_pow2 by lia. apply IZR_le.
      assert (0 < 2 ^ Z.pos e) by (apply Z.pow_pos_nonneg; lia). lia. }
    apply IZR_le in Hm. assert (0 < IZR (2 ^ 52))%R by (apply IZR_lt; lia). nra.
  - exists (ties_up false m (Z.neg e)). split.
    + unfold Math_round. by destruct (ties_up false m (Z.neg e)).
    + unfold ties_up, F2R.
      assert (0 < 2 ^ Z.pos e) as Hp by (apply Z.pow_pos_nonneg; lia).
      set (P := 2 ^ Z.pos e) in *.
      set (k := (2 * Z.pos m + P) / (2 * P)).
      assert (2 * P * k <= 2 * Z.pos m + P) as Hlo by (apply Z.mul_div_le; lia).
      assert (2 * Z.pos m + P < 2 * P * (k + 1)) as Hhi.
      { pose proof (Z.mul_succ_div_gt (2 * Z.pos m + P) (2 * P)). fold k in H. lia. }
      apply IZR_le in Hlo. apply IZR_lt in Hhi.
      rewrite !mult_IZR, plus_IZR, mult_IZR in Hlo.
      rewrite !mult_IZR, !plus_IZR, mult_IZR in Hhi.
      assert (powerRZ 2 (Z.neg e) = / IZR P)%R as ->.
      { change (Z.neg e) with (- Z.pos e). rewrite powerRZ_neg', <- IZR_pow2 by lia. done. }
      assert (0 < IZR P)%R as HP by (apply IZR_lt; lia).
      set (Pr := IZR P) in *. set (M := IZR (Z.pos m)) in *. set (K := IZR k) in *.
      split.
      * apply Rmult_le_reg_l with (2 * Pr)%R; [lra|]. 
        replace (2 * Pr * (M * / Pr + / 2))%R with (2 * M + Pr)%R by (field; lra). lra.
      * apply Rmult_lt_reg_l with (2 * Pr)%R; [lra|].
        replace (2 * Pr * (M * / Pr + / 2))%R with (2 * M + Pr)%R by (field; lra). lra.
Qed.


(** The percentage: the integer returned is within one half of
    [100 * c / n]. *)
Lemma progress_nearest (c n : positive) :
  Z.pos c <= Z.pos n -> Z.pos n < 2 ^ 32 ->
  exists k,
    Math_round (mul (div (of_Z (Z.pos c)) (of_Z (Z.pos n))) (of_Z 100)) = of_Z k /\
    Z.abs (2 * Z.pos n * k - 200 * Z.pos c) <= Z.pos n.
Proof.
  intros Hcn Hn.
  destruct (F2R_of_Z c) as (ma & ea & -> & Hma & Hea & Fa); [lia|].
  destruct (F2R_of_Z n) as (mb & eb & -> & Hmb & Heb & Fb); [lia|].
  destruct (F2R_of_Z 100) as (mh & eh & -> & Hmh & Heh & Fh); [done|].
  destruct (div_real ma mb ea eb) as (md & ed & u1 & -> & Hmd & Hed & Hu1 & Hd1 & Hd2);
    [lia..|].
  destruct (mul_real md mh ed eh) as (my & ey & u2 & -> & Hmy & Hey & Hu2 & Hy1 & Hy2);
    [lia..|].
  rewrite Fa, Fb in Hd1, Hd2. rewrite Fh in Hy1, Hy2.
  assert (0 < IZR (Z.pos c))%R as HC by (apply IZR_lt; lia).
  assert (0 < IZR (Z.pos n))%R as HN by (apply IZR_lt; lia).
  assert (IZR (Z.pos n) < IZR (2 ^ 32))%R as HN32 by (apply IZR_lt; lia).
  assert (IZR (Z.pos c) <= IZR (Z.pos n))%R as HCN by (apply IZR_le; lia).
  set (C := IZR (Z.pos c)) in *. set (N := IZR (Z.pos n)) in *.
  set (Fd := F2R md ed) in *. set (Fy := F2R my ey) in *.
  assert (0 < C / N <= 1)%R as HA.
  { split; [by apply Rdiv_lt_0_compat|].
    apply Rmult_le_reg_r with N; [done|]. unfold Rdiv. rewrite Rmult_assoc, Rinv_l; lra. }
  set (A := (C / N)%R) in *.
  change (2 ^ 52) with 4503599627370496 in Hd2, Hy2.
  change (2 ^ 32) with 4294967296 in HN32.
  destruct (Math_round_real my ey) as (k & -> & Hk); [lia| |].
  { fold Fy. change (2 ^ 52) with 4503599627370496. lra. }
  exists k. split; [done|].
  fold Fy in Hk.
  assert (- / 2 - / 17592186044416 < IZR k - 100 * A <= / 2 + / 17592186044416)%R as HD by lra.
  assert (N * A = C)%R as HNA by (unfold A; field; lra).
  assert (- N - 1 < 2 * N * IZR k - 200 * C < N + 1)%R as Hfinal.
  { rewrite <- HNA.
    replace (2 * N * IZR k - 200 * (N * A))%R with (2 * N * (IZR k - 100 * A))%R by ring.
    assert (N * (- / 2 - / 17592186044416) < N * (IZR k - 100 * A))%R
      by (apply Rmult_lt_compat_l; lra).
    assert (N * (IZR k - 100 * A) <= N * (/ 2 + / 17592186044416))%R
      by (apply Rmult_le_compat_l; lra).
    lra. }
  unfold C, N in Hfinal.
  apply Z.abs_le. split.
  - cut (- Z.pos n - 1 < 2 * Z.pos n * k - 200 * Z.pos c); [lia|].
    apply lt_IZR. rewrite !minus_IZR, !mult_IZR, opp_IZR. lra.
  - cut (2 * Z.pos n * k - 200 * Z.pos c < Z.pos n + 1); [lia|].
    apply lt_IZR. rewrite plus_IZR, minus_IZR, !mult_IZR. lra.
Qed.


(** Comparing the Numbers of two integers below 2^53 in size compares
    the integers. *)
Lemma compare_scaled (a b ma mb : positive) ea eb :
  2 ^ 52 <= Z.pos ma < 2 ^ 53 -> 2 ^ 52 <= Z.pos mb < 2 ^ 53 ->
  ea <= 0 -> eb <= 0 ->
  Z.pos ma = Z.pos a * 2 ^ (- ea) -> Z.pos mb = Z.pos b * 2 ^ (- eb) ->
  match ea ?= eb with
  | Lt => Lt
  | Gt => Gt
  | Eq => Pos.compare_cont Eq ma mb
  end = (Z.pos a ?= Z.pos b).
Proof.
  intros Hma Hmb Hea Heb Ha Hb.
  assert (forall x y mx my ex ey : Z,
             0 < x -> 0 < y -> ex < ey -> ey <= 0 ->
             mx < 2 ^ 53 -> 2 ^ 52 <= my ->
             mx = x * 2 ^ (- ex) -> my = y * 2 ^ (- ey) -> x < y) as Hlt.
  { intros x y mx my ex ey Hx Hy Hexy Hey Hmx Hmy -> ->.
    replace (- ex) with (- ey + (ey - ex)) in Hmx by lia.
    rewrite Z.pow_add_r in Hmx by lia.
    assert (0 < 2 ^ (- ey)) by (apply Z.pow_pos_nonneg; lia).
    assert (2 ^ 1 <= 2 ^ (ey - ex)) by (apply Z.pow_le_mono_r; lia).
    change (2 ^ 1) with 2 in *. change (2 ^ 53) with (2 * 2 ^ 52) in Hmx.
    set (P := 2 ^ (- ey)) in *. set (Q := 2 ^ (ey - ex)) in *.
    assert (0 < x * P) by (apply Z.mul_pos_pos; lia).
    assert (x * P * 2 <= x * P * Q) by (apply Z.mul_le_mono_nonneg_l; lia).
    apply (Z.mul_lt_mono_pos_r P); lia. }
  destruct (Z.compare_spec ea eb) as [-> | Hc | Hc].
  - change (Pos.compare_cont Eq ma mb) with (Z.pos ma ?= Z.pos mb).
    rewrite Ha, Hb. symmetry. apply Zmult_compare_compat_r.
    assert (0 < 2 ^ (- eb)) by (apply Z.pow_pos_nonneg; lia). lia.
  - symmetry. apply Z.compare_lt_iff. eapply (Hlt _ _ (Z.pos ma) (Z.pos mb) ea eb); lia.
  - symmetry. apply Z.compare_gt_iff. eapply (Hlt _ _ (Z.pos mb) (Z.pos ma) eb ea); lia.
Qed.

Lemma compare_of_Z (a b : Z) :
  - 2 ^ 53 < a < 2 ^ 53 -> - 2 ^ 53 < b < 2 ^ 53 ->
  SFcompare (of_Z a) (of_Z b) = Some (a ?= b).
Proof.
  intros Ha Hb.
  destruct a as [|a|a], b as [|b|b];
    try (destruct (of_Z_exact a) as (ma & ea & Ha1 & Ha2 & Hma & Hea & Hva); [lia|]);
    try (destruct (of_Z_exact b) as (mb & eb & Hb1 & Hb2 & Hmb & Heb & Hvb); [lia|]);
    rewrite ?Ha1, ?Ha2, ?Hb1, ?Hb2; try done.
  - cbn [SFcompare]. f_equal. apply compare_scaled; lia.
  - cbn [SFcompare]. f_equal.
    transitivity (CompOpp match ea ?= eb with
                          | Lt => Lt
                          | Gt => Gt
                          | Eq => Pos.compare_cont Eq ma mb
                          end); [by destruct (ea ?= eb)|].
    rewrite (compare_scaled a b ma mb ea eb) by lia.
    change (Z.neg a ?= Z.neg b) with (CompOpp (Z.pos a ?= Z.pos b)). done.
Qed.

(** Rounding a non-negative mantissa never gives NaN. *)
Lemma shr_fexp_nonneg m e l :
  0 <= m -> 0 <= shr_m (fst (shr_fexp prec emax m e l)).
Proof.
  intros Hm. unfold shr_fexp, shr.
  destruct (fexp prec emax (Zdigits2 m + e) - e) as [|n|n]; cbn [fst].
  - by rewrite shr_record_of_loc_m.
  - rewrite iter_shr_m; rewrite shr_record_of_loc_m; [|done].
    apply Z.div_pos; lia.
  - by rewrite shr_record_of_loc_m.
Qed.

Lemma round_nearest_even_nonneg m l : 0 <= m -> 0 <= round_nearest_even m l.
Proof. intros Hm. destruct (round_nearest_even_range m l) as [-> | ->]; lia. Qed.

Lemma binary_round_aux_not_nan s mx ex lx :
  0 <= mx -> binary_round_aux prec emax s mx ex lx <> NaN.
Proof.
  intros Hmx. unfold binary_round_aux.
  pose proof (shr_fexp_nonneg mx ex lx Hmx) as H1.
  destruct (shr_fexp prec emax mx ex lx) as [mrs1 e1]. cbn [fst] in H1.
  pose proof (shr_fexp_nonneg _ e1 loc_Exact
                (round_nearest_even_nonneg _ (loc_of_shr_record mrs1) H1)) as H2.
  destruct (shr_fexp prec emax _ e1 loc_Exact) as [mrs2 e2]. cbn [fst] in H2.
  destruct (shr_m mrs2); [done| |lia]. by destruct (e2 <=? emax - prec).
Qed.

Lemma of_Z_not_nan z : of_Z z <> NaN.
Proof.
  unfold of_Z, binary_normalize, binary_round.
  destruct z as [|p|p]; [done| |];
    destruct (shl_align _ _ _); by apply binary_round_aux_not_nan.
Qed.

Lemma div_finite_not_nan sa ma ea sb mb eb :
  div (S754_finite sa ma ea) (S754_finite sb mb eb) <> NaN.
Proof.
  unfold div, SFdiv, SFdiv_core_binary.
  set (m' := match _ with Z.pos _ => _ | _ => _ end).
  assert (0 <= m') as Hm'.
  { unfold m'. destruct (_ - _ - _) as [|s|s]; [lia| |lia].
    apply Z.shiftl_nonneg. lia. }
  pose proof (Z_div_mod m' (Z.pos mb) eq_refl) as Hdm.
  destruct (Z.div_eucl m' (Z.pos mb)) as [q r]. destruct Hdm as [Hq Hr].
  apply binary_round_aux_not_nan. nia.
Qed.

Lemma decimal_to_number_not_nan neg m e : decimal_to_number neg m e <> NaN.
Proof.
  unfold decimal_to_number. destruct m as [|p|p]; [done| |done].
  destruct e as [|k|k]; [apply of_Z_not_nan..|apply div_finite_not_nan].
Qed.

(** A Number that is not NaN and not [<= 0] is [> 0]. *)
Lemma positive_of_not_le x :
  is_nan x = false -> num_le x (of_Z 0) = false -> num_gt x (of_Z 0) = true.
Proof. by destruct x as [[]|[]| |[] ? ?]. Qed.

Lemma not_le_of_positive x :
  num_gt x (of_Z 0) = true -> is_nan x = false /\ num_le x (of_Z 0) = false.
Proof. by destruct x as [[]|[]| |[] ? ?]. Qed.

(** ** Parsing numbers *)

Lemma is_nan_false x : x <> NaN -> is_nan x = false.
Proof. by destruct x. Qed.

Lemma unsigned_decimal_not_nan neg s v rest :
  unsigned_decimal neg s = Some (v, rest) -> is_nan v = false.
Proof.
  unfold unsigned_decimal.
  destruct (strip_prefix "Infinity" s); [by intros [= <- _]|].
  destruct (digits 10 s 0 0) as [[ip ic] r1].
  destruct (match r1 with String _ _ => _ | EmptyString => _ end) as [[m fc] r2].
  destruct ((ic =? 0) && (fc =? 0)); [done|].
  destruct (exponent_part r2) as [[x rest']|]; intros [= <- _];
    apply is_nan_false, decimal_to_number_not_nan.
Qed.

Lemma decimal_literal_not_nan s v rest :
  decimal_literal s = Some (v, rest) -> is_nan v = false.
Proof.
  unfold decimal_literal. destruct s as [|c r]; [done|].
  destruct (Ascii.eqb c "-"); [apply unsigned_decimal_not_nan|].
  destruct (Ascii.eqb c "+"); apply unsigned_decimal_not_nan.
Qed.

(** The digits counted never fall below the count passed in. *)
Lemma digits_count base s acc count :
  count <= snd (fst (digits base s acc count)).
Proof.
  revert acc count. induction s as [|c s IH]; intros acc count; simpl; [lia|].
  destruct (digit_of base c); simpl; [|lia].
  specialize (IH (base * acc + z) (count + 1)). lia.
Qed.

(** A string that starts with the digit 0 starts with a decimal literal. *)
Lemma decimal_literal_zero_start r :
  exists res, decimal_literal (String "0" r) = Some res.
Proof.
  unfold decimal_literal.
  change (Ascii.eqb "0" "-") with false. change (Ascii.eqb "0" "+") with false.
  cbv iota. unfold unsigned_decimal.
  change (strip_prefix "Infinity" (String "0" r)) with (@None string).
  cbv iota.
  change (digits 10 (String "0" r) 0 0) with (digits 10 r (10 * 0 + 0) (0 + 1)).
  pose proof (digits_count 10 r (10 * 0 + 0) (0 + 1)) as Hcount.
  destruct (digits 10 r (10 * 0 + 0) (0 + 1)) as [[ip ic] r1]. simpl in Hcount.
  destruct (match r1 with String _ _ => _ | EmptyString => _ end) as [[m fc] r2].
  replace (ic =? 0) with false by lia. simpl.
  destruct (exponent_part r2) as [[x rest]|]; eauto.
Qed.

Lemma non_decimal_literal_zero_start t res :
  non_decimal_literal t = Some res -> exists r, t = String "0" r.
Proof.
  unfold non_decimal_literal. destruct t as [|z [|c r]]; try done.
  destruct (Ascii.eqb_spec z "0") as [->|]; [eauto|done].
Qed.

Lemma trimEnd_empty : trimEnd "" = "".
Proof. reflexivity. Qed.

Lemma trimStart_of_trim s : is_empty (trim s) = false -> is_empty (trimStart s) = false.
Proof.
  unfold trim. destruct (trimStart s) eqn:Hs; [|done]. by rewrite trimEnd_empty.
Qed.

(** When the whole string converts to a Number, its leading decimal
    literal is a Number too. *)
Lemma parseFloat_of_Number s :
  is_empty (trim s) = false -> isNaN s = false -> is_nan (parseFloat s) = false.
Proof.
  intros Htrim%trimStart_of_trim. unfold isNaN, Number, parseFloat. rewrite Htrim.
  destruct (non_decimal_literal (trimStart s)) as [res|] eqn:Hnd.
  - intros _. apply non_decimal_literal_zero_start in Hnd as [r ->].
    destruct (decimal_literal_zero_start r) as [[v rest] Hdec]. rewrite Hdec.
    by apply decimal_literal_not_nan in Hdec.
  - destruct (decimal_literal (trimStart s)) as [[v rest]|] eqn:Hdec; [|done].
    intros _. by apply decimal_literal_not_nan in Hdec.
Qed.

(** ** Sorting *)

Section Sorting.
Context {A : Type}.

Lemma insert_perm (g : A -> A -> bool) x l : insert g x l ≡ₚ x :: l.
Proof.
  induction l as [|y l IH]; simpl; [done|].
  destruct (g x y); [|done]. rewrite IH. apply Permutation_swap.
Qed.

Lemma isort_perm (g : A -> A -> bool) l : isort g l ≡ₚ l.
Proof.
  induction l as [|x l IH]; simpl; [done|]. by rewrite insert_perm, IH.
Qed.

Lemma isort_ext (g g' : A -> A -> bool) l :
  (forall x y, g x y = g' x y) -> isort g l = isort g' l.
Proof.
  intros Hg. induction l as [|x l IH]; simpl; [done|]. rewrite IH.
  generalize (isort g' l). intros s. induction s as [|y s IHs]; simpl; [done|].
  by rewrite Hg, IHs.
Qed.

Variable comparefn : A -> A -> completion number.
Variable value_of : A -> A -> number.

(** While the comparison function completes normally the sort is the
    insertion sort on the sign of its results. *)
Lemma sort_insert_normal x sorted :
  (forall y, y ∈ sorted -> comparefn x y = Normal (value_of x y)) ->
  sort_insert comparefn x sorted
  = Normal (insert (fun a b => num_gt (value_of a b) (of_Z 0)) x sorted).
Proof.
  induction sorted as [|y rest IH]; intros Hcmp; cbn [sort_insert insert]; [done|].
  rewrite (Hcmp y) by apply list_elem_of_here. cbn [mbind completion_bind].
  destruct (num_gt (value_of x y) (of_Z 0)); [|done].
  rewrite IH; [done|]. intros z Hz. apply Hcmp. by apply list_elem_of_further.
Qed.

Lemma Array_sort_normal items :
  (forall x y, x ∈ items -> y ∈ items -> comparefn x y = Normal (value_of x y)) ->
  Array_sort comparefn items
  = Normal (isort (fun a b => num_gt (value_of a b) (of_Z 0)) items).
Proof.
  induction items as [|x rest IH]; intros Hcmp; cbn [Array_sort isort]; [done|].
  rewrite IH; cbn [mbind completion_bind].
  - apply sort_insert_normal. intros y Hy. apply Hcmp; [apply list_elem_of_here|].
    apply list_elem_of_further.
    by rewrite <- (isort_perm (fun a b => num_gt (value_of a b) (of_Z 0)) rest).
  - intros y z Hy Hz. apply Hcmp; by apply list_elem_of_further.
Qed.

Variable rank : A -> Z.

(** An element only moves past elements of a strictly smaller rank,
    so the elements of any one rank stay in the order they had. *)
Lemma insert_stable r x l :
  List.filter (fun a => rank a =? r) (insert (fun a b => rank b <? rank a) x l)
  = List.filter (fun a => rank a =? r) (x :: l).
Proof.
  induction l as [|y l IH]; [done|].
  cbn [insert]. destruct (rank y <? rank x) eqn:Hxy; [|done].
  cbn [List.filter] in *. rewrite IH.
  destruct (rank x =? r) eqn:Hx, (rank y =? r) eqn:Hy; try done. lia.
Qed.

Lemma isort_stable r l :
  List.filter (fun a => rank a =? r) (isort (fun a b => rank b <? rank a) l)
  = List.filter (fun a => rank a =? r) l.
Proof.
  induction l as [|x l IH]; [done|].
  cbn [isort]. rewrite insert_stable. cbn [List.filter]. by rewrite IH.
Qed.

Lemma insert_sorted x l :
  StronglySorted (fun a b => rank a <= rank b) l ->
  StronglySorted (fun a b => rank a <= rank b)
    (insert (fun a b => rank b <? rank a) x l).
Proof.
  induction 1 as [|y l Hl IH Hy]; cbn [insert]; [repeat constructor|].
  destruct (rank y <? rank x) eqn:Hxy.
  - constructor; [done|].
    rewrite Forall_forall in *. intros z Hz.
    rewrite insert_perm in Hz. apply elem_of_cons in Hz as [->|Hz]; [lia|auto].
  - constructor; [by constructor|].
    constructor; [lia|]. eapply Forall_impl; [exact Hy|]. simpl. lia.
Qed.

Lemma isort_sorted l :
  StronglySorted (fun a b => rank a <= rank b)
    (isort (fun a b => rank b <? rank a) l).
Proof.
  induction l as [|x l IH]; cbn [isort]; [constructor|]. by apply insert_sorted.
Qed.

End Sorting.

Lemma rank_of_name_range name : 1 <= rank_of_name name <= 4.
Proof. unfold rank_of_name. repeat case_match; lia. Qed.

Lemma spec_rank_range task : 1 <= spec_rank task <= 4.
Proof.
  unfold spec_rank. destruct (get task "priority"); try lia. apply rank_of_name_range.
Qed.

(** The sign of a difference of two ranks, as the engine computes it. *)
Lemma rank_difference_sign x y :
  1 <= x <= 4 -> 1 <= y <= 4 ->
  num_gt (sub (of_Z x) (of_Z y)) (of_Z 0) = (y <? x).
Proof.
  intros Hx Hy.
  assert (x = 1 \/ x = 2 \/ x = 3 \/ x = 4) as Hx' by lia.
  assert (y = 1 \/ y = 2 \/ y = 3 \/ y = 4) as Hy' by lia.
  destruct Hx' as [->|[->|[->| ->]]], Hy' as [->|[->|[->| ->]]]; vm_compute; reflexivity.
Qed.

Lemma priority_of_text task :
  priority_is_text task -> exists r, priority_of task = Normal r.
Proof.
  unfold priority_is_text, priority_of. destruct (get task "priority"); simpl; try done; eauto.
Qed.

Lemma by_priority_text a b :
  priority_is_text a -> priority_is_text b ->
  by_priority a b = Normal (result_or NaN (by_priority a b)).
Proof.
  intros [ra Ha]%priority_of_text [rb Hb]%priority_of_text.
  unfold by_priority. by rewrite Ha, Hb.
Qed.

Lemma priority_of_own task :
  priority_is_text task -> own_or_absent task ->
  priority_of task = Normal (Some (spec_rank task)).
Proof.
  unfold priority_is_text, own_or_absent, priority_of, spec_rank.
  destruct (get task "priority") as [| | | |s]; simpl; try done.
  intros _ Hown. unfold priorityOrder, rank_of_name. simpl existsb. rewrite Hown.
  destruct (String.eqb (toLowerCase s) "high"); [done|].
  destruct (String.eqb (toLowerCase s) "medium"); [done|].
  by destruct (String.eqb (toLowerCase s) "low").
Qed.

Lemma by_priority_own a b :
  priority_is_text a -> own_or_absent a ->
  priority_is_text b -> own_or_absent b ->
  by_priority a b = Normal (sub (of_Z (spec_rank a)) (of_Z (spec_rank b))).
Proof.
  intros Ha Ha' Hb Hb'. unfold by_priority.
  by rewrite (priority_of_own a), (priority_of_own b).
Qed.

(** On tasks whose priorities are strings (or missing) that name no
    inherited member, the sort is insertion by the specification's
    rank. *)
Lemma Array_sort_by_rank items :
  Forall priority_is_text items -> Forall own_or_absent items ->
  Array_sort by_priority items
  = Normal (isort (fun x y => spec_rank y <? spec_rank x) items).
Proof.
  intros Htext Hown. rewrite Forall_forall in Htext, Hown.
  rewrite (Array_sort_normal by_priority
             (fun a b => sub (of_Z (spec_rank a)) (of_Z (spec_rank b)))).
  - f_equal. apply isort_ext. intros x y.
    apply rank_difference_sign; apply spec_rank_range.
  - intros x y Hx Hy. apply by_priority_own; auto.
Qed.

(** Stable and ascending on such lists: the result is a permutation
    ordered by rank in which the tasks of any one rank keep their
    order. *)
Lemma sort_stable_ascending items :
  Forall priority_is_text items -> Forall own_or_absent items ->
  exists sorted,
    Array_sort by_priority items = Normal sorted /\
    sorted ≡ₚ items /\
    StronglySorted (fun a b => spec_rank a <= spec_rank b) sorted /\
    forall r, List.filter (fun t => spec_rank t =? r) sorted
              = List.filter (fun t => spec_rank t =? r) items.
Proof.
  intros Htext Hown. eexists. split; [by apply Array_sort_by_rank|].
  split; [apply isort_perm|]. split; [apply isort_sorted|].
  intros r. apply isort_stable.
Qed.

(** The priorities Low, High, Medium, High come out as High, High,
    Medium, Low, the two Highs in the order they came in. *)
Lemma sort_low_high_medium_high :
  Array_sort by_priority
    [ prioritised "1" "Low"; prioritised "2" "High";
      prioritised "3" "Medium"; prioritised "4" "High" ]
  = Normal [ prioritised "2" "High"; prioritised "4" "High";
             prioritised "3" "Medium"; prioritised "1" "Low" ].
Proof. vm_compute. reflexivity. Qed.

(** Any capitalisation of a recognised name has the rank of the name;
    a missing or [null] priority and a string that names nothing the
    table holds or inherits have rank 4. *)
Lemma priority_of_recognised task s :
  get task "priority" = VStr s ->
  (toLowerCase s = "high" -> priority_of task = Normal (Some 1)) /\
  (toLowerCase s = "medium" -> priority_of task = Normal (Some 2)) /\
  (toLowerCase s = "low" -> priority_of task = Normal (Some 3)) /\
  (priorityOrder (toLowerCase s) = Absent -> priority_of task = Normal (Some 4)).
Proof.
  intros Hp. unfold priority_of. rewrite Hp. simpl.
  repeat split; intros H; by rewrite H.
Qed.

Lemma priority_of_missing task :
  get task "priority" = VUndefined \/ get task "priority" = VNull ->
  priority_of task = Normal (Some 4).
Proof. unfold priority_of. by intros [-> | ->]. Qed.

(** ** The store *)


Lemma parse_stringify_value v :
  representable v = true -> parse_value <$> stringify_value v = Some v.
Proof.
  destruct v as [| |b|x|s]; simpl; try done.
  destruct x as [[]| | |]; simpl; done.
Qed.

Lemma stringify_parse_value j : stringify_value (parse_value j) = Some j.
Proof. by destruct j. Qed.

Lemma representable_parse_value j : representable (parse_value j) = true.
Proof. by destruct j. Qed.

Lemma parse_stringify_task (task : Task) :
  JSON_safe task -> parse_value <$> omap stringify_value task = task.
Proof.
  intros Hsafe. apply map_eq. intros k.
  rewrite lookup_fmap, lookup_omap.
  destruct (task !! k) as [v|] eqn:Hk; simpl; [|done].
  apply (parse_stringify_value v), (Hsafe k v Hk).
Qed.

Lemma parse_stringify_tasks (tasks : list Task) :
  Forall JSON_safe tasks ->
  JSON_parse (JSON_stringify tasks) = Normal tasks.
Proof.
  intros Hsafe. simpl. f_equal. rewrite map_map.
  induction Hsafe as [|task tasks Htask _ IH]; simpl; [done|].
  by rewrite parse_stringify_task, IH.
Qed.

Lemma JSON_safe_parsed (o : gmap string json) : JSON_safe (parse_value <$> o).
Proof.
  intros k v. rewrite lookup_fmap. destruct (o !! k) as [j|]; simpl; [|done].
  intros [= <-]. apply representable_parse_value.
Qed.

Lemma JSON_parse_safe t tasks :
  JSON_parse t = Normal tasks -> Forall JSON_safe tasks.
Proof.
  destruct t as [|elements]; simpl; [done|]. intros [= <-].
  induction elements; simpl; constructor; auto using JSON_safe_parsed.
Qed.

(** What [getTasks] does, case by case. *)
Lemma getTasks_unfold st :
  getTasks st =
    (Normal (if getItem_fails st then []
             else match items st !! TASKS_STORAGE_KEY with
                  | Some (Emitted elements) => map (fmap parse_value) elements
                  | _ => []
                  end), st).
Proof.
  unfold getTasks, try_catch, mbind, async_bind, AsyncStorage_getItem, lift, mret, async_ret.
  destruct (getItem_fails st); [done|].
  destruct (items st !! TASKS_STORAGE_KEY) as [[|elements]|]; done.
Qed.

Lemma getTasks_safe st tasks st' :
  getTasks st = (Normal tasks, st') -> Forall JSON_safe tasks.
Proof.
  rewrite getTasks_unfold. intros [= <- _].
  destruct (getItem_fails st); [constructor|].
  destruct (items st !! TASKS_STORAGE_KEY) as [[|elements]|]; try constructor.
  apply (JSON_parse_safe (Emitted elements)). done.
Qed.

Lemma saveTasks_unfold tasks st :
  saveTasks tasks st =
    if setItem_fails st then (Normal false, st) else (Normal true, written tasks st).
Proof.
  unfold saveTasks, try_catch, mbind, async_bind, AsyncStorage_setItem, mret, async_ret, written.
  by destruct (setItem_fails st).
Qed.

Lemma getTasks_written tasks st :
  getItem_fails st = false ->
  Forall JSON_safe tasks ->
  getTasks (written tasks st) = (Normal tasks, written tasks st).
Proof.
  intros Hget Hsafe. rewrite getTasks_unfold. simpl. rewrite Hget.
  rewrite lookup_insert_eq. simpl. do 2 f_equal.
  pose proof (parse_stringify_tasks tasks Hsafe) as H. simpl in H. by injection H.
Qed.

Lemma updateTask_run taskId updates tasks st :
  getTasks st = (Normal tasks, st) ->
  updateTask taskId updates st =
    saveTasks
      (map (fun task =>
              if strict_eq (get task "id") taskId then spread task updates else task)
           tasks) st.
Proof.
  intros Hget. unfold updateTask, try_catch, mbind, async_bind. rewrite Hget.
  rewrite saveTasks_unfold. by destruct (setItem_fails st).
Qed.

Lemma deleteTask_run taskId tasks st :
  getTasks st = (Normal tasks, st) ->
  deleteTask taskId st =
    saveTasks
      (List.filter (fun task => negb (strict_eq (get task "id") taskId)) tasks) st.
Proof.
  intros Hget. unfold deleteTask, try_catch, mbind, async_bind. rewrite Hget.
  rewrite saveTasks_unfold. by destruct (setItem_fails st).
Qed.

(** Reading back what a write of [tasks] left: each task as
    [JSON.parse] gives it from its serialisation. *)
Lemma getTasks_written_any tasks st :
  getItem_fails st = false ->
  getTasks (written tasks st) =
    (Normal (map (fun task => parse_value <$> omap stringify_value task) tasks),
     written tasks st).
Proof.
  intros Hget. rewrite getTasks_unfold. simpl. rewrite Hget.
  rewrite lookup_insert_eq. simpl. by rewrite map_map.
Qed.

(** A property the partial update does not name keeps its value
    through the merge and the write. *)
Lemma merged_untouched (task updates : object) k :
  JSON_safe task -> updates !! k = None ->
  (parse_value <$> omap stringify_value (spread task updates)) !! k = task !! k.
Proof.
  intros Hsafe Hk. unfold spread.
  rewrite lookup_fmap, lookup_omap, lookup_union_r by done.
  destruct (task !! k) as [v|] eqn:Hv; simpl; [|done].
  apply (parse_stringify_value v), (Hsafe k v Hv).
Qed.

(** A property it names takes the new value. *)
Lemma merged_overwritten (task updates : object) k v :
  updates !! k = Some v -> representable v = true ->
  (parse_value <$> omap stringify_value (spread task updates)) !! k = Some v.
Proof.
  intros Hk Hv. unfold spread.
  rewrite lookup_fmap, lookup_omap, (lookup_union_Some_l _ _ _ _ Hk). simpl.
  by apply parse_stringify_value.
Qed.

Lemma filter_all {A} (f : A -> bool) (l : list A) :
  Forall (fun x => f x = true) l -> List.filter f l = l.
Proof.
  induction 1 as [|x l Hx _ IH]; simpl; [done|]. by rewrite Hx, IH.
Qed.

(** When the read is rejected [getTasks] gives the empty array, and an
    update that follows writes that back: the call returns [true] and
    the collection that was stored is gone. *)
Lemma updateTask_after_rejected_read :
  let st := {| items := items (written [sample_task "a1" false] working);
               getItem_fails := true; setItem_fails := false;
               removeItem_fails := false |} in
  fst (updateTask (VStr "zz") {[ "completed" := VBool true ]} st) = Normal true /\
  items (snd (updateTask (VStr "zz") {[ "completed" := VBool true ]} st))
    !! TASKS_STORAGE_KEY = Some (Emitted []).
Proof. split; reflexivity. Qed.

(** ** Progress *)

Lemma filter_length_le {A} (f : A -> bool) (l : list A) :
  (length (List.filter f l) <= length l)%nat.
Proof. induction l as [|x l IH]; simpl; [lia|]. destruct (f x); simpl; lia. Qed.

Lemma filter_none_length {A} (f : A -> bool) (l : list A) :
  length (List.filter f l) = length l -> List.filter f l = l.
Proof.
  induction l as [|x l IH]; simpl; [done|].
  pose proof (filter_length_le f l) as Hle. destruct (f x); simpl; [|lia].
  intros [= Hlen]. by rewrite IH.
Qed.

(** ** The message ladder *)

Lemma num_eq_of_Z a b :
  - 2 ^ 53 < a < 2 ^ 53 -> - 2 ^ 53 < b < 2 ^ 53 ->
  num_eq (of_Z a) (of_Z b) = (a =? b).
Proof.
  intros Ha Hb. unfold num_eq, SFeqb. rewrite compare_of_Z by done.
  destruct (Z.compare_spec a b) as [-> | Hlt | Hgt];
    [by rewrite Z.eqb_refl | |]; symmetry; apply Z.eqb_neq; lia.
Qed.

Lemma num_ge_of_Z a b :
  - 2 ^ 53 < a < 2 ^ 53 -> - 2 ^ 53 < b < 2 ^ 53 ->
  num_ge (of_Z a) (of_Z b) = (b <=? a).
Proof.
  intros Ha Hb. unfold num_ge, SFleb. rewrite compare_of_Z by done.
  unfold Z.leb. by destruct (b ?= a).
Qed.

Lemma num_gt_of_Z a b :
  - 2 ^ 53 < a < 2 ^ 53 -> - 2 ^ 53 < b < 2 ^ 53 ->
  num_gt (of_Z a) (of_Z b) = (b <? a).
Proof.
  intros Ha Hb. unfold num_gt, SFltb. rewrite compare_of_Z by done.
  unfold Z.ltb. by destruct (b ?= a).
Qed.

(** ** Validation *)

Lemma errors_of_shape b1 b2 b3 b4 b5 :
  (Nat.eqb (size (errors_of b1 b2 b3 b4 b5)) 0 = true <->
     b1 = false /\ b2 = false /\ b3 = false /\ b4 = false /\ b5 = false) /\
  (is_Some (errors_of b1 b2 b3 b4 b5 !! "subject") <-> b1 = true) /\
  (is_Some (errors_of b1 b2 b3 b4 b5 !! "topic") <-> b2 = true) /\
  (is_Some (errors_of b1 b2 b3 b4 b5 !! "studyTime") <-> b3 = true \/ b4 = true) /\
  (is_Some (errors_of b1 b2 b3 b4 b5 !! "deadline") <-> b5 = true).
Proof.
  destruct b1, b2, b3, b4, b5; vm_compute;
    repeat split; try done; try (intros [? [=]]); try (intros [[=]|[=]]);
    try (intros (? & ? & ? & ? & ?); done); eauto.
Qed.

Lemma validateForm_errors_of c f :
  validateForm c f =
    (errors_of (is_empty (trim (subject f))) (is_empty (trim (topic f)))
       (is_empty (trim (studyTime f)))
       (isNaN (studyTime f) || num_le (parseFloat (studyTime f)) (of_Z 0))
       (deadline f <? setHours_0 c (now c)),
     Nat.eqb (size (errors_of (is_empty (trim (subject f))) (is_empty (trim (topic f)))
                      (is_empty (trim (studyTime f)))
                      (isNaN (studyTime f) || num_le (parseFloat (studyTime f)) (of_Z 0))
                      (deadline f <? setHours_0 c (now c)))) 0).
Proof. reflexivity. Qed.

Lemma day_le_div day x : day <= x / msPerDay <-> day * msPerDay <= x.
Proof.
  unfold msPerDay. split.
  - intros H. pose proof (Z.mul_div_le x 86400000 ltac:(lia)). lia.
  - intros H. apply Z.div_le_lower_bound; lia.
Qed.

(** The deadline test compares local calendar days in a zone whose
    days begin at their midnights. *)
Lemma deadline_test c t :
  day_begins_at_midnight c ->
  setHours_0 c (now c) <= t <-> local_day c (now c) <= local_day c t.
Proof. intros Hzone. apply Hzone. Qed.

(** A zone with a fixed offset is one, and so is New York in the
    autumn of 2024. *)
Lemma fixed_offset_day_begins_at_midnight n offset :
  day_begins_at_midnight {| now := n; LocalTZA := fun _ _ => offset |}.
Proof.
  intros day t. unfold local_day. rewrite day_le_div. unfold UTC, local_time. simpl. lia.
Qed.

Lemma new_york_day_begins_at_midnight : day_begins_at_midnight new_york_noon.
Proof.
  intros day t. unfold local_day. rewrite day_le_div.
  unfold UTC, local_time, new_york_noon, new_york, msPerDay. simpl LocalTZA.
  destruct (Z.ltb_spec (day * 86400000) (86400000 * 20030 + 2 * 3600000)),
    (Z.ltb_spec t (86400000 * 20030 + 6 * 3600000)); lia.
Qed.

(** On the day the clocks go back there, today's midnight is 04:00Z
    and the next one 25 hours later; a deadline half an hour after
    that midnight, 04:30Z, is accepted, and one a millisecond before
    it is not. *)
Lemma validateForm_on_the_long_day :
  setHours_0 new_york_noon (now new_york_noon) = 86400000 * 20030 + 4 * 3600000 /\
  setHours_0 new_york_noon (now new_york_noon + 86400000)
  = setHours_0 new_york_noon (now new_york_noon) + 25 * 3600000 /\
  snd (validateForm new_york_noon
         (form_with_deadline (86400000 * 20030 + 4 * 3600000 + 1800000))) = true /\
  snd (validateForm new_york_noon
         (form_with_deadline (86400000 * 20030 + 4 * 3600000 - 1))) = false.
Proof. vm_compute. repeat split; reflexivity. Qed.

(** The study-time test, for a string that is not blank. *)
Lemma studyTime_test s :
  is_empty (trim s) = false ->
  isNaN s || num_le (parseFloat s) (of_Z 0) = false <->
  isNaN s = false /\ num_gt (parseFloat s) (of_Z 0) = true.
Proof.
  intros Htrim. rewrite orb_false_iff. split.
  - intros [Hnan Hle]. split; [done|].
    apply positive_of_not_le; [|done]. by apply parseFloat_of_Number.
  - intros [Hnan Hgt]. split; [done|]. by apply not_le_of_positive in Hgt as [_ ?].
Qed.

(** ** From the form to the store *)

(** A finite study time above 0 gives a task that JSON carries
    unchanged. *)
Lemma newTask_JSON_safe id deadlineISO createdAt f :
  is_finite (parseFloat (studyTime f)) = true ->
  num_gt (parseFloat (studyTime f)) (of_Z 0) = true ->
  JSON_safe (newTask id deadlineISO createdAt f).
Proof.
  unfold JSON_safe, newTask.
  generalize (parseFloat (studyTime f)) (trim (subject f)) (trim (topic f)).
  intros x s t Hfin Hpos.
  assert (representable (VNum x) = true) by (by destruct x as [[]|[]| |[] ? ?]).
  do 7 (apply map_Forall_insert_2; [done|]). by apply map_Forall_singleton.
Qed.

(** A study time that parses to [Infinity] passes validation and is
    stored as [null]. *)
Lemma task_with_infinite_studyTime :
  snd (validateForm at_day_20000 (form_with_studyTime "Infinity")) = true /\
  fst (getTasks
         (snd (addTask (newTask "k1" "2024-10-04T00:00:05.000Z" "2024-10-04T00:00:01.000Z"
                          (form_with_studyTime "Infinity")) working)))
  = Normal [ <["studyTime" := VNull]>
               (newTask "k1" "2024-10-04T00:00:05.000Z" "2024-10-04T00:00:01.000Z"
                  (form_with_studyTime "Infinity")) ].
Proof. split; vm_compute; reflexivity. Qed.

(** * The claims *)

(** C1. After [saveTasks(tasks)] has gone through, [getTasks()] returns
    [tasks]: the same tasks, every field as it was, in the same order.
    This holds for the empty array and for any array of tasks whose
    fields JSON can carry, while the store accepts the two calls. *)
Theorem saveTasks_getTasks_roundtrip (tasks : list Task) (st : AsyncStorage) :
  Forall JSON_safe tasks ->
  available st ->
  exists st',
    saveTasks tasks st = (Normal true, st') /\
    getTasks st' = (Normal tasks, st').
Proof.
  intros Hsafe [Hget Hset]. exists (written tasks st). split.
  - rewrite saveTasks_unfold. by rewrite Hset.
  - by apply getTasks_written.
Qed.

Lemma saveTasks_getTasks_roundtrip_witness :
  exists st',
    saveTasks [sample_task "a1" true; sample_task "b2" false] working = (Normal true, st') /\
    getTasks st' = (Normal [sample_task "a1" true; sample_task "b2" false], st').
Proof.
  apply saveTasks_getTasks_roundtrip.
  - constructor; [|constructor; [|constructor]];
      apply (bool_decide_unpack _); vm_compute; reflexivity.
  - split; reflexivity.
Defined.

Lemma roundtrip_of_empty :
  exists st', saveTasks [] working = (Normal true, st') /\ getTasks st' = (Normal [], st').
Proof. eexists. split; reflexivity. Qed.

(** C2. [updateTask(taskId, updates)] on a stored collection returns
    [true] and leaves a collection of the same length and order in
    which a task with another id is as it was and a task with that id
    keeps every field [updates] does not name and takes the fields it
    names; with [{completed: true}] such a task changes in [completed]
    and in nothing else. *)
Theorem updateTask_frame (taskId : value) (updates : object)
    (tasks : list Task) (st : AsyncStorage) :
  available st ->
  getTasks st = (Normal tasks, st) ->
  exists st' tasks',
    updateTask taskId updates st = (Normal true, st') /\
    getTasks st' = (Normal tasks', st') /\
    length tasks' = length tasks /\
    forall i task, tasks !! i = Some task ->
      exists task', tasks' !! i = Some task' /\
        (strict_eq (get task "id") taskId = false -> task' = task) /\
        (strict_eq (get task "id") taskId = true ->
           (forall k, updates !! k = None -> task' !! k = task !! k) /\
           (forall k v, updates !! k = Some v -> representable v = true ->
                        task' !! k = Some v) /\
           (updates = {[ "completed" := VBool true ]} ->
            task' = <["completed" := VBool true]> task)).
Proof.
  intros [Hget Hset] Hstored.
  pose proof (getTasks_safe _ _ _ Hstored) as Hsafe.
  rewrite (updateTask_run _ _ _ _ Hstored), saveTasks_unfold, Hset.
  eexists _, _. split; [done|]. split; [by apply getTasks_written_any|].
  split; [by rewrite !length_map|].
  intros i task Hi. rewrite !list_lookup_fmap, Hi. simpl.
  eexists. split; [done|].
  assert (JSON_safe task) as Htask.
  { rewrite Forall_forall in Hsafe. apply Hsafe. by eapply list_elem_of_lookup_2. }
  destruct (strict_eq (get task "id") taskId); split; intros H; try done.
  - split; [|split].
    + intros k Hk. by apply merged_untouched.
    + intros k v Hk Hv. by apply merged_overwritten.
    + intros ->. apply map_eq. intros k.
      destruct (decide (k = "completed")) as [->|Hne].
      * rewrite lookup_insert_eq. by apply merged_overwritten.
      * rewrite lookup_insert_ne by done.
        apply merged_untouched; [done|]. by rewrite lookup_singleton_ne.
  - by apply parse_stringify_task.
Qed.

Lemma updateTask_frame_witness :
  exists st' tasks',
    updateTask (VStr "b2") {[ "completed" := VBool true ]}
      (written [sample_task "a1" false; sample_task "b2" false] working) = (Normal true, st') /\
    getTasks st' = (Normal tasks', st') /\
    length tasks' = length [sample_task "a1" false; sample_task "b2" false] /\
    forall i task, [sample_task "a1" false; sample_task "b2" false] !! i = Some task ->
      exists task', tasks' !! i = Some task' /\
        (strict_eq (get task "id") (VStr "b2") = false -> task' = task) /\
        (strict_eq (get task "id") (VStr "b2") = true ->
           (forall k, ({[ "completed" := VBool true ]} : object) !! k = None ->
                      task' !! k = task !! k) /\
           (forall k v, ({[ "completed" := VBool true ]} : object) !! k = Some v ->
                        representable v = true -> task' !! k = Some v) /\
           (({[ "completed" := VBool true ]} : object) = {[ "completed" := VBool true ]} ->
            task' = <["completed" := VBool true]> task)).
Proof.
  apply updateTask_frame.
  - split; reflexivity.
  - vm_compute. reflexivity.
Defined.

(** C3, at a priority that names an inherited member of the lookup
    table: the comparison function returns NaN for that task against
    any other, though it puts Low after High, and Low stays ahead of
    High in the result. *)
Theorem sort_inherited_name_not_ascending :
  by_priority (prioritised "1" "Low") (prioritised "2" "constructor") = Normal NaN /\
  by_priority (prioritised "2" "constructor") (prioritised "3" "High") = Normal NaN /\
  by_priority (prioritised "1" "Low") (prioritised "3" "High") = Normal (of_Z 2) /\
  Array_sort by_priority
    [ prioritised "1" "Low"; prioritised "2" "constructor"; prioritised "3" "High" ]
  = Normal [ prioritised "1" "Low"; prioritised "2" "constructor"; prioritised "3" "High" ] /\
  map spec_rank
    [ prioritised "1" "Low"; prioritised "2" "constructor"; prioritised "3" "High" ]
  = [3; 4; 1].
Proof. vm_compute. repeat split; reflexivity. Qed.

(** C4. An id that no stored task has: [updateTask] and [deleteTask]
    both return [true] and the stored collection is what it was, the
    same tasks in the same order. *)
Theorem not_found_is_noop (taskId : value) (updates : object)
    (tasks : list Task) (st : AsyncStorage) :
  available st ->
  getTasks st = (Normal tasks, st) ->
  Forall (fun task => strict_eq (get task "id") taskId = false) tasks ->
  (exists st', updateTask taskId updates st = (Normal true, st') /\
               getTasks st' = (Normal tasks, st')) /\
  (exists st', deleteTask taskId st = (Normal true, st') /\
               getTasks st' = (Normal tasks, st')).
Proof.
  intros [Hget Hset] Hstored Hnone.
  pose proof (getTasks_safe _ _ _ Hstored) as Hsafe.
  split.
  - rewrite (updateTask_run _ _ _ _ Hstored), saveTasks_unfold, Hset.
    eexists. split; [done|].
    replace (map _ tasks) with tasks; [by apply getTasks_written|].
    clear -Hnone. induction Hnone as [|task tasks Hx _ IH]; simpl; [done|].
    by rewrite Hx, <- IH.
  - rewrite (deleteTask_run _ _ _ Hstored), saveTasks_unfold, Hset.
    eexists. split; [done|].
    rewrite filter_all; [by apply getTasks_written|].
    eapply Forall_impl; [exact Hnone|]. simpl. by intros task ->.
Qed.

Lemma not_found_is_noop_witness :
  (exists st', updateTask (VStr "zz") {[ "completed" := VBool true ]}
                 (written [sample_task "a1" false; sample_task "b2" true] working)
               = (Normal true, st') /\
               getTasks st' = (Normal [sample_task "a1" false; sample_task "b2" true], st')) /\
  (exists st', deleteTask (VStr "zz")
                 (written [sample_task "a1" false; sample_task "b2" true] working)
               = (Normal true, st') /\
               getTasks st' = (Normal [sample_task "a1" false; sample_task "b2" true], st')).
Proof.
  apply not_found_is_noop.
  - split; reflexivity.
  - vm_compute. reflexivity.
  - repeat constructor.
Defined.

(** C5, as the specification words it, fails: of 40 tasks with 23
    completed the exact percentage is 57.5, which rounds to 58, and the
    function returns 57, since the double nearest to 23/40 times 100 is
    just below 57.5. *)
Lemma calculateProgress_not_round_of_ratio :
  length (progress_sample 23 17) = 40%nat /\
  length (completed_of (progress_sample 23 17)) = 23%nat /\
  calculateProgress (Some (progress_sample 23 17)) = of_Z 57 /\
  spec_progressPercent 23 40 = 58 /\
  spec_progressPercent_even 23 40 = 58 /\
  calculateProgress (Some (progress_sample 23 17)) <> of_Z (spec_progressPercent 23 40).
Proof. vm_compute. repeat split; done. Qed.

(** C5, amended.  For a list of fewer than 2^32 tasks (any array),
    [calculateProgress] returns an integer [k] within one half of
    [100 * completed / total]: the nearest integer, and either
    neighbour when the percentage lies exactly halfway.  Hence [k] is
    between 0 and 100, it is 0 for the empty list and when no task is
    completed, and 100 when every task is.  A [null] or [undefined]
    argument gives 0. *)
Theorem calculateProgress_nearest (tasks : list Task) :
  Z.of_nat (length tasks) < 2 ^ 32 ->
  exists k,
    calculateProgress (Some tasks) = of_Z k /\
    0 <= k <= 100 /\
    Z.abs (2 * Z.of_nat (length tasks) * k
           - 200 * Z.of_nat (length (completed_of tasks)))
      <= Z.of_nat (length tasks) /\
    (tasks = [] -> k = 0) /\
    (completed_of tasks = [] -> k = 0) /\
    (tasks <> [] -> completed_of tasks = tasks -> k = 100) /\
    calculateProgress None = of_Z 0.
Proof.
  intros Hlen. unfold calculateProgress.
  pose proof (filter_length_le (fun task => truthy (get task "completed")) tasks) as Hle.
  fold (completed_of tasks) in Hle.
  destruct (Nat.eqb_spec (length tasks) 0) as [Hn|Hn].
  { exists 0. rewrite Hn. assert (length (completed_of tasks) = 0%nat) as -> by lia.
    apply length_zero_iff_nil in Hn as ->. repeat split; done. }
  assert (tasks <> []) as Hne by (by intros ->).
  destruct (Z.of_nat (length tasks)) as [|n|n] eqn:Hzn; [lia| |lia].
  destruct (Z.of_nat (length (completed_of tasks))) as [|c|c] eqn:Hzc; [| |lia].
  - exists 0.
    destruct (F2R_of_Z n) as (mb & eb & -> & _); [lia|].
    destruct (F2R_of_Z 100) as (mh & eh & -> & _); [done|].
    split; [done|]. split; [lia|]. split; [lia|]. repeat split; try done.
    intros _ Hall. rewrite Hall in Hzc. lia.
  - destruct (progress_nearest c n) as (k & Hk & Hnear); [lia..|].
    exists k. split; [done|].
    apply Z.abs_le in Hnear.
    split; [nia|]. split; [by apply Z.abs_le|].
    split; [done|]. split; [|split; [|done]].
    + intros Hnone. rewrite Hnone in Hzc. done.
    + intros _ Hall. rewrite Hall, Hzn in Hzc. injection Hzc as <-. nia.
Qed.

Lemma calculateProgress_nearest_witness :
  exists k,
    calculateProgress (Some (progress_sample 23 17)) = of_Z k /\
    0 <= k <= 100 /\
    Z.abs (2 * Z.of_nat (length (progress_sample 23 17)) * k
           - 200 * Z.of_nat (length (completed_of (progress_sample 23 17))))
      <= Z.of_nat (length (progress_sample 23 17)) /\
    (progress_sample 23 17 = [] -> k = 0) /\
    (completed_of (progress_sample 23 17) = [] -> k = 0) /\
    (progress_sample 23 17 <> [] ->
     completed_of (progress_sample 23 17) = progress_sample 23 17 -> k = 100) /\
    calculateProgress None = of_Z 0.
Proof.
  apply calculateProgress_nearest. vm_compute. reflexivity.
Defined.

(** C6, as the specification words it, fails: the string "Infinity",
    and a run of 400 digits, are accepted, and neither parses to a
    finite number. *)
Lemma validateForm_accepts_Infinity :
  snd (validateForm at_day_20000 (form_with_studyTime "Infinity")) = true /\
  parseFloat "Infinity" = Infinity /\
  is_finite (parseFloat "Infinity") = false /\
  snd (validateForm at_day_20000 (form_with_studyTime (nines 400))) = true /\
  parseFloat (nines 400) = Infinity.
Proof. vm_compute. repeat split; reflexivity. Qed.

(** C6, amended.  [validateForm] returns [true] exactly when subject
    and topic are not blank, the study time is not blank, converts to a
    Number that is not NaN and parses to a Number above 0 (which may be
    [Infinity]), and the deadline is not before the midnight that began
    today's local day, as the platform's time zone places it.  Each
    field that fails has its own entry in the error object, whatever
    the other fields do.  In a zone whose days begin at their
    midnights, on a day the clocks change as on any other, the
    deadline test is the comparison of local calendar days: the
    deadline passes when it falls on today's local day or a later
    one. *)
Theorem validateForm_accepts (c : clock) (f : form) :
  (snd (validateForm c f) = true <->
     is_empty (trim (subject f)) = false /\
     is_empty (trim (topic f)) = false /\
     is_empty (trim (studyTime f)) = false /\
     isNaN (studyTime f) = false /\
     num_gt (parseFloat (studyTime f)) (of_Z 0) = true /\
     setHours_0 c (now c) <= deadline f) /\
  (is_Some (fst (validateForm c f) !! "subject") <->
     is_empty (trim (subject f)) = true) /\
  (is_Some (fst (validateForm c f) !! "topic") <->
     is_empty (trim (topic f)) = true) /\
  (is_Some (fst (validateForm c f) !! "studyTime") <->
     is_empty (trim (studyTime f)) = true \/
     isNaN (studyTime f) = true \/
     num_le (parseFloat (studyTime f)) (of_Z 0) = true) /\
  (is_Some (fst (validateForm c f) !! "deadline") <->
     deadline f < setHours_0 c (now c)) /\
  (day_begins_at_midnight c ->
   (setHours_0 c (now c) <= deadline f <->
      local_day c (now c) <= local_day c (deadline f)) /\
   (deadline f < setHours_0 c (now c) <->
      local_day c (deadline f) < local_day c (now c))).
Proof.
  rewrite validateForm_errors_of. cbn [fst snd].
  destruct (errors_of_shape
              (is_empty (trim (subject f))) (is_empty (trim (topic f)))
              (is_empty (trim (studyTime f)))
              (isNaN (studyTime f) || num_le (parseFloat (studyTime f)) (of_Z 0))
              (deadline f <? setHours_0 c (now c)))
    as (Hok & Hsubject & Htopic & Htime & Hdeadline).
  split; [|split; [done|split; [done|split; [|split]]]].
  - rewrite Hok. split.
    + intros (H1 & H2 & H3 & H4 & H5). repeat split; try done.
      * by apply (studyTime_test _ H3).
      * by apply (studyTime_test _ H3).
      * by apply Z.ltb_ge.
    + intros (H1 & H2 & H3 & H4 & H5 & H6). repeat split; try done.
      * by apply (studyTime_test _ H3).
      * by apply Z.ltb_ge.
  - rewrite Htime, orb_true_iff. tauto.
  - rewrite Hdeadline. apply Z.ltb_lt.
  - intros Hzone. pose proof (deadline_test c (deadline f) Hzone) as Hday. lia.
Qed.

Lemma validateForm_accepts_witness :
  day_begins_at_midnight new_york_noon /\
  snd (validateForm new_york_noon
         (form_with_deadline (86400000 * 20030 + 4 * 3600000 + 1800000))) = true /\
  local_day new_york_noon (now new_york_noon)
  <= local_day new_york_noon (86400000 * 20030 + 4 * 3600000 + 1800000).
Proof.
  destruct (validateForm_accepts new_york_noon
              (form_with_deadline (86400000 * 20030 + 4 * 3600000 + 1800000)))
    as (Haccepts & _ & _ & _ & _ & Hday).
  split; [apply new_york_day_begins_at_midnight|]. split.
  - apply Haccepts. vm_compute. repeat split; try reflexivity. intros H. discriminate H.
  - apply Hday; [apply new_york_day_begins_at_midnight|].
    vm_compute. intros H. discriminate H.
Defined.

(** All four fields at fault are reported together. *)
Lemma validateForm_reports_all_fields :
  size (fst (validateForm at_day_20000
               {| subject := "  "; topic := ""; studyTime := "abc";
                  deadline := 0; priority := "Medium" |})) = 4%nat.
Proof. vm_compute. reflexivity. Qed.

(** C7. On an integer percentage the message is that of the six-rung
    ladder: 100, at least 75, at least 50, at least 25, above 0, and
    the rest.  The six messages differ from one another, so 100 and 99
    read differently, and 75, 50 and 25 each open their rung. *)
Theorem getMotivationalMessage_ladder (percent : Z) :
  - 2 ^ 53 < percent < 2 ^ 53 ->
  getMotivationalMessage (of_Z percent) = ladder percent /\
  getMotivationalMessage (of_Z 100) = perfect /\
  getMotivationalMessage (of_Z 99) = almost_there /\
  getMotivationalMessage (of_Z 75) = almost_there /\
  getMotivationalMessage (of_Z 74) = great_progress /\
  getMotivationalMessage (of_Z 50) = great_progress /\
  getMotivationalMessage (of_Z 49) = good_start /\
  getMotivationalMessage (of_Z 25) = good_start /\
  getMotivationalMessage (of_Z 24) = started /\
  getMotivationalMessage (of_Z 1) = started /\
  getMotivationalMessage (of_Z 0) = nothing_yet /\
  NoDup (map message
           [perfect; almost_there; great_progress; good_start; started; nothing_yet]) /\
  NoDup (map emoji
           [perfect; almost_there; great_progress; good_start; started; nothing_yet]).
Proof.
  intros Hp. split.
  - unfold getMotivationalMessage, ladder.
    rewrite num_eq_of_Z, !num_ge_of_Z, num_gt_of_Z by (try done; lia).
    reflexivity.
  - repeat split; try (vm_compute; reflexivity);
      apply (bool_decide_unpack _); vm_compute; reflexivity.
Qed.

Lemma getMotivationalMessage_ladder_witness :
  getMotivationalMessage (of_Z 57) = ladder 57 /\
  getMotivationalMessage (of_Z 100) = perfect /\
  getMotivationalMessage (of_Z 99) = almost_there /\
  getMotivationalMessage (of_Z 75) = almost_there /\
  getMotivationalMessage (of_Z 74) = great_progress /\
  getMotivationalMessage (of_Z 50) = great_progress /\
  getMotivationalMessage (of_Z 49) = good_start /\
  getMotivationalMessage (of_Z 25) = good_start /\
  getMotivationalMessage (of_Z 24) = started /\
  getMotivationalMessage (of_Z 1) = started /\
  getMotivationalMessage (of_Z 0) = nothing_yet /\
  NoDup (map message
           [perfect; almost_there; great_progress; good_start; started; nothing_yet]) /\
  NoDup (map emoji
           [perfect; almost_there; great_progress; good_start; started; nothing_yet]).
Proof.
  apply getMotivationalMessage_ladder. lia.
Defined.

(** C8. [getTasks] always completes normally and leaves the store as it
    was.  It returns the array the stored text denotes, in its order,
    and the empty array when the key is missing, when the text does not
    parse, or when the read is rejected. *)
Theorem getTasks_never_fails (st : AsyncStorage) :
  exists tasks,
    getTasks st = (Normal tasks, st) /\
    match getItem_fails st, items st !! TASKS_STORAGE_KEY with
    | false, Some t =>
        match JSON_parse t with
        | Normal stored => tasks = stored
        | Throw _ => tasks = []
        end
    | false, None => tasks = []
    | true, _ => tasks = []
    end.
Proof.
  eexists. split; [apply getTasks_unfold|].
  destruct (getItem_fails st); [done|].
  destruct (items st !! TASKS_STORAGE_KEY) as [[|elements]|]; done.
Qed.

(** C9. [sortByPriority] leaves its argument as it was, whatever it
    holds.  When the priorities are strings (or missing) it returns a
    new array holding the tasks of the argument, each as often as it
    occurs there, and every other array is as it was. *)
Theorem sortByPriority_permutes (tasks : nat) (items : list Task) (h : heap) :
  h !! tasks = Some items ->
  snd (sortByPriority tasks h) !! tasks = Some items /\
  (Forall priority_is_text items ->
   exists copy sorted h',
     sortByPriority tasks h = (Normal copy, h') /\
     h' !! copy = Some sorted /\
     sorted ≡ₚ items /\
     copy ≠ tasks /\
     forall l, l ≠ copy -> h' !! l = h !! l).
Proof.
  intros Hitems. unfold sortByPriority, alloc. rewrite Hitems.
  assert (fresh (dom h) ≠ tasks) as Hfresh.
  { intros Heq. apply (is_fresh (dom h)). rewrite Heq. by apply elem_of_dom. }
  split.
  - destruct (Array_sort by_priority items); cbn [snd]; by rewrite !lookup_insert_ne.
  - intros Htext. rewrite Forall_forall in Htext.
    rewrite (Array_sort_normal by_priority (fun a b => result_or NaN (by_priority a b)))
      by (intros x y Hx Hy; apply by_priority_text; auto).
    eexists _, _, _. split; [done|].
    split; [by rewrite lookup_insert_eq|].
    split; [apply isort_perm|].
    split; [done|].
    intros l Hl. by rewrite !lookup_insert_ne.
Qed.

Lemma sortByPriority_permutes_witness :
  snd (sortByPriority 0%nat
         {[ 0%nat := [ prioritised "1" "Low"; prioritised "2" "constructor";
                       prioritised "3" "High" ] ]}) !! 0%nat
  = Some [ prioritised "1" "Low"; prioritised "2" "constructor"; prioritised "3" "High" ] /\
  (Forall priority_is_text
     [ prioritised "1" "Low"; prioritised "2" "constructor"; prioritised "3" "High" ] ->
   exists copy sorted h',
     sortByPriority 0%nat
       {[ 0%nat := [ prioritised "1" "Low"; prioritised "2" "constructor";
                     prioritised "3" "High" ] ]} = (Normal copy, h') /\
     h' !! copy = Some sorted /\
     sorted ≡ₚ [ prioritised "1" "Low"; prioritised "2" "constructor";
                 prioritised "3" "High" ] /\
     copy ≠ 0%nat /\
     forall l, l ≠ copy -> h' !! l =
       ({[ 0%nat := [ prioritised "1" "Low"; prioritised "2" "constructor";
                      prioritised "3" "High" ] ]} : heap) !! l).
Proof.
  apply sortByPriority_permutes. reflexivity.
Defined.

(** C10, at the same priority: the table yields the inherited
    [constructor] member, which is truthy, so the rank is not 4;
    [getPriorityColor] takes its default branch for that name. *)
Theorem priority_of_inherited_name :
  priorityOrder (toLowerCase "Constructor") = Inherited /\
  priority_of (prioritised "2" "Constructor") = Normal None /\
  priority_of (prioritised "2" "__proto__") = Normal None /\
  spec_rank (prioritised "2" "Constructor") = 4 /\
  getPriorityColor (VStr "Constructor") = Normal "#747D8C".
Proof. vm_compute. repeat split; reflexivity. Qed.

(** * Further properties *)

(** ** The store *)

Lemma getTasks_stored st : getTasks st = (Normal (stored st), st).
Proof. unfold stored. by rewrite getTasks_unfold. Qed.

Lemma stored_safe st : Forall JSON_safe (stored st).
Proof. apply (getTasks_safe st (stored st) st), getTasks_stored. Qed.

Lemma stored_written tasks st :
  getItem_fails st = false -> stored (written tasks st) = map reread tasks.
Proof. intros Hget. unfold stored. by rewrite getTasks_written_any. Qed.

Lemma reread_safe task : JSON_safe task -> reread task = task.
Proof. apply parse_stringify_task. Qed.

Lemma reread_reread task : reread (reread task) = reread task.
Proof. apply reread_safe, JSON_safe_parsed. Qed.

Lemma map_reread_safe tasks : Forall JSON_safe tasks -> map reread tasks = tasks.
Proof.
  induction 1 as [|task tasks Htask _ IH]; simpl; [done|].
  by rewrite reread_safe, IH.
Qed.

Lemma addTask_run newTask tasks st :
  getTasks st = (Normal tasks, st) ->
  addTask newTask st = saveTasks (tasks ++ [newTask])%list st.
Proof.
  intros Hget. unfold addTask, try_catch, mbind, async_bind. rewrite Hget.
  rewrite saveTasks_unfold. by destruct (setItem_fails st).
Qed.

Lemma clearAllTasks_unfold st :
  clearAllTasks st =
    if removeItem_fails st then (Normal false, st) else (Normal true, removed st).
Proof.
  unfold clearAllTasks, try_catch, mbind, async_bind, AsyncStorage_removeItem,
    mret, async_ret, removed.
  by destruct (removeItem_fails st).
Qed.

(** X1. A store operation never throws.  [saveTasks], [addTask],
    [updateTask] and [deleteTask] return [false] and leave the store as
    it was when the write is rejected, and return [true] when it is
    accepted, whatever the read before it gave; [clearAllTasks] does
    the same with the removal. *)
Theorem store_operations_never_throw (tasks : list Task) (newTask : Task)
    (taskId : value) (updates : object) (st : AsyncStorage) :
  (if setItem_fails st
   then saveTasks tasks st = (Normal false, st) /\
        addTask newTask st = (Normal false, st) /\
        updateTask taskId updates st = (Normal false, st) /\
        deleteTask taskId st = (Normal false, st)
   else fst (saveTasks tasks st) = Normal true /\
        fst (addTask newTask st) = Normal true /\
        fst (updateTask taskId updates st) = Normal true /\
        fst (deleteTask taskId st) = Normal true) /\
  (if removeItem_fails st
   then clearAllTasks st = (Normal false, st)
   else fst (clearAllTasks st) = Normal true).
Proof.
  rewrite (addTask_run _ _ _ (getTasks_stored st)),
    (updateTask_run _ _ _ _ (getTasks_stored st)),
    (deleteTask_run _ _ _ (getTasks_stored st)),
    !saveTasks_unfold, clearAllTasks_unfold.
  by destruct (setItem_fails st), (removeItem_fails st).
Qed.

(** X2. [addTask(newTask)] on a stored collection returns [true], and
    the collection read afterwards is the old one with [newTask] at
    its end: one task longer, the tasks that were there unchanged and
    in their order. *)
Theorem addTask_appends (newTask : Task) (tasks : list Task) (st : AsyncStorage) :
  available st ->
  getTasks st = (Normal tasks, st) ->
  JSON_safe newTask ->
  exists st',
    addTask newTask st = (Normal true, st') /\
    getTasks st' = (Normal (tasks ++ [newTask])%list, st') /\
    (forall key, key <> TASKS_STORAGE_KEY -> items st' !! key = items st !! key).
Proof.
  intros [Hget Hset] Hstored Hsafe.
  pose proof (getTasks_safe _ _ _ Hstored) as Hold.
  rewrite (addTask_run _ _ _ Hstored), saveTasks_unfold, Hset.
  eexists. split; [done|]. split.
  - apply getTasks_written; [done|]. apply Forall_app. split; [done|]. by constructor.
  - intros key Hkey. simpl. by rewrite lookup_insert_ne.
Qed.

Lemma addTask_appends_witness :
  exists st',
    addTask (prioritised "c3" "High")
      (written [prioritised "a1" "High"; prioritised "b2" "Medium"] working)
    = (Normal true, st') /\
    getTasks st'
    = (Normal ([prioritised "a1" "High"; prioritised "b2" "Medium"]
               ++ [prioritised "c3" "High"])%list, st') /\
    (forall key, key <> TASKS_STORAGE_KEY ->
       items st' !! key
       = items (written [prioritised "a1" "High"; prioritised "b2" "Medium"] working) !! key).
Proof.
  apply addTask_appends.
  - split; reflexivity.
  - vm_compute. reflexivity.
  - apply (bool_decide_unpack _). vm_compute. reflexivity.
Defined.

(** X3. [deleteTask(taskId)] on a stored collection returns [true] and
    leaves exactly the tasks whose id is not [taskId], in the order
    they had: every task with that id is gone, however many there
    were, and no other task is touched. *)
Theorem deleteTask_removes (taskId : value) (tasks : list Task) (st : AsyncStorage) :
  available st ->
  getTasks st = (Normal tasks, st) ->
  exists st' remaining,
    deleteTask taskId st = (Normal true, st') /\
    getTasks st' = (Normal remaining, st') /\
    remaining
    = List.filter (fun task => negb (strict_eq (get task "id") taskId)) tasks /\
    Forall (fun task => strict_eq (get task "id") taskId = false) remaining /\
    (length remaining <= length tasks)%nat /\
    (forall key, key <> TASKS_STORAGE_KEY -> items st' !! key = items st !! key).
Proof.
  intros [Hget Hset] Hstored.
  pose proof (getTasks_safe _ _ _ Hstored) as Hsafe.
  rewrite (deleteTask_run _ _ _ Hstored), saveTasks_unfold, Hset.
  eexists. eexists. split; [done|]. split; [|split; [done|]].
  - apply getTasks_written; [done|].
    rewrite List.Forall_forall in *. intros task Hin.
    apply List.filter_In in Hin as [Hin _]. auto.
  - split; [|split].
    + rewrite List.Forall_forall. intros task Hin.
      apply List.filter_In in Hin as [_ Hin]. by apply negb_true_iff.
    + apply filter_length_le.
    + intros key Hkey. simpl. by rewrite lookup_insert_ne.
Qed.

Lemma deleteTask_removes_witness :
  exists st' remaining,
    deleteTask (VStr "a1")
      (written [prioritised "a1" "High"; prioritised "b2" "Medium"; prioritised "a1" "Low"]
         working)
    = (Normal true, st') /\
    getTasks st' = (Normal remaining, st') /\
    remaining
    = List.filter (fun task => negb (strict_eq (get task "id") (VStr "a1")))
        [prioritised "a1" "High"; prioritised "b2" "Medium"; prioritised "a1" "Low"] /\
    Forall (fun task => strict_eq (get task "id") (VStr "a1") = false) remaining /\
    (length remaining
     <= length [prioritised "a1" "High"; prioritised "b2" "Medium"; prioritised "a1" "Low"])%nat /\
    (forall key, key <> TASKS_STORAGE_KEY ->
       items st' !! key
       = items (written [prioritised "a1" "High"; prioritised "b2" "Medium";
                         prioritised "a1" "Low"] working) !! key).
Proof.
  apply deleteTask_removes.
  - split; reflexivity.
  - vm_compute. reflexivity.
Defined.

(** X4. [clearAllTasks], when the removal is accepted, returns [true]
    and removes the tasks' key and nothing else; a read that follows
    gives the empty array, and an [addTask] after it starts a new
    collection holding that one task. *)
Theorem clearAllTasks_empties (newTask : Task) (st : AsyncStorage) :
  removeItem_fails st = false ->
  exists st',
    clearAllTasks st = (Normal true, st') /\
    items st' !! TASKS_STORAGE_KEY = None /\
    (forall key, key <> TASKS_STORAGE_KEY -> items st' !! key = items st !! key) /\
    getTasks st' = (Normal [], st') /\
    (available st -> JSON_safe newTask ->
     exists st'', addTask newTask st' = (Normal true, st'') /\
                  getTasks st'' = (Normal [newTask], st'')).
Proof.
  intros Hrm. rewrite clearAllTasks_unfold, Hrm. exists (removed st).
  assert (getTasks (removed st) = (Normal [], removed st)) as Hread.
  { rewrite getTasks_unfold. simpl. rewrite lookup_delete_eq. by destruct (getItem_fails st). }
  split; [done|]. split; [apply lookup_delete_eq|]. split; [|split; [done|]].
  - intros key Hkey. simpl. by rewrite lookup_delete_ne.
  - intros [Hget Hset] Hsafe.
    rewrite (addTask_run _ _ _ Hread), saveTasks_unfold. simpl. rewrite Hset.
    eexists. split; [done|]. apply getTasks_written; [done|]. by constructor.
Qed.

Lemma clearAllTasks_empties_witness :
  exists st',
    clearAllTasks (written [prioritised "a1" "High"; prioritised "b2" "Medium"] working)
    = (Normal true, st') /\
    items st' !! TASKS_STORAGE_KEY = None /\
    (forall key, key <> TASKS_STORAGE_KEY ->
       items st' !! key
       = items (written [prioritised "a1" "High"; prioritised "b2" "Medium"] working) !! key) /\
    getTasks st' = (Normal [], st') /\
    (available (written [prioritised "a1" "High"; prioritised "b2" "Medium"] working) ->
     JSON_safe (prioritised "c3" "High") ->
     exists st'', addTask (prioritised "c3" "High") st' = (Normal true, st'') /\
                  getTasks st'' = (Normal [prioritised "c3" "High"], st'')).
Proof.
  apply clearAllTasks_empties. reflexivity.
Defined.

(** X5. When the read is rejected and the write accepted, the stored
    collection is overwritten: [updateTask] and [deleteTask] return
    [true] and leave the empty array, [addTask] returns [true] and
    leaves the new task alone. *)
Theorem rejected_read_overwrites (newTask : Task) (taskId : value) (updates : object)
    (st : AsyncStorage) :
  getItem_fails st = true ->
  setItem_fails st = false ->
  updateTask taskId updates st = (Normal true, written [] st) /\
  deleteTask taskId st = (Normal true, written [] st) /\
  addTask newTask st = (Normal true, written [newTask] st) /\
  items (written [] st) !! TASKS_STORAGE_KEY = Some (Emitted []).
Proof.
  intros Hget Hset.
  assert (getTasks st = (Normal [], st)) as Hread by (by rewrite getTasks_unfold, Hget).
  rewrite (updateTask_run _ _ _ _ Hread), (deleteTask_run _ _ _ Hread),
    (addTask_run _ _ _ Hread), !saveTasks_unfold, Hset.
  repeat split. simpl. by rewrite lookup_insert_eq.
Qed.

Lemma rejected_read_overwrites_witness :
  let st := {| items := items (written [prioritised "a1" "Low"] working);
               getItem_fails := true; setItem_fails := false;
               removeItem_fails := false |} in
  updateTask (VStr "a1") {[ "completed" := VBool true ]} st = (Normal true, written [] st) /\
  deleteTask (VStr "a1") st = (Normal true, written [] st) /\
  addTask (prioritised "c3" "High") st = (Normal true, written [prioritised "c3" "High"] st) /\
  items (written [] st) !! TASKS_STORAGE_KEY = Some (Emitted []).
Proof.
  apply rejected_read_overwrites; reflexivity.
Defined.

(** The merge of [updates] into a task, read back, and merged and read
    back again. *)
Lemma reread_spread_twice (task updates : object) :
  reread (spread (reread (spread task updates)) updates) = reread (spread task updates).
Proof.
  apply map_eq. intros k. unfold reread, spread.
  rewrite !lookup_fmap, !lookup_omap.
  destruct (updates !! k) as [v|] eqn:Hk.
  - by rewrite !(lookup_union_Some_l _ _ _ _ Hk).
  - rewrite !lookup_union_r by done. rewrite lookup_fmap, lookup_omap.
    rewrite lookup_union_r by done.
    destruct (task !! k) as [w|]; simpl; [|done].
    destruct (stringify_value w) as [j|]; simpl; [|done].
    by rewrite stringify_parse_value.
Qed.

(** X6. [updateTask] is idempotent: the same update made a second time
    returns [true] again and leaves the store exactly as the first
    left it, also when the update names the id itself. *)
Theorem updateTask_idempotent (taskId : value) (updates : object) (st : AsyncStorage) :
  available st ->
  exists st',
    updateTask taskId updates st = (Normal true, st') /\
    getTasks (snd (updateTask taskId updates st'))
    = (Normal (stored st'), snd (updateTask taskId updates st')) /\
    fst (updateTask taskId updates st') = Normal true.
Proof.
  intros [Hget Hset].
  rewrite (updateTask_run _ _ _ _ (getTasks_stored st)), saveTasks_unfold, Hset.
  eexists. split; [done|].
  set (f := fun task : Task =>
              if strict_eq (get task "id") taskId then spread task updates else task).
  set (st' := written (map f (stored st)) st).
  rewrite (updateTask_run _ _ _ _ (getTasks_stored st')), saveTasks_unfold.
  change (setItem_fails st') with (setItem_fails st). rewrite Hset. simpl.
  split; [|done].
  rewrite getTasks_written_any by done. do 2 f_equal.
  fold f. fold reread.
  unfold st'. rewrite stored_written by done. rewrite !map_map.
  pose proof (stored_safe st) as Hsafe.
  induction Hsafe as [|task tasks Htask _ IH]; simpl; [done|]. f_equal; [|done].
  unfold f at 2 3. destruct (strict_eq (get task "id") taskId) eqn:Hid.
  - unfold f. destruct (strict_eq (get (reread (spread task updates)) "id") taskId).
    + apply reread_spread_twice.
    + apply reread_reread.
  - rewrite (reread_safe task Htask). unfold f. rewrite Hid. by apply reread_safe.
Qed.

Lemma updateTask_idempotent_witness :
  exists st',
    updateTask (VStr "a1") {[ "completed" := VBool true ]}
      (written [prioritised "a1" "Low"; prioritised "b2" "Medium"] working)
    = (Normal true, st') /\
    getTasks (snd (updateTask (VStr "a1") {[ "completed" := VBool true ]} st'))
    = (Normal (stored st'),
       snd (updateTask (VStr "a1") {[ "completed" := VBool true ]} st')) /\
    fst (updateTask (VStr "a1") {[ "completed" := VBool true ]} st') = Normal true.
Proof.
  apply updateTask_idempotent. split; reflexivity.
Defined.

(** X7. Adding a task and then deleting it by its id gives back the
    collection that was stored, when no stored task had that id. *)
Theorem addTask_then_deleteTask (newTask : Task) (taskId : value)
    (tasks : list Task) (st : AsyncStorage) :
  available st ->
  getTasks st = (Normal tasks, st) ->
  JSON_safe newTask ->
  strict_eq (get newTask "id") taskId = true ->
  Forall (fun task => strict_eq (get task "id") taskId = false) tasks ->
  exists st' st'',
    addTask newTask st = (Normal true, st') /\
    deleteTask taskId st' = (Normal true, st'') /\
    getTasks st'' = (Normal tasks, st'').
Proof.
  intros [Hget Hset] Hstored Hsafe Hid Hfresh.
  pose proof (getTasks_safe _ _ _ Hstored) as Hold.
  rewrite (addTask_run _ _ _ Hstored), saveTasks_unfold, Hset.
  eexists. eexists. split; [done|].
  assert (Forall JSON_safe (tasks ++ [newTask])%list) as Hall.
  { apply Forall_app. split; [done|]. by constructor. }
  rewrite (deleteTask_run _ _ _ (getTasks_written _ _ Hget Hall)), saveTasks_unfold.
  simpl. rewrite Hset. split; [done|].
  rewrite List.filter_app. simpl. rewrite Hid. simpl. rewrite app_nil_r.
  rewrite filter_all.
  - by apply (getTasks_written tasks (written _ st)).
  - eapply Forall_impl; [exact Hfresh|]. simpl. by intros task ->.
Qed.

Lemma addTask_then_deleteTask_witness :
  exists st' st'',
    addTask (prioritised "c3" "High")
      (written [prioritised "a1" "High"; prioritised "b2" "Medium"] working)
    = (Normal true, st') /\
    deleteTask (VStr "c3") st' = (Normal true, st'') /\
    getTasks st'' = (Normal [prioritised "a1" "High"; prioritised "b2" "Medium"], st'').
Proof.
  apply addTask_then_deleteTask.
  - split; reflexivity.
  - vm_compute. reflexivity.
  - apply (bool_decide_unpack _). vm_compute. reflexivity.
  - reflexivity.
  - repeat constructor.
Defined.
(** ** Progress, further *)

Lemma of_Z_inj a b :
  - 2 ^ 53 < a < 2 ^ 53 -> - 2 ^ 53 < b < 2 ^ 53 -> of_Z a = of_Z b -> a = b.
Proof.
  intros Ha Hb Heq. pose proof (num_eq_of_Z a b Ha Hb) as H.
  rewrite <- Heq, num_eq_of_Z, Z.eqb_refl in H by done.
  symmetry in H. by apply Z.eqb_eq in H.
Qed.

Lemma num_le_of_Z a b :
  - 2 ^ 53 < a < 2 ^ 53 -> - 2 ^ 53 < b < 2 ^ 53 ->
  num_le (of_Z a) (of_Z b) = (a <=? b).
Proof. intros Ha Hb. by apply (num_ge_of_Z b a). Qed.

(** The percentage is a whole number between 0 and 100, within a half
    of the exact quotient. *)
Lemma calculateProgress_value tasks :
  Z.of_nat (length tasks) < 2 ^ 32 ->
  exists k,
    calculateProgress (Some tasks) = of_Z k /\
    0 <= k <= 100 /\
    Z.abs (2 * Z.of_nat (length tasks) * k
           - 200 * Z.of_nat (length (completed_of tasks)))
      <= Z.of_nat (length tasks).
Proof.
  intros Hlen. unfold calculateProgress.
  pose proof (filter_length_le (fun task => truthy (get task "completed")) tasks) as Hle.
  fold (completed_of tasks) in Hle.
  destruct (Nat.eqb_spec (length tasks) 0) as [Hn|Hn].
  { exists 0. rewrite Hn. assert (length (completed_of tasks) = 0%nat) as -> by lia.
    repeat split; done. }
  destruct (Z.of_nat (length tasks)) as [|n|n] eqn:Hzn; [lia| |lia].
  destruct (Z.of_nat (length (completed_of tasks))) as [|c|c] eqn:Hzc; [| |lia].
  - exists 0.
    destruct (F2R_of_Z n) as (mb & eb & -> & _); [lia|].
    destruct (F2R_of_Z 100) as (mh & eh & -> & _); [done|].
    split; [done|]. split; lia.
  - destruct (progress_nearest c n) as (k & Hk & Hnear); [lia..|].
    exists k. split; [done|].
    pose proof Hnear as Hnear'. apply Z.abs_le in Hnear'. split; [nia|done].
Qed.

(** X8. Completing more tasks never lowers the percentage: of two
    lists of the same length the one with at least as many completed
    tasks has at least the percentage of the other. *)
Theorem calculateProgress_monotone (tasks1 tasks2 : list Task) :
  length tasks1 = length tasks2 ->
  Z.of_nat (length tasks1) < 2 ^ 32 ->
  (length (completed_of tasks1) <= length (completed_of tasks2))%nat ->
  num_le (calculateProgress (Some tasks1)) (calculateProgress (Some tasks2)) = true.
Proof.
  intros Hlen Hn Hc.
  destruct (calculateProgress_value tasks1 Hn) as (k1 & E1 & R1 & N1).
  destruct (calculateProgress_value tasks2) as (k2 & E2 & R2 & N2); [by rewrite <- Hlen|].
  destruct (decide (length (completed_of tasks1) = length (completed_of tasks2))) as [Heq|Hne].
  - assert (calculateProgress (Some tasks1) = calculateProgress (Some tasks2)) as Hsame.
    { unfold calculateProgress. by rewrite Hlen, Heq. }
    rewrite Hsame, E2, num_le_of_Z by lia. apply Z.leb_le. lia.
  - rewrite E1, E2, num_le_of_Z by lia. apply Z.leb_le.
    rewrite <- Hlen in N2. apply Z.abs_le in N1, N2.
    assert (Z.of_nat (length (completed_of tasks1)) + 1
            <= Z.of_nat (length (completed_of tasks2))) as Hlt by lia.
    nia.
Qed.

Lemma calculateProgress_monotone_witness :
  num_le (calculateProgress (Some (progress_sample 22 18)))
         (calculateProgress (Some (progress_sample 23 17))) = true.
Proof.
  apply calculateProgress_monotone; [reflexivity | vm_compute; reflexivity | vm_compute; lia].
Defined.

Lemma getMotivationalMessage_of_Z k :
  - 2 ^ 53 < k < 2 ^ 53 -> getMotivationalMessage (of_Z k) = ladder k.
Proof.
  intros Hk. unfold getMotivationalMessage, ladder.
  rewrite num_eq_of_Z, !num_ge_of_Z, num_gt_of_Z by (try done; lia).
  reflexivity.
Qed.

Lemma ladder_perfect k : ladder k = perfect <-> k = 100.
Proof.
  unfold ladder. split.
  - destruct (Z.eqb_spec k 100); [done|].
    repeat (case_match; try discriminate).
  - intros ->. reflexivity.
Qed.

Lemma ladder_nothing_yet k : ladder k = nothing_yet <-> k <= 0.
Proof.
  unfold ladder. split.
  - destruct (Z.eqb_spec k 100); [discriminate|].
    destruct (Z.leb_spec 75 k); [discriminate|].
    destruct (Z.leb_spec 50 k); [discriminate|].
    destruct (Z.leb_spec 25 k); [discriminate|].
    destruct (Z.ltb_spec 0 k); [discriminate|]. lia.
  - intros Hk.
    destruct (Z.eqb_spec k 100); [lia|].
    destruct (Z.leb_spec 75 k); [lia|].
    destruct (Z.leb_spec 50 k); [lia|].
    destruct (Z.leb_spec 25 k); [lia|].
    destruct (Z.ltb_spec 0 k); [lia|]. done.
Qed.

(** X9. On the progress screen, with fewer than 200 tasks: the
    message is "Perfect! You've completed all tasks!" exactly when
    every task is completed, and "Add tasks to start tracking
    progress!" exactly when none is. *)
Theorem perfect_exactly_when_all_done (tasks : list Task) :
  tasks <> [] ->
  (length tasks < 200)%nat ->
  (getMotivationalMessage (calculateProgress (Some tasks)) = perfect
   <-> completed_of tasks = tasks) /\
  (getMotivationalMessage (calculateProgress (Some tasks)) = nothing_yet
   <-> completed_of tasks = []).
Proof.
  intros Hne Hlen.
  destruct (calculateProgress_value tasks) as (k & -> & Hk & Hnear); [lia|].
  rewrite getMotivationalMessage_of_Z, ladder_perfect, ladder_nothing_yet by lia.
  pose proof (filter_length_le (fun task => truthy (get task "completed")) tasks) as Hle.
  fold (completed_of tasks) in Hle.
  assert (0 < length tasks)%nat as Hpos by (destruct tasks; [done|simpl; lia]).
  apply Z.abs_le in Hnear. split; split.
  - intros ->. apply filter_none_length. fold (completed_of tasks). lia.
  - intros Hall. rewrite Hall in Hnear. nia.
  - intros Hz. apply length_zero_iff_nil. nia.
  - intros Hnone. rewrite Hnone in Hnear. simpl in Hnear. nia.
Qed.

Lemma perfect_exactly_when_all_done_witness :
  (getMotivationalMessage (calculateProgress (Some (progress_sample 3 0))) = perfect
   <-> completed_of (progress_sample 3 0) = progress_sample 3 0) /\
  (getMotivationalMessage (calculateProgress (Some (progress_sample 3 0))) = nothing_yet
   <-> completed_of (progress_sample 3 0) = []).
Proof.
  apply perfect_exactly_when_all_done.
  - discriminate.
  - vm_compute. lia.
Defined.

(** With 200 tasks the bound is passed: 199 completed of 200 give
    99.5, which rounds to 100, and the message is the perfect one with
    a task still pending. *)
Lemma perfect_with_one_pending :
  calculateProgress (Some (progress_sample 199 1)) = of_Z 100 /\
  getMotivationalMessage (calculateProgress (Some (progress_sample 199 1))) = perfect /\
  ProgressScreen.pendingTasks (progress_sample 199 1) = 1.
Proof. vm_compute. repeat split; reflexivity. Qed.
(** ** Sorting, further *)

Section SortingFurther.
Context {A : Type}.
Variable rank : A -> Z.

Lemma insert_least x l :
  Forall (fun z => rank x <= rank z) l ->
  insert (fun a b => rank b <? rank a) x l = x :: l.
Proof.
  destruct 1 as [|y l Hy _]; simpl; [done|].
  destruct (Z.ltb_spec (rank y) (rank x)); [lia|done].
Qed.

(** A list in ascending order is left as it is. *)
Lemma isort_of_sorted l :
  StronglySorted (fun a b => rank a <= rank b) l ->
  isort (fun a b => rank b <? rank a) l = l.
Proof.
  induction 1 as [|x l Hs IH Hx]; simpl; [done|]. rewrite IH. by apply insert_least.
Qed.

Lemma filter_insert (p : A -> bool) x l :
  StronglySorted (fun a b => rank a <= rank b) l ->
  List.filter p (insert (fun a b => rank b <? rank a) x l)
  = if p x then insert (fun a b => rank b <? rank a) x (List.filter p l)
    else List.filter p l.
Proof.
  induction 1 as [|y l Hs IH Hy].
  - simpl. by destruct (p x).
  - cbn [insert]. destruct (Z.ltb_spec (rank y) (rank x)) as [Hlt|Hge].
    + cbn [List.filter]. rewrite IH. destruct (p y), (p x); try done.
      cbn [insert]. by destruct (Z.ltb_spec (rank y) (rank x)); [|lia].
    + cbn [List.filter]. destruct (p x); [|done]. symmetry. apply insert_least.
      rewrite List.Forall_forall in *. intros z Hz.
      assert (In z (y :: l)) as [<-|Hin].
      { destruct (p y); [destruct Hz as [<-|Hz]; [by left|right]|right];
          by apply List.filter_In in Hz as [Hz _]. }
      * done.
      * specialize (Hy z Hin). simpl in Hy. lia.
Qed.

(** Sorting and filtering commute. *)
Lemma filter_isort (p : A -> bool) l :
  List.filter p (isort (fun a b => rank b <? rank a) l)
  = isort (fun a b => rank b <? rank a) (List.filter p l).
Proof.
  induction l as [|x l IH]; [done|].
  cbn [isort List.filter]. rewrite filter_insert by apply isort_sorted.
  rewrite IH. by destruct (p x).
Qed.

End SortingFurther.

Lemma Forall_filter_keeps {A} (P : A -> Prop) (p : A -> bool) l :
  Forall P l -> Forall P (List.filter p l).
Proof.
  rewrite !List.Forall_forall. intros H x Hx. apply List.filter_In in Hx as [Hx _]. auto.
Qed.

(** X10. [sortByPriority] is idempotent on tasks whose priority is a
    string other than a name inherited from [Object.prototype]:
    sorting the array it returned gives a new array with the same
    tasks in the same order, and leaves the first result as it was. *)
Theorem sortByPriority_idempotent (tasks : nat) (items : list Task) (h : heap) :
  h !! tasks = Some items ->
  Forall priority_is_text items ->
  Forall own_or_absent items ->
  exists once h1 twice h2 sorted,
    sortByPriority tasks h = (Normal once, h1) /\
    h1 !! once = Some sorted /\
    sortByPriority once h1 = (Normal twice, h2) /\
    h2 !! twice = Some sorted /\
    h2 !! once = Some sorted /\
    twice <> once.
Proof.
  intros Hitems Htext Hown. unfold sortByPriority at 1. unfold alloc. rewrite Hitems.
  rewrite Array_sort_by_rank by done.
  set (sorted := isort (fun x y => spec_rank y <? spec_rank x) items).
  set (once := fresh (dom h)).
  set (h1 := <[once := sorted]> (<[once := items]> h)).
  assert (h1 !! once = Some sorted) as Hone by apply lookup_insert_eq.
  assert (fresh (dom h1) <> once) as Hfresh.
  { intros Heq. apply (is_fresh (dom h1)). rewrite Heq. by apply elem_of_dom. }
  exists once, h1, (fresh (dom h1)), (<[fresh (dom h1) := sorted]> (<[fresh (dom h1) := sorted]> h1)), sorted.
  split; [done|]. split; [done|].
  assert (sorted ≡ₚ items) as Hperm by apply isort_perm.
  split.
  - unfold sortByPriority, alloc. rewrite Hone.
    rewrite Array_sort_by_rank by (by rewrite Hperm).
    rewrite isort_of_sorted by apply isort_sorted. done.
  - split; [apply lookup_insert_eq|]. split; [by rewrite !lookup_insert_ne|done].
Qed.

Lemma sortByPriority_idempotent_witness :
  exists once h1 twice h2 sorted,
    sortByPriority 0%nat
      {[ 0%nat := [ prioritised "1" "Low"; prioritised "2" "high"; prioritised "3" "" ] ]}
    = (Normal once, h1) /\
    h1 !! once = Some sorted /\
    sortByPriority once h1 = (Normal twice, h2) /\
    h2 !! twice = Some sorted /\
    h2 !! once = Some sorted /\
    twice <> once.
Proof.
  apply (sortByPriority_idempotent 0%nat
           [ prioritised "1" "Low"; prioritised "2" "high"; prioritised "3" "" ]).
  - reflexivity.
  - repeat constructor.
  - repeat constructor.
Defined.

(** X11. The task list shows a filter of the sorted tasks; that is the
    same list as the sorted filter of the stored tasks, so every
    filtered view is in priority order with the order of equal
    priorities kept. *)
Theorem filtered_view_sorted (filter : string) (items : list Task) :
  Forall priority_is_text items ->
  Forall own_or_absent items ->
  exists sorted,
    sorted_by_priority items = Normal sorted /\
    sorted_by_priority (TaskListScreen.getFilteredTasks filter items)
    = Normal (TaskListScreen.getFilteredTasks filter sorted) /\
    StronglySorted (fun a b => spec_rank a <= spec_rank b)
      (TaskListScreen.getFilteredTasks filter sorted).
Proof.
  intros Htext Hown. unfold sorted_by_priority.
  rewrite Array_sort_by_rank by done. eexists. split; [done|].
  unfold TaskListScreen.getFilteredTasks.
  destruct (String.eqb filter "pending"); [|destruct (String.eqb filter "completed")].
  - rewrite Array_sort_by_rank by (by apply Forall_filter_keeps).
    rewrite filter_isort. split; [done|]. apply isort_sorted.
  - rewrite Array_sort_by_rank by (by apply Forall_filter_keeps).
    rewrite filter_isort. split; [done|]. apply isort_sorted.
  - rewrite Array_sort_by_rank by done. split; [done|]. apply isort_sorted.
Qed.

Lemma filtered_view_sorted_witness :
  exists sorted,
    sorted_by_priority
      [ <["completed" := VBool true]> (prioritised "1" "Low");
        prioritised "2" "high";
        <["completed" := VBool true]> (prioritised "3" "High") ]
    = Normal sorted /\
    sorted_by_priority
      (TaskListScreen.getFilteredTasks "completed"
         [ <["completed" := VBool true]> (prioritised "1" "Low");
           prioritised "2" "high";
           <["completed" := VBool true]> (prioritised "3" "High") ])
    = Normal (TaskListScreen.getFilteredTasks "completed" sorted) /\
    StronglySorted (fun a b => spec_rank a <= spec_rank b)
      (TaskListScreen.getFilteredTasks "completed" sorted).
Proof.
  apply filtered_view_sorted; repeat constructor.
Defined.

(** X12. When every task's priority is a string (or is missing) and
    names no member inherited from [Object.prototype], the badges run
    red, orange, green, gray in the list [sortByPriority] returns: the
    colour [getPriorityColor] gives a task is the colour of its rank
    (1 for high, 2 for medium, 3 for low in any capitalisation, 4 for
    anything else), and the ranks ascend. *)
Theorem sorted_badges_in_colour_order (items : list Task) :
  Forall priority_is_text items ->
  Forall own_or_absent items ->
  exists sorted,
    sorted_by_priority items = Normal sorted /\
    map (fun task => getPriorityColor (get task "priority")) sorted
    = map (fun task => Normal (color_of_rank (spec_rank task))) sorted /\
    StronglySorted (fun a b => spec_rank a <= spec_rank b) sorted.
Proof.
  intros Htext Hown. unfold sorted_by_priority.
  rewrite Array_sort_by_rank by done. eexists. split; [done|].
  split; [|apply isort_sorted].
  apply map_ext_in. intros task Hin.
  assert (priority_is_text task) as Ht.
  { rewrite List.Forall_forall in Htext. apply Htext.
    apply list_elem_of_In. rewrite <- (isort_perm (fun x y => spec_rank y <? spec_rank x) items).
    by apply list_elem_of_In. }
  unfold priority_is_text, spec_rank, getPriorityColor, rank_of_name, color_of_rank in *.
  destruct (get task "priority") as [| |b|x|s]; try done.
  destruct (String.eqb (toLowerCase s) "high"); [done|].
  destruct (String.eqb (toLowerCase s) "medium"); [done|].
  by destruct (String.eqb (toLowerCase s) "low").
Qed.

Lemma sorted_badges_in_colour_order_witness :
  exists sorted,
    sorted_by_priority
      [ prioritised "1" "Low"; prioritised "2" "high"; prioritised "3" "" ]
    = Normal sorted /\
    map (fun task => getPriorityColor (get task "priority")) sorted
    = map (fun task => Normal (color_of_rank (spec_rank task))) sorted /\
    StronglySorted (fun a b => spec_rank a <= spec_rank b) sorted.
Proof.
  apply sorted_badges_in_colour_order; repeat constructor.
Defined.

(** With an inherited name among the priorities the order is lost:
    Low, constructor, High come back as they were, green, gray, red. *)
Lemma badges_with_an_inherited_name :
  sorted_by_priority
    [ prioritised "1" "Low"; prioritised "2" "constructor"; prioritised "3" "High" ]
  = Normal [ prioritised "1" "Low"; prioritised "2" "constructor"; prioritised "3" "High" ] /\
  map (fun task => getPriorityColor (get task "priority"))
    [ prioritised "1" "Low"; prioritised "2" "constructor"; prioritised "3" "High" ]
  = [ Normal "#2ED573"; Normal "#747D8C"; Normal "#FF4757" ].
Proof. vm_compute. split; reflexivity. Qed.

(** ** The filters and the counts *)

Lemma filter_partition {A} (p : A -> bool) (l : list A) :
  (List.filter (fun x => negb (p x)) l ++ List.filter p l)%list ≡ₚ l.
Proof.
  induction l as [|x l IH]; simpl; [done|]. destruct (p x); simpl.
  - rewrite <- Permutation_middle. by constructor.
  - by constructor.
Qed.

(** X13. The pending and the completed filter split the tasks in two:
    together they hold every task once, the counts on the filter
    badges add up to the number of tasks, and the pending count of the
    home screen is the difference the progress screen shows.  The
    filter "all" returns the tasks as they are. *)
Theorem filters_partition (tasks : list Task) :
  (TaskListScreen.getFilteredTasks "pending" tasks
   ++ TaskListScreen.getFilteredTasks "completed" tasks)%list ≡ₚ tasks /\
  Forall (fun t => truthy (get t "completed") = false)
    (TaskListScreen.getFilteredTasks "pending" tasks) /\
  Forall (fun t => truthy (get t "completed") = true)
    (TaskListScreen.getFilteredTasks "completed" tasks) /\
  TaskListScreen.getFilteredTasks "all" tasks = tasks /\
  (TaskListScreen.pendingCount tasks + TaskListScreen.completedCount tasks)%nat
  = length tasks /\
  Z.of_nat (HomeScreen.pendingTasks tasks) = ProgressScreen.pendingTasks tasks /\
  Z.of_nat (HomeScreen.completedTasks tasks) = ProgressScreen.completedTasks tasks /\
  0 <= ProgressScreen.pendingTasks tasks <= ProgressScreen.totalTasks tasks.
Proof.
  pose proof (filter_partition (fun t : Task => truthy (get t "completed")) tasks) as Hperm.
  pose proof (Permutation_length Hperm) as Hlen. rewrite length_app in Hlen.
  unfold TaskListScreen.getFilteredTasks, TaskListScreen.pendingCount,
    TaskListScreen.completedCount, HomeScreen.pendingTasks, HomeScreen.completedTasks,
    ProgressScreen.pendingTasks, ProgressScreen.completedTasks, ProgressScreen.totalTasks.
  change (String.eqb "pending" "pending") with true.
  change (String.eqb "completed" "pending") with false.
  change (String.eqb "completed" "completed") with true.
  change (String.eqb "all" "pending") with false.
  change (String.eqb "all" "completed") with false.
  cbv iota.
  split; [done|]. split; [|split].
  - rewrite List.Forall_forall. intros t Ht.
    apply List.filter_In in Ht as [_ Ht]. by apply negb_true_iff.
  - rewrite List.Forall_forall. intros t Ht. by apply List.filter_In in Ht as [_ Ht].
  - split; [done|]. split; [done|]. split; [lia|]. split; [done|lia].
Qed.
(** ** The progress bar *)

Lemma SFcompare_swap x y : SFcompare y x = option_map CompOpp (SFcompare x y).
Proof.
  destruct x as [sx|sx| |sx mx ex], y as [sy|sy| |sy my ey]; simpl; try done;
    try (by destruct sx); try (by destruct sy); try (by destruct sx, sy).
  destruct sx, sy; try done; rewrite (Z.compare_antisym ex ey);
    destruct (ex ?= ey); simpl; try done; f_equal.
  - by rewrite (Pos.compare_cont_antisym mx my Eq).
  - by rewrite (Pos.compare_cont_antisym mx my Eq).
Qed.

Lemma SFcompare_refl s m e : SFcompare (S754_finite s m e) (S754_finite s m e) = Some Eq.
Proof.
  simpl. rewrite Z.compare_refl, Pos.compare_cont_refl. by destruct s.
Qed.

Lemma num_lt_of_Z a b :
  - 2 ^ 53 < a < 2 ^ 53 -> - 2 ^ 53 < b < 2 ^ 53 ->
  num_lt (of_Z a) (of_Z b) = (a <? b).
Proof. intros Ha Hb. by apply (num_gt_of_Z b a). Qed.

(** X14. The bar clamps what it is given into the range from 0 to
    100: a value below 0 gives 0, a value above 100 (the positive
    infinity too) gives 100, a value in the range is kept, and NaN
    stays NaN. *)
Theorem validProgress_clamps (progress : number) :
  if is_nan progress then ProgressBar.validProgress progress = NaN
  else
    num_le (of_Z 0) (ProgressBar.validProgress progress) = true /\
    num_le (ProgressBar.validProgress progress) (of_Z 100) = true /\
    (if num_lt progress (of_Z 0) then ProgressBar.validProgress progress = of_Z 0
     else if num_gt progress (of_Z 100)
          then ProgressBar.validProgress progress = of_Z 100
          else num_eq (ProgressBar.validProgress progress) progress = true).
Proof.
  destruct (of_Z_exact 100) as (mh & eh & Hh & _); [lia|].
  unfold ProgressBar.validProgress.
  change (of_Z 0) with (S754_zero false). rewrite Hh.
  pose proof (SFcompare_refl false mh eh) as Hrefl'.
  destruct progress as [s|s| |s m e].
  - by destruct s.
  - destruct s; [done|].
    assert (Math_min (Math_max Infinity (S754_zero false)) (S754_finite false mh eh)
            = S754_finite false mh eh) as -> by done.
    unfold num_gt, num_lt, num_le, num_eq, SFltb, SFleb, SFeqb. by rewrite Hrefl'.
  - done.
  - destruct s; [done|].
    assert (Math_max (S754_finite false m e) (S754_zero false) = S754_finite false m e)
      as -> by done.
    assert (exists c, SFcompare (S754_finite false m e) (S754_finite false mh eh) = Some c)
      as [c Hc] by (simpl; eauto).
    pose proof (SFcompare_swap (S754_finite false m e) (S754_finite false mh eh)) as Hswap.
    rewrite Hc in Hswap. cbn [option_map] in Hswap.
    pose proof (SFcompare_refl false m e) as Hrefl.
    cbn [is_nan].
    assert (num_lt (S754_finite false m e) (S754_zero false) = false) as -> by done.
    unfold Math_min, num_gt, num_lt, num_le, num_eq, SFltb, SFleb, SFeqb.
    cbn [is_nan orb]. rewrite Hswap, Hc.
    destruct c; cbn [CompOpp]; rewrite ?Hrefl, ?Hrefl', ?Hc, ?Hswap; done.
Qed.

Lemma validProgress_of_Z k :
  0 <= k <= 100 -> ProgressBar.validProgress (of_Z k) = of_Z k.
Proof.
  intros Hk. unfold ProgressBar.validProgress, Math_max.
  rewrite !(is_nan_false _ (of_Z_not_nan _)). cbn [orb].
  rewrite !num_lt_of_Z by lia.
  assert (Math_min (of_Z k) (of_Z 100) = of_Z k) as Hmin.
  { unfold Math_min. rewrite !(is_nan_false _ (of_Z_not_nan _)). cbn [orb].
    rewrite !num_lt_of_Z by lia.
    destruct (Z.ltb_spec k 100); [done|]. destruct (Z.ltb_spec 100 k); [lia|].
    assert (k = 100) as -> by lia. reflexivity. }
  destruct (Z.ltb_spec k 0); [lia|]. destruct (Z.ltb_spec 0 k); [done|].
  assert (k = 0) as -> by lia. reflexivity.
Qed.

(** X15. The bar shows the percentage [calculateProgress] returns as
    it is, and its colour goes with the message of the progress
    screen: green with the two messages from 75 up, orange from 50,
    yellow from 25, red below. *)
Theorem bar_matches_message (tasks : list Task) :
  Z.of_nat (length tasks) < 2 ^ 32 ->
  ProgressBar.validProgress (calculateProgress (Some tasks))
  = calculateProgress (Some tasks) /\
  ProgressBar.getProgressColor (calculateProgress (Some tasks))
  = color_of_message (getMotivationalMessage (calculateProgress (Some tasks))).
Proof.
  intros Hlen. destruct (calculateProgress_value tasks Hlen) as (k & -> & Hk & _).
  split; [by apply validProgress_of_Z|].
  unfold ProgressBar.getProgressColor.
  rewrite validProgress_of_Z, getMotivationalMessage_of_Z, !num_ge_of_Z by lia.
  unfold ladder.
  destruct (Z.eqb_spec k 100) as [->|Hne]; [reflexivity|].
  destruct (Z.leb_spec 75 k); [reflexivity|].
  destruct (Z.leb_spec 50 k); [reflexivity|].
  destruct (Z.leb_spec 25 k); [reflexivity|].
  by destruct (Z.ltb_spec 0 k).
Qed.

Lemma bar_matches_message_witness :
  ProgressBar.validProgress (calculateProgress (Some (progress_sample 23 17)))
  = calculateProgress (Some (progress_sample 23 17)) /\
  ProgressBar.getProgressColor (calculateProgress (Some (progress_sample 23 17)))
  = color_of_message
      (getMotivationalMessage (calculateProgress (Some (progress_sample 23 17)))).
Proof.
  apply bar_matches_message. vm_compute. reflexivity.
Defined.
(** ** Times of day *)

(** In a zone whose days begin at their midnights, two time values set
    to midnight agree exactly when they fall on one local day. *)
Lemma same_local_day c d t :
  day_begins_at_midnight c ->
  setHours_0 c d = setHours_0 c t <-> local_day c d = local_day c t.
Proof.
  intros Hzone. unfold setHours_0. split; [|by intros ->].
  intros Heq.
  pose proof (Hzone (local_day c d) d) as H1. pose proof (Hzone (local_day c t) d) as H2.
  pose proof (Hzone (local_day c t) t) as H3. pose proof (Hzone (local_day c d) t) as H4.
  rewrite Heq in H1, H4. lia.
Qed.

(** And a local day lasts from its midnight to the next. *)
Lemma local_day_window c d t :
  day_begins_at_midnight c ->
  local_day c d = local_day c t <->
  setHours_0 c t <= d < UTC c ((local_day c t + 1) * msPerDay).
Proof.
  intros Hzone. unfold setHours_0.
  pose proof (Hzone (local_day c t) d) as H1.
  pose proof (Hzone (local_day c t + 1) d) as H2. lia.
Qed.

Lemma filter_sublist {A} (p : A -> bool) (l : list A) : sublist (List.filter p l) l.
Proof.
  induction l as [|x l IH]; simpl; [constructor|].
  destruct (p x); by constructor.
Qed.

(** X16. [getTodaysTasks] returns, in their order, exactly the tasks
    whose deadline is a valid date on today's local calendar day, that
    is, from the midnight that began today up to the next midnight,
    24 hours later or, on a day the clocks change, 23 or 25; a task
    with an invalid deadline is left out, and [null], [undefined] and
    the empty array give the empty array.  This holds in a time zone
    whose days begin at their midnights, whatever dates the platform
    constructs from the stored deadlines. *)
Theorem getTodaysTasks_due_today (Date : value -> option Z) (c : clock)
    (tasks : list Task) :
  day_begins_at_midnight c ->
  getTodaysTasks Date c None = [] /\
  getTodaysTasks Date c (Some []) = [] /\
  sublist (getTodaysTasks Date c (Some tasks)) tasks /\
  (forall task,
     In task (getTodaysTasks Date c (Some tasks)) <->
     In task tasks /\
     exists deadline,
       Date (get task "deadline") = Some deadline /\
       local_day c deadline = local_day c (now c)) /\
  (forall deadline,
     local_day c deadline = local_day c (now c) <->
     setHours_0 c (now c) <= deadline
     < UTC c ((local_day c (now c) + 1) * msPerDay)) /\
  getTodaysTasks Date c (Some (getTodaysTasks Date c (Some tasks)))
  = getTodaysTasks Date c (Some tasks).
Proof.
  intros Hzone. split; [done|]. split; [done|].
  assert (getTodaysTasks Date c (Some tasks)
          = List.filter
              (fun task =>
                 match Date (get task "deadline") with
                 | Some deadline => setHours_0 c deadline =? setHours_0 c (now c)
                 | None => false
                 end) tasks) as Hfilter.
  { unfold getTodaysTasks. by destruct tasks. }
  split; [rewrite Hfilter; apply filter_sublist|]. split; [|split].
  - intros task. rewrite Hfilter, List.filter_In. split.
    + intros [Hin Hdue]. split; [done|].
      destruct (Date (get task "deadline")) as [deadline|]; [|done].
      exists deadline. split; [done|]. apply same_local_day; [done|]. by apply Z.eqb_eq.
    + intros [Hin (deadline & -> & Hdue)]. split; [done|].
      apply Z.eqb_eq. by apply same_local_day.
  - intros deadline. by apply local_day_window.
  - unfold getTodaysTasks at 1. rewrite Hfilter.
    destruct (Nat.eqb_spec (length (List.filter
      (fun task =>
         match Date (get task "deadline") with
         | Some deadline => setHours_0 c deadline =? setHours_0 c (now c)
         | None => false
         end) tasks)) 0) as [Hz|_].
    + by apply length_zero_iff_nil in Hz as ->.
    + apply filter_all. rewrite List.Forall_forall. intros task Hin.
      by apply List.filter_In in Hin as [_ ?].
Qed.

Lemma getTodaysTasks_due_today_witness :
  getTodaysTasks sample_Date new_york_noon None = [] /\
  getTodaysTasks sample_Date new_york_noon (Some []) = [] /\
  sublist (getTodaysTasks sample_Date new_york_noon (Some tasks_around_the_long_day))
    tasks_around_the_long_day /\
  (forall task,
     In task (getTodaysTasks sample_Date new_york_noon (Some tasks_around_the_long_day)) <->
     In task tasks_around_the_long_day /\
     exists deadline,
       sample_Date (get task "deadline") = Some deadline /\
       local_day new_york_noon deadline = local_day new_york_noon (now new_york_noon)) /\
  (forall deadline,
     local_day new_york_noon deadline = local_day new_york_noon (now new_york_noon) <->
     setHours_0 new_york_noon (now new_york_noon) <= deadline
     < UTC new_york_noon ((local_day new_york_noon (now new_york_noon) + 1) * msPerDay)) /\
  getTodaysTasks sample_Date new_york_noon
    (Some (getTodaysTasks sample_Date new_york_noon (Some tasks_around_the_long_day)))
  = getTodaysTasks sample_Date new_york_noon (Some tasks_around_the_long_day).
Proof.
  apply getTodaysTasks_due_today.
  intros day t. unfold local_day. rewrite day_le_div.
  unfold UTC, local_time, new_york_noon, new_york, msPerDay. simpl LocalTZA.
  destruct (Z.ltb_spec (day * 86400000) (86400000 * 20030 + 2 * 3600000)),
    (Z.ltb_spec t (86400000 * 20030 + 6 * 3600000)); lia.
Defined.

(** On the day the clocks go back in New York the four deadlines from
    00:30 to 23:30 local time are today's, 24 hours apart from first to
    last, and the ones of the evening before and of the next morning
    are not. *)
Lemma getTodaysTasks_on_the_long_day :
  map (fun task => get task "deadline")
    (getTodaysTasks sample_Date new_york_noon (Some tasks_around_the_long_day))
  = [ VStr "2024-11-03T04:30:00.000Z"; VStr "2024-11-03T05:30:00.000Z";
      VStr "2024-11-03T17:00:00.000Z"; VStr "2024-11-04T04:30:00.000Z" ].
Proof. vm_compute. reflexivity. Qed.

(** X17. The greeting follows the hour the local clock shows: morning
    while the local time of day is before 12:00, afternoon from 12:00
    until 17:00, evening from 17:00 on. *)
Theorem getGreeting_by_time_of_day (c : clock) :
  0 <= local_time c (now c) mod msPerDay < msPerDay /\
  getGreeting c
  = if local_time c (now c) mod msPerDay <? 12 * msPerHour then "Good Morning"
    else if local_time c (now c) mod msPerDay <? 17 * msPerHour then "Good Afternoon"
    else "Good Evening".
Proof.
  unfold getGreeting, getHours, msPerDay, msPerHour.
  generalize (local_time c (now c)). intros t.
  pose proof (Z.mod_pos_bound t 86400000 ltac:(lia)) as Hr.
  split; [lia|].
  assert ((t / 3600000) mod 24 = (t mod 86400000) / 3600000) as ->.
  { pose proof (Z.div_mod t 86400000 ltac:(lia)) as Ht.
    symmetry. apply (Z.mod_unique_pos _ _ (t / 86400000)).
    - split; [apply Z.div_pos; lia|]. apply Z.div_lt_upper_bound; lia.
    - rewrite Z.mul_comm at 1.
      replace t with (t mod 86400000 + (t / 86400000 * 24) * 3600000) at 1 by lia.
      rewrite Z.div_add by lia. lia. }
  set (r := t mod 86400000) in *.
  pose proof (Z.div_mod r 3600000 ltac:(lia)) as Hq.
  pose proof (Z.mod_pos_bound r 3600000 ltac:(lia)) as Hq'.
  destruct (Z.ltb_spec (r / 3600000) 12), (Z.ltb_spec r (12 * 3600000)); try lia;
    [done|].
  destruct (Z.ltb_spec (r / 3600000) 17), (Z.ltb_spec r (17 * 3600000)); try lia; done.
Qed.

(** It is not the time that has passed since midnight: at 11:30 on the
    morning after the clocks went back in New York, twelve and a half
    hours after midnight, the greeting is the morning's. *)
Lemma getGreeting_on_the_long_day :
  getGreeting {| now := 86400000 * 20030 + 16 * 3600000 + 1800000; LocalTZA := new_york |}
  = "Good Morning" /\
  86400000 * 20030 + 16 * 3600000 + 1800000
  - setHours_0 new_york_noon (86400000 * 20030 + 16 * 3600000 + 1800000)
  = 12 * 3600000 + 1800000.
Proof. vm_compute. split; reflexivity. Qed.

(** ** Identifiers *)

Lemma digit36_inj a b :
  0 <= a < 36 -> 0 <= b < 36 -> digit36 a = digit36 b -> a = b.
Proof.
  intros Ha Hb Heq. unfold digit36 in Heq.
  apply (f_equal N_of_ascii) in Heq.
  rewrite !N_ascii_embedding in Heq
    by (destruct (a <? 10), (b <? 10); lia).
  destruct (Z.ltb_spec a 10), (Z.ltb_spec b 10); lia.
Qed.

Lemma toString36_digits_inj k :
  forall fuel1 fuel2 n1 n2 acc1 acc2,
    36 ^ Z.of_nat k <= n1 < 36 ^ (Z.of_nat k + 1) ->
    36 ^ Z.of_nat k <= n2 < 36 ^ (Z.of_nat k + 1) ->
    (k < fuel1)%nat -> (k < fuel2)%nat ->
    toString36_digits fuel1 n1 acc1 = toString36_digits fuel2 n2 acc2 ->
    n1 = n2 /\ acc1 = acc2.
Proof.
  induction k as [|k IH]; intros fuel1 fuel2 n1 n2 acc1 acc2 H1 H2 Hf1 Hf2 Heq.
  - destruct fuel1 as [|fuel1], fuel2 as [|fuel2]; try lia.
    change (36 ^ Z.of_nat 0) with 1 in *. change (36 ^ (Z.of_nat 0 + 1)) with 36 in *.
    cbn [toString36_digits] in Heq.
    destruct (Z.ltb_spec n1 36), (Z.ltb_spec n2 36); try lia.
    rewrite !Z.mod_small in Heq by lia. injection Heq as Hd Hacc.
    split; [|done]. by apply digit36_inj; [lia..|].
  - destruct fuel1 as [|fuel1], fuel2 as [|fuel2]; try lia.
    rewrite Nat2Z.inj_succ, <- Z.add_1_r in H1, H2.
    rewrite (Z.pow_add_r 36 (Z.of_nat k + 1) 1) in H1, H2 by lia.
    rewrite (Z.pow_add_r 36 (Z.of_nat k) 1) in H1, H2 by lia.
    change (36 ^ 1) with 36 in *.
    assert (0 < 36 ^ Z.of_nat k) as Hpos by (apply Z.pow_pos_nonneg; lia).
    cbn [toString36_digits] in Heq.
    destruct (Z.ltb_spec n1 36), (Z.ltb_spec n2 36); try nia.
    pose proof (Z.div_mod n1 36 ltac:(lia)) as Hn1.
    pose proof (Z.mod_pos_bound n1 36 ltac:(lia)) as Hn1'.
    pose proof (Z.div_mod n2 36 ltac:(lia)) as Hn2.
    pose proof (Z.mod_pos_bound n2 36 ltac:(lia)) as Hn2'.
    apply IH in Heq as [Hq Hacc]; try lia.
    + injection Hacc as Hd Hacc. split; [|done].
      assert (n1 mod 36 = n2 mod 36); [|lia].
      by apply digit36_inj; [lia..|].
    + rewrite (Z.pow_add_r 36 (Z.of_nat k) 1) by lia. change (36 ^ 1) with 36. nia.
    + rewrite (Z.pow_add_r 36 (Z.of_nat k) 1) by lia. change (36 ^ 1) with 36. nia.
Qed.

Lemma toString36_fuel k n :
  36 ^ Z.of_nat k <= n -> (k < S (Z.to_nat (Z.log2 n)))%nat.
Proof.
  intros Hn.
  assert (2 ^ Z.of_nat k <= 36 ^ Z.of_nat k) as Hpow by (apply Z.pow_le_mono_l; lia).
  assert (Z.of_nat k <= Z.log2 n); [|lia].
  rewrite <- (Z.log2_pow2 (Z.of_nat k)) by lia. apply Z.log2_le_mono. lia.
Qed.

Lemma generateId_timestamp (k : nat) (c1 c2 : clock) (random1 random2 : string) :
  36 ^ Z.of_nat k <= now c1 < 36 ^ (Z.of_nat k + 1) ->
  36 ^ Z.of_nat k <= now c2 < 36 ^ (Z.of_nat k + 1) ->
  generateId c1 random1 = generateId c2 random2 ->
  now c1 = now c2 /\ substr 2 random1 = substr 2 random2.
Proof.
  intros H1 H2. unfold generateId, toString36.
  assert (0 < 36 ^ Z.of_nat k) as Hpos by (apply Z.pow_pos_nonneg; lia).
  destruct (Z.ltb_spec (now c1) 0), (Z.ltb_spec (now c2) 0); try lia.
  assert (forall fuel n acc rest,
            toString36_digits fuel n acc ++ rest
            = toString36_digits fuel n (acc ++ rest)) as Happ.
  { induction fuel as [|fuel IH]; intros n acc rest; [done|].
    cbn [toString36_digits]. destruct (n <? 36); [done|]. by rewrite IH. }
  rewrite !Happ. intros Heq.
  apply (toString36_digits_inj k) in Heq;
    [exact Heq | done | done | apply toString36_fuel, H1 | apply toString36_fuel, H2].
Qed.

(** X18. Two identifiers made at different milliseconds differ,
    whatever the random parts are, as long as the two timestamps have
    the same number of digits in base 36; with seven powers of 36 that
    is every moment from June 1972 to May 2059.  At one and the same
    millisecond the identifiers differ only if the random parts do. *)
Theorem generateId_distinct (k : nat) (c1 c2 : clock) (random1 random2 : string) :
  36 ^ Z.of_nat k <= now c1 < 36 ^ (Z.of_nat k + 1) ->
  36 ^ Z.of_nat k <= now c2 < 36 ^ (Z.of_nat k + 1) ->
  now c1 <> now c2 \/ substr 2 random1 <> substr 2 random2 ->
  generateId c1 random1 <> generateId c2 random2.
Proof.
  intros H1 H2 Hne Heq.
  destruct (generateId_timestamp k c1 c2 random1 random2 H1 H2 Heq) as [Hnow Hrandom].
  by destruct Hne.
Qed.

Lemma generateId_distinct_witness :
  generateId {| now := 86400000 * 20000 + 1000; LocalTZA := fun _ _ => 0 |} "0.4fzyo82mvyr"
  <> generateId {| now := 86400000 * 20000 + 1001; LocalTZA := fun _ _ => 0 |} "0.4fzyo82mvyr".
Proof.
  apply (generateId_distinct 7).
  - vm_compute. split; [intros H; discriminate H | reflexivity].
  - vm_compute. split; [intros H; discriminate H | reflexivity].
  - left. vm_compute. intros H. discriminate H.
Defined.

Lemma generateId_sample :
  generateId at_day_20000 "0.4fzyo82mvyr" = "m1tyl23s4fzyo82mvyr" /\
  toString36 0 = "0" /\ toString36 35 = "z" /\ toString36 36 = "10" /\
  generateId at_day_20000 "0" = "m1tyl23s".
Proof. vm_compute. repeat split; reflexivity. Qed.
(** ** From the form to the store, further *)

Lemma validateForm_passed c f :
  snd (validateForm c f) = true ->
  fst (validateForm c f) = ∅ /\ num_gt (parseFloat (studyTime f)) (of_Z 0) = true.
Proof.
  rewrite validateForm_errors_of. cbn [fst snd].
  destruct (errors_of_shape
              (is_empty (trim (subject f))) (is_empty (trim (topic f)))
              (is_empty (trim (studyTime f)))
              (isNaN (studyTime f) || num_le (parseFloat (studyTime f)) (of_Z 0))
              (deadline f <? setHours_0 c (now c)))
    as (Hok & _).
  intros Hvalid. apply Hok in Hvalid as (H1 & H2 & H3 & H4 & H5).
  split; [by rewrite H1, H2, H3, H4, H5|].
  by apply (studyTime_test _ H3).
Qed.


(** ** Toggling a task *)

Lemma sorted_text items :
  Forall priority_is_text items ->
  exists sorted, sorted_by_priority items = Normal sorted /\ sorted ≡ₚ items.
Proof.
  intros Htext. rewrite Forall_forall in Htext. unfold sorted_by_priority.
  rewrite (Array_sort_normal by_priority (fun a b => result_or NaN (by_priority a b)))
    by (intros x y Hx Hy; apply by_priority_text; auto).
  eexists. split; [done|]. apply isort_perm.
Qed.

Lemma loadTasks_run tasks st :
  TaskListScreen.loadTasks tasks st
  = (Normal (result_or tasks (sorted_by_priority (stored st))), st).
Proof.
  unfold TaskListScreen.loadTasks, try_catch, mbind, async_bind, lift.
  rewrite getTasks_stored. by destruct (sorted_by_priority (stored st)).
Qed.

Lemma with_completed_safe taskId b task :
  JSON_safe task -> JSON_safe (with_completed taskId b task).
Proof.
  intros Hsafe. unfold with_completed.
  destruct (strict_eq (get task "id") taskId); [|done].
  by apply map_Forall_insert_2.
Qed.

Lemma with_completed_other taskId b task k :
  k <> "completed" -> get (with_completed taskId b task) k = get task k.
Proof.
  intros Hk. unfold with_completed, get.
  destruct (strict_eq (default VUndefined (task !! "id")) taskId); [|done].
  by rewrite lookup_insert_ne.
Qed.


(** An accepted [updateTask(taskId, {completed: b})] and the read
    after it. *)
Lemma updateTask_completed taskId b st :
  available st ->
  exists st',
    updateTask taskId {[ "completed" := VBool b ]} st = (Normal true, st') /\
    stored st' = map (with_completed taskId b) (stored st) /\
    available st'.
Proof.
  intros [Hget Hset].
  rewrite (updateTask_run _ _ _ _ (getTasks_stored st)), saveTasks_unfold, Hset.
  eexists. split; [done|]. split; [|done].
  rewrite stored_written by done. rewrite map_map.
  pose proof (stored_safe st) as Hsafe.
  induction Hsafe as [|task tasks Htask _ IH]; simpl; [done|]. f_equal; [|done].
  pose proof (with_completed_safe taskId b task Htask) as Hsafe'.
  unfold with_completed in *. destruct (strict_eq (get task "id") taskId).
  - unfold spread. rewrite <- insert_union_singleton_l. by apply reread_safe.
  - by apply reread_safe.
Qed.


Lemma map_with_completed_text taskId b tasks :
  Forall priority_is_text tasks ->
  Forall priority_is_text (map (with_completed taskId b) tasks).
Proof.
  intros Htext. apply Forall_map. eapply Forall_impl; [exact Htext|].
  intros task. unfold priority_is_text. simpl. by rewrite with_completed_other.
Qed.

Lemma toggle_found (taskId : value) (tasks : list Task) task (st : AsyncStorage) :
  available st ->
  Forall priority_is_text (stored st) ->
  List.find (fun t => strict_eq (get t "id") taskId) tasks = Some task ->
  exists tasks' st',
    TaskListScreen.handleToggleComplete taskId tasks st = (Normal tasks', st') /\
    stored st'
    = map (with_completed taskId (negb (truthy (get task "completed")))) (stored st) /\
    sorted_by_priority (stored st') = Normal tasks' /\
    tasks' ≡ₚ stored st' /\
    available st'.
Proof.
  intros Hav Htext Hfind. unfold TaskListScreen.handleToggleComplete. rewrite Hfind.
  destruct (updateTask_completed taskId (negb (truthy (get task "completed"))) st Hav)
    as (st' & Hrun & Hstored & Hav').
  destruct (sorted_text (stored st')) as (sorted & Hsorted & Hperm).
  { rewrite Hstored. by apply map_with_completed_text. }
  exists sorted, st'. unfold try_catch, mbind, async_bind. rewrite Hrun.
  rewrite loadTasks_run, Hsorted. done.
Qed.





(** ** Addresses *)

Lemma matches_Class_inv p s : matches (Class p) s <-> exists u, s = [u] /\ p u = true.
Proof.
  split.
  - inversion 1; subst. eauto.
  - intros (u & -> & Hp). by constructor.
Qed.

Lemma matches_Seq_inv r1 r2 s :
  matches (Seq r1 r2) s <->
  exists s1 s2, s = (s1 ++ s2)%list /\ matches r1 s1 /\ matches r2 s2.
Proof.
  split.
  - inversion 1; subst. eauto.
  - intros (s1 & s2 & -> & H1 & H2). by constructor.
Qed.

Lemma matches_Alt_inv r1 r2 s : matches (Alt r1 r2) s <-> matches r1 s \/ matches r2 s.
Proof.
  split.
  - inversion 1; subst; auto.
  - intros [H|H]; [by apply matches_Alt_l|by apply matches_Alt_r].
Qed.

Lemma nullable_matches r : nullable r = true <-> matches r [].
Proof.
  induction r as [| |p|r1 IH1 r2 IH2|r1 IH1 r2 IH2|r IH]; simpl.
  - split; [done|]. inversion 1.
  - split; [constructor|done].
  - split; [done|]. rewrite matches_Class_inv. by intros (u & ? & _).
  - rewrite andb_true_iff, IH1, IH2, matches_Seq_inv. split.
    + intros [H1 H2]. by exists [], [].
    + intros (s1 & s2 & Heq & H1 & H2). symmetry in Heq.
      apply app_eq_nil in Heq as [-> ->]. done.
  - by rewrite orb_true_iff, IH1, IH2, matches_Alt_inv.
  - split; [constructor|done].
Qed.

Lemma matches_Star_inv r u s :
  matches (Star r) (u :: s) ->
  exists s1 s2, s = (s1 ++ s2)%list /\ matches r (u :: s1) /\ matches (Star r) s2.
Proof.
  intros H. remember (Star r) as r' eqn:Hr. remember (u :: s) as s' eqn:Hs.
  revert Hr Hs. induction H as [| | | | | |r0 s1 s2 H1 _ H2 IH2]; try done.
  intros [= ->] Heq. destruct s1 as [|u1 s1].
  - simpl in Heq. by apply IH2.
  - injection Heq as -> <-. by exists s1, s2.
Qed.

Lemma derivative_matches u r s : matches (derivative u r) s <-> matches r (u :: s).
Proof.
  revert s. induction r as [| |p|r1 IH1 r2 IH2|r1 IH1 r2 IH2|r IH]; intros s; simpl.
  - split; inversion 1.
  - split; inversion 1.
  - rewrite matches_Class_inv. destruct (p u) eqn:Hp; split.
    + inversion 1; subst. by exists u.
    + intros (v & [= -> ->] & _). constructor.
    + inversion 1.
    + intros (v & [= -> ->] & Hv). congruence.
  - assert (matches (Seq (derivative u r1) r2) s
            <-> exists s1 s2, s = (s1 ++ s2)%list /\ matches r1 (u :: s1) /\ matches r2 s2)
      as Hseq.
    { rewrite matches_Seq_inv. split.
      - intros (s1 & s2 & -> & H1 & H2). exists s1, s2. by rewrite <- IH1.
      - intros (s1 & s2 & -> & H1 & H2). exists s1, s2. by rewrite IH1. }
    assert (matches (Seq r1 r2) (u :: s)
            <-> (exists s1 s2, s = (s1 ++ s2)%list /\ matches r1 (u :: s1) /\ matches r2 s2)
                \/ (matches r1 [] /\ matches r2 (u :: s))) as Hcons.
    { rewrite matches_Seq_inv. split.
      - intros (s1 & s2 & Heq & H1 & H2). destruct s1 as [|u1 s1].
        + right. simpl in Heq. by subst.
        + left. injection Heq as <- ->. by exists s1, s2.
      - intros [(s1 & s2 & -> & H1 & H2)|[H1 H2]].
        + by exists (u :: s1), s2.
        + by exists [], (u :: s). }
    rewrite Hcons. destruct (nullable r1) eqn:Hnull.
    + apply nullable_matches in Hnull. rewrite matches_Alt_inv, Hseq, IH2. tauto.
    + rewrite Hseq. split; [by left|]. intros [H|[H _]]; [done|].
      apply nullable_matches in H. congruence.
  - by rewrite !matches_Alt_inv, IH1, IH2.
  - rewrite matches_Seq_inv. split.
    + intros (s1 & s2 & -> & H1 & H2).
      apply (matches_Star_cons r (u :: s1) s2); [by apply IH|done].
    + intros H. apply matches_Star_inv in H as (s1 & s2 & -> & H1 & H2).
      exists s1, s2. by rewrite IH.
Qed.

(** The test is membership in the language. *)
Lemma test_matches r s : test r s = true <-> matches r s.
Proof.
  unfold test. revert r. induction s as [|u s IH]; intros r; simpl.
  - apply nullable_matches.
  - rewrite IH. apply derivative_matches.
Qed.

Lemma matches_Star_Class p s : matches (Star (Class p)) s <-> Forall (fun u => p u = true) s.
Proof.
  split.
  - intros H. remember (Star (Class p)) as r eqn:Hr. revert Hr.
    induction H as [| | | | | |r0 s1 s2 H1 _ H2 IH2]; try done.
    intros [= ->]. apply matches_Class_inv in H1 as (u & -> & Hp).
    constructor; [done|]. by apply IH2.
  - induction 1 as [|u s Hu _ IH]; [constructor|].
    apply (matches_Star_cons (Class p) [u] s); [by constructor|done].
Qed.

Lemma matches_Plus_Class s :
  matches (Plus (Class not_space_at)) s <-> address_part s.
Proof.
  unfold Plus, address_part. rewrite matches_Seq_inv. split.
  - intros (s1 & s2 & -> & H1 & H2).
    apply matches_Class_inv in H1 as (u & -> & Hu). apply matches_Star_Class in H2.
    split; [done|]. by constructor.
  - intros [Hne Hall]. destruct Hall as [|u s Hu Hs]; [done|].
    exists [u], s. split; [done|]. split; [by constructor|by apply matches_Star_Class].
Qed.

(** X22. [isValidEmail] accepts exactly the texts of the form
    local@domain.tld in which the three parts are not empty and hold
    neither white space nor an at sign.  Hence an accepted address has
    no white space and exactly one at sign, and a dot somewhere behind
    it that is neither first after it nor last. *)
Theorem isValidEmail_shape (email : string) :
  isValidEmail email = true <->
  exists local domain tld,
    code_units email = (local ++ Other "@" :: domain ++ Other "." :: tld)%list /\
    address_part local /\ address_part domain /\ address_part tld.
Proof.
  unfold isValidEmail, emailRegex. rewrite test_matches, matches_Seq_inv. split.
  - intros (local & s1 & -> & Hlocal & H1).
    apply matches_Seq_inv in H1 as (at_ & s2 & -> & Hat & H2).
    apply matches_Seq_inv in H2 as (domain & s3 & -> & Hdomain & H3).
    apply matches_Seq_inv in H3 as (dot & tld & -> & Hdot & Htld).
    apply matches_Class_inv in Hat as (u & -> & Hu).
    apply matches_Class_inv in Hdot as (v & -> & Hv).
    destruct u as [|a]; [done|]. destruct v as [|b]; [done|].
    apply Ascii.eqb_eq in Hu as ->. apply Ascii.eqb_eq in Hv as ->.
    exists local, domain, tld. split; [done|].
    by rewrite <- !matches_Plus_Class.
  - intros (local & domain & tld & -> & Hlocal & Hdomain & Htld).
    exists local, (Other "@" :: domain ++ Other "." :: tld)%list.
    split; [done|]. split; [by apply matches_Plus_Class|].
    apply (matches_Seq _ _ [Other "@"%char]); [by constructor|].
    apply matches_Seq; [by apply matches_Plus_Class|].
    apply (matches_Seq _ _ [Other "."%char]); [by constructor|].
    by apply matches_Plus_Class.
Qed.

Lemma isValidEmail_samples :
  isValidEmail "student@example.com" = true /\
  isValidEmail "a@b.c" = true /\
  isValidEmail "a.b@c.d.e" = true /\
  isValidEmail "" = false /\
  isValidEmail "student" = false /\
  isValidEmail "student@example" = false /\
  isValidEmail "student@.com" = false /\
  isValidEmail "student@example." = false /\
  isValidEmail "a@b@c.d" = false /\
  isValidEmail "a b@c.d" = false /\
  isValidEmail " a@b.c" = false /\
  isValidEmail (bytes [97; 194; 160; 64; 98; 46; 99]%nat) = false /\
  isValidEmail (bytes [195; 169; 64; 98; 46; 99]%nat) = true.
Proof. vm_compute. repeat split; reflexivity. Qed.
(** ** The login form *)

Lemma append_cons a (s t : string) : String a s ++ t = String a (s ++ t).
Proof. reflexivity. Qed.

Lemma append_nil_r s : s ++ "" = s.
Proof. induction s as [|a s IH]; [done|]. by rewrite append_cons, IH. Qed.

Lemma append_assoc (s t u : string) : (s ++ t) ++ u = s ++ (t ++ u).
Proof. induction s as [|a s IH]; [done|]. by rewrite !append_cons, IH. Qed.

Lemma string_rev_app s t : string_rev (s ++ t) = string_rev t ++ string_rev s.
Proof.
  induction s as [|a s IH]; [symmetry; apply append_nil_r|].
  rewrite append_cons. cbn [string_rev]. by rewrite IH, append_assoc.
Qed.

Lemma string_rev_involutive s : string_rev (string_rev s) = s.
Proof.
  induction s as [|a s IH]; [done|]. cbn [string_rev]. by rewrite string_rev_app, IH.
Qed.

Lemma strip_prefix_Some p s r : strip_prefix p s = Some r -> s = p ++ r.
Proof.
  revert s. induction p as [|a p IH]; intros s; cbn [strip_prefix]; [by intros [= ->]|].
  destruct s as [|b s]; [done|]. destruct (Ascii.eqb_spec a b) as [->|]; [|done].
  intros H. by rewrite append_cons, (IH _ H).
Qed.

Lemma strip_prefix_app p r : strip_prefix p (p ++ r) = Some r.
Proof.
  induction p as [|a p IH]; [by destruct r|].
  rewrite append_cons. cbn [strip_prefix]. by rewrite Ascii.eqb_refl.
Qed.

Lemma strip_any_Some ps s r :
  strip_any ps s = Some r -> exists p, In p ps /\ s = p ++ r.
Proof.
  induction ps as [|p ps IH]; simpl; [done|].
  destruct (strip_prefix p s) as [r'|] eqn:Hp.
  - intros [= <-]. exists p. split; [by left|]. by apply strip_prefix_Some.
  - intros H. destruct (IH H) as (q & Hq & ->). exists q. split; [by right|done].
Qed.

Lemma strip_any_app ps p r : In p ps -> strip_any ps (p ++ r) <> None.
Proof.
  induction ps as [|q ps IH]; simpl; [done|]. intros [->|Hin].
  - by rewrite strip_prefix_app.
  - destruct (strip_prefix q (p ++ r)); [done|]. by apply IH.
Qed.

Lemma strip_all_run fuel ps t : strip_all fuel ps t = "" -> run ps t.
Proof.
  revert t. induction fuel as [|fuel IH]; intros t; simpl.
  - intros ->. constructor.
  - destruct (strip_any ps t) as [r|] eqn:Hr.
    + intros H. apply strip_any_Some in Hr as (p & Hp & ->).
      constructor; [done|]. by apply IH.
    + intros ->. constructor.
Qed.

Lemma run_ends ps t : run ps t -> t = "" \/ exists p r, In p ps /\ t = r ++ p.
Proof.
  induction 1 as [|p r Hp _ IH]; [by left|]. right. destruct IH as [->|(q & r' & Hq & ->)].
  - exists p, "". split; [done|]. by rewrite append_nil_r.
  - exists q, (p ++ r'). split; [done|]. by rewrite append_assoc.
Qed.

(** A text that [trimEnd] empties is empty or starts with white
    space. *)
Lemma trimEnd_blank s :
  trimEnd s = "" -> s = "" \/ strip_any StrWhiteSpaceChar s <> None.
Proof.
  unfold trimEnd. intros H. apply (f_equal string_rev) in H.
  rewrite string_rev_involutive in H. change (string_rev "") with "" in H.
  apply strip_all_run, run_ends in H as [H|(p & r & Hp & H)].
  - left. apply (f_equal string_rev) in H. by rewrite string_rev_involutive in H.
  - right. apply (f_equal string_rev) in H.
    rewrite string_rev_involutive, string_rev_app in H. rewrite H.
    apply strip_any_app. apply in_map_iff in Hp as (w & <- & Hw).
    by rewrite string_rev_involutive.
Qed.

Lemma first_unit_not_blank s a rest :
  code_units s = Other a :: rest -> is_empty (trim s) = false.
Proof.
  unfold code_units. destruct s as [|b s]; [done|]. cbn [String.length code_units_from].
  destruct (strip_any StrWhiteSpaceChar (String b s)) eqn:Hstrip; [done|]. intros _.
  assert (trimStart (String b s) = String b s) as Hstart.
  { unfold trimStart. cbn [String.length strip_all]. by rewrite Hstrip. }
  unfold trim. rewrite Hstart.
  destruct (trimEnd (String b s)) eqn:Hend; [|done].
  apply trimEnd_blank in Hend as [?|?]; done.
Qed.

Lemma matches_first_unit r2 s :
  matches (Seq (Plus (Class not_space_at)) r2) s ->
  exists a rest, s = Other a :: rest.
Proof.
  rewrite matches_Seq_inv. intros (s1 & s2 & -> & H1 & _).
  apply matches_Plus_Class in H1 as [Hne Hall].
  destruct Hall as [|u s1 Hu _]; [done|]. destruct u as [|a]; [done|]. by exists a, (s1 ++ s2)%list.
Qed.

Lemma isValidEmail_not_blank email :
  isValidEmail email = true -> is_empty (trim email) = false.
Proof.
  unfold isValidEmail, emailRegex. rewrite test_matches.
  intros H. apply matches_first_unit in H as (a & rest & H).
  by apply (first_unit_not_blank email a rest).
Qed.

(** X23. The login form is accepted exactly when the address has the
    shape [isValidEmail] asks for and the password is not blank and
    has six code units or more; the test for a blank address decides
    only which message is shown.  Each field has an empty error text
    exactly when it passes. *)
Theorem validateInputs_accepts (email password : string) :
  (snd (validateInputs email password) = true <->
     isValidEmail email = true /\
     is_empty (trim password) = false /\
     6 <= String_length password) /\
  (fst (fst (validateInputs email password)) = "" <-> isValidEmail email = true) /\
  (snd (fst (validateInputs email password)) = "" <->
     is_empty (trim password) = false /\ 6 <= String_length password) /\
  (fst (fst (validateInputs email password)) = "Email is required" <->
     is_empty (trim email) = true) /\
  (snd (fst (validateInputs email password)) = "Password is required" <->
     is_empty (trim password) = true).
Proof.
  unfold validateInputs.
  pose proof (isValidEmail_not_blank email) as Hblank.
  destruct (is_empty (trim email)), (isValidEmail email),
    (is_empty (trim password)), (Z.ltb_spec (String_length password) 6);
    cbn [negb fst snd]; repeat split; try done; try lia;
    try (by intros (? & ? & ?)); try (by intros [? ?]);
    try (intros _; by apply Hblank).
Qed.

Lemma validateInputs_samples :
  validateInputs "student@example.com" "secret1" = ("", "", true) /\
  validateInputs "  " "secret1" = ("Email is required", "", false) /\
  validateInputs "student" "secret1" = ("Please enter a valid email", "", false) /\
  validateInputs "student@example.com" "      " = ("", "Password is required", false) /\
  validateInputs "student@example.com" "abc"
  = ("", "Password must be at least 6 characters", false) /\
  String_length (bytes [240; 159; 148; 145; 240; 159; 148; 145; 240; 159; 148; 145]%nat) = 6.
Proof. vm_compute. repeat split; reflexivity. Qed.
(** ** Whole hours *)

Lemma shr_1_even m :
  0 < m ->
  shr_1 {| shr_m := 2 * m; shr_r := false; shr_s := false |}
  = {| shr_m := m; shr_r := false; shr_s := false |}.
Proof. destruct m as [|p|p]; [lia| |lia]. reflexivity. Qed.

(** Shifting out zeros is exact. *)
Lemma iter_shr_exact n :
  forall m, 0 < m ->
    SpecFloat.iter_pos shr_1 n
      {| shr_m := m * 2 ^ Z.pos n; shr_r := false; shr_s := false |}
    = {| shr_m := m; shr_r := false; shr_s := false |}.
Proof.
  induction n as [n IH|n IH|]; intros m Hm; cbn [SpecFloat.iter_pos].
  - assert (0 < 2 ^ Z.pos n) as Hp by (apply Z.pow_pos_nonneg; lia).
    replace (m * 2 ^ Z.pos n~1) with (2 * ((m * 2 ^ Z.pos n) * 2 ^ Z.pos n)).
    + rewrite shr_1_even by nia. rewrite IH by nia. by apply IH.
    + replace (Z.pos n~1) with (Z.pos n + Z.pos n + 1) by lia.
      rewrite !Z.pow_add_r by lia. lia.
  - assert (0 < 2 ^ Z.pos n) as Hp by (apply Z.pow_pos_nonneg; lia).
    replace (m * 2 ^ Z.pos n~0) with ((m * 2 ^ Z.pos n) * 2 ^ Z.pos n).
    + rewrite IH by nia. by apply IH.
    + replace (Z.pos n~0) with (Z.pos n + Z.pos n) by lia.
      rewrite Z.pow_add_r by lia. lia.
  - replace (m * 2 ^ 1) with (2 * m) by lia. by apply shr_1_even.
Qed.

(** A mantissa of 53 bits followed by zeros is rounded to those 53
    bits. *)
Lemma binary_round_aux_shift (M m : positive) e n :
  0 <= n ->
  Z.pos M = Z.pos m * 2 ^ n ->
  2 ^ 52 <= Z.pos m < 2 ^ 53 ->
  -1074 <= e + n <= 971 ->
  binary_round_aux prec emax false (Z.pos M) e loc_Exact = S754_finite false m (e + n).
Proof.
  intros Hn HM Hm He.
  assert (0 < 2 ^ n) as Hp by (apply Z.pow_pos_nonneg; lia).
  assert (Z.pos (digits2_pos M) = 53 + n) as HdM.
  { apply digits2_unique. replace (53 + n - 1) with (52 + n) by lia.
    rewrite !Z.pow_add_r by lia. nia. }
  assert (Z.pos (digits2_pos m) = 53) as Hdm by (apply digits2_unique; lia).
  unfold binary_round_aux, shr_fexp. cbn [Zdigits2].
  rewrite HdM, fexp_normal by lia.
  replace (53 + n + e - 53 - e) with n by lia.
  assert (shr (shr_record_of_loc (Z.pos M) loc_Exact) e n
          = ({| shr_m := Z.pos m; shr_r := false; shr_s := false |}, e + n)) as ->.
  { destruct n as [|p|p]; [| |lia].
    - cbn [shr shr_record_of_loc]. rewrite Z.add_0_r. do 2 f_equal. lia.
    - cbn [shr shr_record_of_loc]. rewrite HM. by rewrite iter_shr_exact. }
  cbn [shr_m loc_of_shr_record round_nearest_even Zdigits2].
  rewrite Hdm, fexp_normal by lia.
  replace (53 + (e + n) - 53 - (e + n)) with 0 by lia. cbn [shr shr_record_of_loc shr_m].
  replace (e + n <=? emax - prec) with true by (unfold emax, prec; lia). done.
Qed.

Lemma binary_normalize_scaled z e :
  0 < z < 2 ^ 53 -> -52 <= e <= 0 ->
  binary_normalize prec emax (z * 2 ^ (- e)) e false = of_Z z.
Proof.
  intros Hz He. destruct z as [|p|p]; [lia| |lia].
  destruct (of_Z_exact p) as (m & e' & -> & _ & Hm & He' & Hmp); [lia|].
  assert (0 < 2 ^ (- e)) as Hp by (apply Z.pow_pos_nonneg; lia).
  assert (0 < 2 ^ (- e')) as Hp' by (apply Z.pow_pos_nonneg; lia).
  destruct (Z.pos p * 2 ^ (- e)) as [|M|M] eqn:HM; [lia| |lia].
  unfold binary_normalize, binary_round.
  destruct (Z.le_gt_cases e e') as [Hle|Hgt].
  - assert (Z.pos M = Z.pos m * 2 ^ (e' - e)) as HMm.
    { rewrite <- HM, Hmp, <- Z.mul_assoc, <- Z.pow_add_r by lia. do 2 f_equal. lia. }
    assert (0 < 2 ^ (e' - e)) as Hq by (apply Z.pow_pos_nonneg; lia).
    assert (Z.pos (digits2_pos M) = 53 + (e' - e)) as HdM.
    { apply digits2_unique. replace (53 + (e' - e) - 1) with (52 + (e' - e)) by lia.
      rewrite !Z.pow_add_r by lia. nia. }
    rewrite HdM, fexp_normal by lia. unfold shl_align.
    replace (53 + (e' - e) + e - 53 - e) with (e' - e) by lia.
    destruct (e' - e) as [|d|d] eqn:Hd; [| |lia].
    + rewrite (binary_round_aux_shift M m e 0) by (try done; lia).
      f_equal. lia.
    + rewrite (binary_round_aux_shift M m e (Z.pos d)) by (try done; lia).
      f_equal. lia.
  - assert (Z.pos m = Z.pos M * 2 ^ (e - e')) as HMm.
    { rewrite <- HM, Hmp, <- Z.mul_assoc, <- Z.pow_add_r by lia. do 2 f_equal. lia. }
    assert (0 < 2 ^ (e - e')) as Hq by (apply Z.pow_pos_nonneg; lia).
    assert (Z.pos (digits2_pos M) = 53 - (e - e')) as HdM.
    { apply digits2_unique.
      assert (2 ^ 52 = 2 ^ (53 - (e - e') - 1) * 2 ^ (e - e')) as H52.
      { rewrite <- Z.pow_add_r by lia. f_equal. lia. }
      assert (2 ^ 53 = 2 ^ (53 - (e - e')) * 2 ^ (e - e')) as H53.
      { rewrite <- Z.pow_add_r by lia. f_equal. lia. }
      assert (0 < 2 ^ (53 - (e - e') - 1)) by (apply Z.pow_pos_nonneg; lia).
      assert (0 < 2 ^ (53 - (e - e'))) by (apply Z.pow_pos_nonneg; lia).
      nia. }
    rewrite HdM, fexp_normal by lia. unfold shl_align.
    replace (53 - (e - e') + e - 53 - e) with (e' - e) by lia.
    destruct (e' - e) as [|d|d] eqn:Hd; [lia|lia|].
    assert (Pos.iter xO M d = m) as ->.
    { apply Pos2Z.inj. rewrite iter_xO_pow, HMm. do 2 f_equal. lia. }
    replace (53 - (e - e') + e - 53) with e' by lia.
    by apply binary_round_aux_exact; [|lia].
Qed.

Lemma shl_align_fst (m : positive) e ez :
  ez <= e -> Z.pos (fst (shl_align m e ez)) = Z.pos m * 2 ^ (e - ez).
Proof.
  intros Hle. unfold shl_align. destruct (ez - e) as [|d|d] eqn:Hd; [|lia|].
  - cbn [fst]. replace (e - ez) with 0 by lia. lia.
  - cbn [fst]. rewrite iter_xO_pow. do 2 f_equal. lia.
Qed.

(** The aligned mantissa of a whole number. *)
Lemma aligned_of_Z (p m : positive) e ez :
  Z.pos m = Z.pos p * 2 ^ (- e) -> ez <= e <= 0 ->
  Z.pos (fst (shl_align m e ez)) = Z.pos p * 2 ^ (- ez).
Proof.
  intros Hm He. rewrite shl_align_fst, Hm, <- Z.mul_assoc, <- Z.pow_add_r by lia.
  do 2 f_equal. lia.
Qed.

(** Whole numbers add exactly while the sum is below 2^53. *)
Lemma add_of_Z a b :
  0 <= a -> 0 <= b -> a + b < 2 ^ 53 -> add (of_Z a) (of_Z b) = of_Z (a + b).
Proof.
  intros Ha Hb Hsum. destruct a as [|a|a]; [|destruct b as [|b|b]|]; try lia.
  - change (of_Z 0) with (S754_zero false). rewrite Z.add_0_l.
    destruct b as [|b|b]; [done| |lia].
    by destruct (of_Z_exact b) as (m & e & -> & _); [lia|].
  - change (of_Z 0) with (S754_zero false). rewrite Z.add_0_r.
    by destruct (of_Z_exact a) as (m & e & -> & _); [lia|].
  - destruct (of_Z_exact a) as (ma & ea & -> & _ & Hma & Hea & Ha'); [lia|].
    destruct (of_Z_exact b) as (mb & eb & -> & _ & Hmb & Heb & Hb'); [lia|].
    unfold add, SFadd. cbn [cond_Zopp].
    rewrite (aligned_of_Z a ma ea), (aligned_of_Z b mb eb) by (try done; lia).
    rewrite <- Z.mul_add_distr_r. apply binary_normalize_scaled; lia.
Qed.

(** And subtract exactly. *)
Lemma sub_of_Z a b :
  0 <= b <= a -> a < 2 ^ 53 -> sub (of_Z a) (of_Z b) = of_Z (a - b).
Proof.
  intros Hab Ha. destruct b as [|b|b]; [| |lia].
  - change (of_Z 0) with (S754_zero false). rewrite Z.sub_0_r.
    destruct a as [|a|a]; [done| |lia].
    by destruct (of_Z_exact a) as (m & e & -> & _); [lia|].
  - destruct a as [|a|a]; try lia.
    destruct (of_Z_exact a) as (ma & ea & -> & _ & Hma & Hea & Ha'); [lia|].
    destruct (of_Z_exact b) as (mb & eb & -> & _ & Hmb & Heb & Hb'); [lia|].
    unfold sub, SFsub. cbn [cond_Zopp].
    rewrite (aligned_of_Z a ma ea), (aligned_of_Z b mb eb) by (try done; lia).
    rewrite <- Z.mul_sub_distr_r.
    destruct (Z.eq_dec (Z.pos a) (Z.pos b)) as [->|Hne].
    + by rewrite Z.sub_diag.
    + apply binary_normalize_scaled; lia.
Qed.

Lemma hours_of_nonneg hours tasks :
  Forall (fun task => studyTime_is (hours task) task) tasks -> 0 <= hours_of hours tasks.
Proof.
  induction 1 as [|task tasks [Hh _] _ IH]; simpl; lia.
Qed.

Lemma hours_of_split hours tasks :
  hours_of hours tasks
  = hours_of hours (completed_of tasks) + hours_of hours (pending_of tasks).
Proof.
  induction tasks as [|task tasks IH]; simpl; [done|].
  destruct (truthy (get task "completed")); simpl; lia.
Qed.

Lemma plus_studyTime_whole hours task total :
  studyTime_is hours task -> 0 <= total -> total + hours < 2 ^ 53 ->
  ProgressScreen.plus_studyTime (Some (of_Z total)) task = Some (of_Z (total + hours)).
Proof.
  intros [Hh Hst] Ht Hsum. unfold ProgressScreen.plus_studyTime.
  destruct (get task "studyTime") as [| |b|x|s]; try done.
  - subst. cbn [truthy]. by rewrite add_of_Z, Z.add_0_r.
  - subst. cbn [truthy]. by rewrite add_of_Z, Z.add_0_r.
  - subst x. destruct hours as [|h|h]; [| |lia].
    + change (of_Z 0) with (S754_zero false). cbn [truthy].
      change (S754_zero false) with (of_Z 0). by rewrite add_of_Z.
    + destruct (of_Z_exact h) as (m & e & Hm & _); [lia|].
      rewrite Hm. cbn [truthy]. rewrite <- Hm. by rewrite add_of_Z.
Qed.

Lemma fold_plus_studyTime hours tasks :
  Forall (fun task => studyTime_is (hours task) task) tasks ->
  forall total,
    0 <= total -> total + hours_of hours tasks < 2 ^ 53 ->
    fold_left ProgressScreen.plus_studyTime tasks (Some (of_Z total))
    = Some (of_Z (total + hours_of hours tasks)).
Proof.
  induction 1 as [|task tasks Htask Hrest IH]; intros total Ht Hsum.
  - cbn [fold_left]. unfold hours_of. cbn [fold_right]. by rewrite Z.add_0_r.
  - unfold hours_of in Hsum |- *. cbn [fold_left fold_right] in Hsum |- *.
    fold (hours_of hours tasks) in Hsum |- *.
    pose proof (hours_of_nonneg hours tasks Hrest) as Hnn. destruct Htask as [Hh Hst].
    rewrite (plus_studyTime_whole (hours task)) by (try done; lia).
    rewrite IH by lia. f_equal. f_equal. lia.
Qed.

(** X24. When every study time is a whole number of hours, or is
    missing, and the hours add up to less than 2^32, the progress
    screen shows exact figures: the total is the sum of the hours,
    the completed hours are the sum over the completed tasks, the
    remaining hours are the sum over the pending ones, and the
    percentage of hours is a whole number between 0 and 100 within a
    half of the exact quotient, 0 when there are no hours at all. *)
Theorem study_hours_exact (hours : Task -> Z) (tasks : list Task) :
  Forall (fun task => studyTime_is (hours task) task) tasks ->
  hours_of hours tasks < 2 ^ 32 ->
  ProgressScreen.totalHours tasks = Some (of_Z (hours_of hours tasks)) /\
  ProgressScreen.completedHours tasks
  = Some (of_Z (hours_of hours (completed_of tasks))) /\
  ProgressScreen.remainingHours tasks
  = Some (of_Z (hours_of hours (pending_of tasks))) /\
  0 <= hours_of hours (completed_of tasks) <= hours_of hours tasks /\
  exists k,
    ProgressScreen.hoursProgress tasks = Some (of_Z k) /\
    0 <= k <= 100 /\
    Z.abs (2 * hours_of hours tasks * k - 200 * hours_of hours (completed_of tasks))
      <= hours_of hours tasks.
Proof.
  intros Hwhole Hsum.
  assert (Forall (fun task => studyTime_is (hours task) task) (completed_of tasks)) as Hc
    by (by apply Forall_filter_keeps).
  assert (Forall (fun task => studyTime_is (hours task) task) (pending_of tasks)) as Hp
    by (by apply Forall_filter_keeps).
  pose proof (hours_of_nonneg _ _ Hwhole) as Hn.
  pose proof (hours_of_nonneg _ _ Hc) as Hcn.
  pose proof (hours_of_nonneg _ _ Hp) as Hpn.
  pose proof (hours_of_split hours tasks) as Hsplit.
  assert (ProgressScreen.totalHours tasks = Some (of_Z (hours_of hours tasks))) as Htotal.
  { unfold ProgressScreen.totalHours. by rewrite (fold_plus_studyTime hours) by (try done; lia). }
  assert (ProgressScreen.completedHours tasks
          = Some (of_Z (hours_of hours (completed_of tasks)))) as Hcompleted.
  { unfold ProgressScreen.completedHours. fold (completed_of tasks).
    by rewrite (fold_plus_studyTime hours) by (try done; lia). }
  split; [done|]. split; [done|]. split.
  { unfold ProgressScreen.remainingHours. rewrite Htotal, Hcompleted, sub_of_Z by lia.
    do 2 f_equal. lia. }
  split; [lia|].
  unfold ProgressScreen.hoursProgress. rewrite Htotal, Hcompleted.
  rewrite num_gt_of_Z by lia.
  assert (0 <= hours_of hours (completed_of tasks) <= hours_of hours tasks) as Hcn' by lia.
  clear Htotal Hcompleted Hsplit Hcn.
  generalize dependent (hours_of hours (completed_of tasks)). intros c.
  generalize dependent (hours_of hours tasks). intros n. intros.
  destruct (Z.ltb_spec 0 n) as [Hpos|Hzero].
  - destruct n as [|n|n]; [lia| |lia]. destruct c as [|c|c]; [| |lia].
    + exists 0.
      destruct (F2R_of_Z n) as (mb & eb & -> & _); [lia|].
      destruct (F2R_of_Z 100) as (mh & eh & -> & _); [done|].
      split; [done|]. lia.
    + destruct (progress_nearest c n) as (k & Hk & Hnear); [lia..|].
      exists k. split; [by rewrite Hk|].
      pose proof Hnear as Hnear'. apply Z.abs_le in Hnear'. split; [nia|done].
  - exists 0. split; [done|]. lia.
Qed.

Lemma study_hours_exact_witness :
  ProgressScreen.totalHours [task_of_hours 2 true; task_of_hours 3 false; task_of_hours 2 true]
  = Some (of_Z (hours_of (fun task => if truthy (get task "completed") then 2 else 3)
                  [task_of_hours 2 true; task_of_hours 3 false; task_of_hours 2 true])) /\
  ProgressScreen.completedHours
    [task_of_hours 2 true; task_of_hours 3 false; task_of_hours 2 true]
  = Some (of_Z (hours_of (fun task => if truthy (get task "completed") then 2 else 3)
                  (completed_of
                     [task_of_hours 2 true; task_of_hours 3 false; task_of_hours 2 true]))) /\
  ProgressScreen.remainingHours
    [task_of_hours 2 true; task_of_hours 3 false; task_of_hours 2 true]
  = Some (of_Z (hours_of (fun task => if truthy (get task "completed") then 2 else 3)
                  (pending_of
                     [task_of_hours 2 true; task_of_hours 3 false; task_of_hours 2 true]))) /\
  0 <= hours_of (fun task => if truthy (get task "completed") then 2 else 3)
         (completed_of [task_of_hours 2 true; task_of_hours 3 false; task_of_hours 2 true])
    <= hours_of (fun task => if truthy (get task "completed") then 2 else 3)
         [task_of_hours 2 true; task_of_hours 3 false; task_of_hours 2 true] /\
  exists k,
    ProgressScreen.hoursProgress
      [task_of_hours 2 true; task_of_hours 3 false; task_of_hours 2 true]
    = Some (of_Z k) /\
    0 <= k <= 100 /\
    Z.abs (2 * hours_of (fun task => if truthy (get task "completed") then 2 else 3)
                 [task_of_hours 2 true; task_of_hours 3 false; task_of_hours 2 true] * k
           - 200 * hours_of (fun task => if truthy (get task "completed") then 2 else 3)
                     (completed_of
                        [task_of_hours 2 true; task_of_hours 3 false; task_of_hours 2 true]))
      <= hours_of (fun task => if truthy (get task "completed") then 2 else 3)
           [task_of_hours 2 true; task_of_hours 3 false; task_of_hours 2 true].
Proof.
  apply study_hours_exact.
  - repeat constructor; vm_compute; intros H; discriminate H.
  - vm_compute. reflexivity.
Defined.

(** Tenths of an hour do not add up exactly: 0.1 and 0.2 give
    0.30000000000000004. *)
Lemma study_hours_of_tenths :
  ProgressScreen.totalHours
    [ {[ "studyTime" := VNum (parseFloat "0.1") ]};
      {[ "studyTime" := VNum (parseFloat "0.2") ]} ]
  = Some (parseFloat "0.30000000000000004") /\
  parseFloat "0.30000000000000004" <> parseFloat "0.3".
Proof. split; [vm_compute; reflexivity|]. vm_compute. intros H. discriminate H. Qed.
(** ** Progress across the screens *)

Lemma nearest_order n1 n2 c1 c2 k1 k2 :
  0 < n1 -> 0 < n2 ->
  Z.abs (2 * n1 * k1 - 200 * c1) <= n1 ->
  Z.abs (2 * n2 * k2 - 200 * c2) <= n2 ->
  c1 * n2 < c2 * n1 ->
  k1 <= k2.
Proof.
  intros Hn1 Hn2 H1 H2 Hlt. apply Z.abs_le in H1, H2.
  destruct (Z.le_gt_cases k1 k2) as [|Hgt]; [done|]. exfalso.
  assert (2 * n1 * k1 * n2 <= (200 * c1 + n1) * n2) as Ha by nia.
  assert ((200 * c2 - n2) * n1 <= 2 * n2 * k2 * n1) as Hb by nia.
  assert (2 * n1 * n2 * (k2 + 1) <= 2 * n1 * n2 * k1) as Hc by nia.
  nia.
Qed.

(** The percentage follows the share of completed tasks. *)
Lemma calculateProgress_order tasks1 tasks2 :
  Z.of_nat (length tasks1) < 2 ^ 32 ->
  Z.of_nat (length tasks2) < 2 ^ 32 ->
  Z.of_nat (length (completed_of tasks1)) * Z.of_nat (length tasks2)
  < Z.of_nat (length (completed_of tasks2)) * Z.of_nat (length tasks1)
  \/ (length (completed_of tasks1) = length (completed_of tasks2)
      /\ length tasks1 = length tasks2)
  \/ length (completed_of tasks1) = 0%nat ->
  num_le (calculateProgress (Some tasks1)) (calculateProgress (Some tasks2)) = true.
Proof.
  intros Hn1 Hn2 Horder.
  destruct (calculateProgress_value tasks1 Hn1) as (k1 & E1 & R1 & N1).
  destruct (calculateProgress_value tasks2 Hn2) as (k2 & E2 & R2 & N2).
  destruct Horder as [Hlt|[[Hc Hn]|Hnone]]; [| |
    assert (k1 = 0) as ->;
    [|rewrite E1, E2, num_le_of_Z by lia; apply Z.leb_le; lia] ].
  3:{ destruct (length tasks1) as [|n] eqn:Hn.
      - apply length_zero_iff_nil in Hn. subst tasks1.
        apply of_Z_inj; [lia..|]. by rewrite <- E1.
      - rewrite Hnone in N1. apply Z.abs_le in N1. nia. }
  - rewrite E1, E2, num_le_of_Z by lia. apply Z.leb_le.
    pose proof (filter_length_le (fun task => truthy (get task "completed")) tasks2) as Hle.
    fold (completed_of tasks2) in Hle.
    pose proof (filter_length_le (fun task => truthy (get task "completed")) tasks1) as Hle'.
    fold (completed_of tasks1) in Hle'.
    assert (0 <= Z.of_nat (length (completed_of tasks1)) * Z.of_nat (length tasks2)) as Hnn
      by (apply Z.mul_nonneg_nonneg; lia).
    assert (0 < Z.of_nat (length tasks1)) as Hp1.
    { destruct (length tasks1); [|lia]. rewrite Z.mul_0_r in Hlt. lia. }
    assert (0 < Z.of_nat (length tasks2)) as Hp2.
    { destruct (length tasks2); [|lia].
      assert (length (completed_of tasks2) = 0%nat) as Hz by lia.
      rewrite Hz in Hlt. simpl in Hlt. lia. }
    by apply (nearest_order _ _ _ _ _ _ Hp1 Hp2 N1 N2).
  - assert (calculateProgress (Some tasks1) = calculateProgress (Some tasks2)) as ->.
    { unfold calculateProgress. by rewrite Hn, Hc. }
    rewrite E2, num_le_of_Z by lia. apply Z.leb_le. lia.
Qed.

Lemma HomeScreen_loadTasks_run state st :
  HomeScreen.loadTasks state st
  = (Normal (stored st, calculateProgress (Some (stored st))), st).
Proof.
  unfold HomeScreen.loadTasks, try_catch, mbind, async_bind. by rewrite getTasks_stored.
Qed.

Lemma completed_after_toggle taskId tasks :
  (length (completed_of tasks)
   <= length (completed_of (map (with_completed taskId true) tasks)))%nat.
Proof.
  induction tasks as [|task tasks IH]; simpl; [done|].
  unfold with_completed at 1.
  destruct (strict_eq (get task "id") taskId).
  - unfold get at 2. rewrite lookup_insert_eq. simpl.
    destruct (truthy (get task "completed")); simpl; lia.
  - destruct (truthy (get task "completed")); simpl; lia.
Qed.

(** X25. Marking a task shown as pending complete never lowers the
    percentage of the home screen: the progress [loadTasks] computes
    after the toggle is at least the progress it computed before. *)
Theorem toggle_never_lowers_progress (taskId : value) (tasks : list Task) (task : Task)
    (state : list Task * number) (st : AsyncStorage) :
  available st ->
  Forall priority_is_text (stored st) ->
  Z.of_nat (length (stored st)) < 2 ^ 32 ->
  List.find (fun t => strict_eq (get t "id") taskId) tasks = Some task ->
  truthy (get task "completed") = false ->
  exists tasks' st' before after,
    HomeScreen.loadTasks state st = (Normal before, st) /\
    TaskListScreen.handleToggleComplete taskId tasks st = (Normal tasks', st') /\
    HomeScreen.loadTasks before st' = (Normal after, st') /\
    fst after = stored st' /\
    num_le (snd before) (snd after) = true.
Proof.
  intros Hav Htext Hlen Hfind Hpending.
  destruct (toggle_found taskId tasks task st Hav Htext Hfind)
    as (tasks' & st' & Hrun & Hstored & _).
  rewrite Hpending in Hstored. cbn [negb] in Hstored.
  exists tasks', st'. eexists _, _. rewrite !HomeScreen_loadTasks_run.
  split; [done|]. split; [done|]. split; [done|]. split; [done|]. cbn [snd].
  rewrite Hstored. apply calculateProgress_order; [done|by rewrite length_map|].
  rewrite length_map.
  pose proof (completed_after_toggle taskId (stored st)) as Hle.
  destruct (decide (length (completed_of (stored st))
                    = length (completed_of (map (with_completed taskId true) (stored st)))))
    as [Heq|Hne]; [right; by left|left].
  apply Z.mul_lt_mono_pos_r; [|lia].
  destruct (stored st); [simpl in *; lia|simpl; lia].
Qed.

Lemma toggle_never_lowers_progress_witness :
  exists tasks' st' before after,
    HomeScreen.loadTasks ([], of_Z 0)
      (written [prioritised "b2" "Low"; prioritised "a1" "High"] working)
    = (Normal before, written [prioritised "b2" "Low"; prioritised "a1" "High"] working) /\
    TaskListScreen.handleToggleComplete (VStr "b2")
      [prioritised "a1" "High"; prioritised "b2" "Low"]
      (written [prioritised "b2" "Low"; prioritised "a1" "High"] working)
    = (Normal tasks', st') /\
    HomeScreen.loadTasks before st' = (Normal after, st') /\
    fst after = stored st' /\
    num_le (snd before) (snd after) = true.
Proof.
  apply (toggle_never_lowers_progress (VStr "b2")
           [prioritised "a1" "High"; prioritised "b2" "Low"] (prioritised "b2" "Low")).
  - split; reflexivity.
  - repeat constructor.
  - vm_compute. reflexivity.
  - reflexivity.
  - reflexivity.
Defined.

(** X26. A task added through the form is pending, so it never
    raises the percentage: after an accepted [handleSubmit] the
    progress [calculateProgress] gives for the stored tasks is at most
    what it gave before. *)
Theorem handleSubmit_never_raises_progress (c : clock) (f : form)
    (id deadlineISO createdAt : string) (st : AsyncStorage) :
  available st ->
  is_finite (parseFloat (studyTime f)) = true ->
  snd (validateForm c f) = true ->
  Z.of_nat (length (stored st)) + 1 < 2 ^ 32 ->
  exists shown st',
    handleSubmit c f id deadlineISO createdAt st = (Normal (∅, shown), st') /\
    length (stored st') = S (length (stored st)) /\
    num_le (calculateProgress (Some (stored st')))
           (calculateProgress (Some (stored st))) = true.
Proof.
  intros [Hget Hset] Hfin Hvalid Hlen. unfold handleSubmit.
  destruct (validateForm_passed c f Hvalid) as [Herrors Hpos].
  destruct (validateForm c f) as [newErrors valid]. cbn [fst snd] in *. subst.
  cbn [negb].
  pose proof (newTask_JSON_safe id deadlineISO createdAt f Hfin Hpos) as Hsafe.
  assert (truthy (get (newTask id deadlineISO createdAt f) "completed") = false) as Hpending.
  { unfold newTask, get. do 6 (rewrite lookup_insert_ne by done).
    by rewrite lookup_insert_eq. }
  generalize dependent (newTask id deadlineISO createdAt f). intros task Hsafe Hpending.
  unfold try_catch, mbind, async_bind.
  rewrite (addTask_run _ _ _ (getTasks_stored st)), saveTasks_unfold, Hset.
  eexists _, _. split; [reflexivity|].
  assert (stored (written (stored st ++ [task])%list st) = (stored st ++ [task])%list) as ->.
  { rewrite stored_written by done. apply map_reread_safe.
    apply Forall_app. split; [apply stored_safe|by constructor]. }
  rewrite length_app. simpl. split; [lia|].
  apply calculateProgress_order; [rewrite length_app; simpl; lia|lia|].
  unfold completed_of. rewrite List.filter_app, !length_app. simpl. rewrite Hpending. simpl.
  fold (completed_of (stored st)).
  pose proof (filter_length_le (fun task => truthy (get task "completed")) (stored st)) as Hle.
  fold (completed_of (stored st)) in Hle.
  rewrite Nat.add_0_r.
  destruct (length (completed_of (stored st))) as [|n] eqn:Hc.
  - by right; right.
  - left. apply Z.mul_lt_mono_pos_l; lia.
Qed.

Lemma handleSubmit_never_raises_progress_witness :
  exists shown st',
    handleSubmit at_day_20000 (form_with_studyTime "2.5") "m1tyl23s4fzyo82mvyr"
      "2024-10-04T00:00:05.000Z" "2024-10-04T00:00:01.000Z"
      (written [task_of_hours 2 true] working)
    = (Normal (∅, shown), st') /\
    length (stored st') = S (length (stored (written [task_of_hours 2 true] working))) /\
    num_le (calculateProgress (Some (stored st')))
           (calculateProgress (Some (stored (written [task_of_hours 2 true] working))))
    = true.
Proof.
  apply handleSubmit_never_raises_progress.
  - split; reflexivity.
  - vm_compute. reflexivity.
  - vm_compute. reflexivity.
  - vm_compute. reflexivity.
Defined.
